(** * A shallow embedding of the Scryfall Go client (package [scryfall])

    The development follows [client.go] and [models.go].  Go values are
    modelled as they are declared: [[]byte] as a list of bytes, [string] as
    [string], [int]/[int64] as [Z] (with the 64-bit wrap-around written out
    where the code does arithmetic), structs as records, the [error]
    interface as an inductive type listing the dynamic types the package can
    meet.  Effects (callbacks supplied by the caller, the HTTP transport, the
    rate limiter, the file system) are threaded through a small state and
    trace monad.  The pieces of the Go standard library that the client
    drives ([encoding/json]'s scanner and stream decoder, [io.Copy],
    [io.ReadAll]) are modelled next to the code that calls them. *)

From Stdlib Require Import String Ascii List ZArith NArith Lia Bool Arith.
From Stdlib Require Floats.PrimFloat.
From Stdlib Require Import DecimalString Sorted.
Import ListNotations.

Set Implicit Arguments.

(** ** Bytes and strings *)

Definition byte := ascii.
Bind Scope char_scope with byte.
Definition bytes := list byte.
Definition zeroByte : byte := "000".

Definition byte_leb (a b : byte) : bool := (N_of_ascii a <=? N_of_ascii b)%N.

Definition between (lo hi c : byte) : bool := byte_leb lo c && byte_leb c hi.

Definition isDigit (c : byte) : bool := between "0" "9" c.
Definition isDigit19 (c : byte) : bool := between "1" "9" c.
Definition isHex (c : byte) : bool :=
  between "0" "9" c || between "a" "f" c || between "A" "F" c.

(** [isSpace] of encoding/json/scanner.go. *)
Definition isSpace (c : byte) : bool :=
  byte_leb c " " &&
  ((c =? " ")%char || (c =? "009")%char || (c =? "013")%char || (c =? "010")%char).

Definition bytes_of (s : string) : bytes := list_ascii_of_string s.

(** [fmt.Sprintf("%d", n)]. *)
Definition itoa (n : Z) : string := NilZero.string_of_int (Z.to_int n).

(** [strings.Contains]. *)
Fixpoint prefixb (p s : string) : bool :=
  match p, s with
  | EmptyString, _ => true
  | String a p', String b s' => (a =? b)%char && prefixb p' s'
  | String _ _, EmptyString => false
  end.

Fixpoint Contains (s sub : string) : bool :=
  prefixb sub s ||
  match s with
  | EmptyString => false
  | String _ s' => Contains s' sub
  end.

(** ** models.go *)

Record CardPrices := {
  CardPrices_USD : string;
  CardPrices_USDFoil : string;
  CardPrices_USDEtched : string;
  CardPrices_EUR : string;
  CardPrices_EURFoil : string;
  CardPrices_TIX : string
}.

Record CardFace := {
  CardFace_Name : string;
  CardFace_ManaCost : string;
  CardFace_TypeLine : string;
  CardFace_OracleText : string;
  CardFace_Colors : list string;
  CardFace_Power : string;
  CardFace_Toughness : string;
  CardFace_Loyalty : string;
  CardFace_FlavorText : string;
  CardFace_ImageURIs : list (string * string)
}.

Record Card := {
  Card_ID : string;
  Card_OracleID : string;
  Card_Name : string;
  Card_Lang : string;
  Card_ReleasedAt : string;
  Card_Set : string;
  Card_CollectorNumber : string;
  Card_Rarity : string;
  Card_Layout : string;
  Card_ManaCost : string;
  Card_TypeLine : string;
  Card_OracleText : string;
  Card_Power : string;
  Card_Toughness : string;
  Card_Loyalty : string;
  Card_CMC : PrimFloat.float;
  Card_Keywords : list string;
  Card_Prices : CardPrices;
  Card_ImageURIs : list (string * string);
  Card_CardFaces : list CardFace;
  Card_TcgplayerID : Z;
  Card_CardmarketID : Z;
  Card_Uri : string;
  Card_ScryfallURI : string;
  Card_RulingsURI : string;
  Card_PrintsSearchURI : string;
  Card_Digital : bool;
  Card_Reserved : bool;
  Card_EDHRecRank : Z;
  Card_PennyRank : Z;
  Card_Games : list string;
  Card_Promo : bool;
  Card_Reprint : bool;
  Card_Variation : bool;
  Card_Oversized : bool;
  Card_StorySpotlight : bool;
  Card_FullArt : bool;
  Card_Textless : bool;
  Card_Booster : bool;
  Card_FrameEffects : list string;
  Card_Frame : string;
  Card_SecurityStamp : string;
  Card_BorderColor : string;
  Card_Watermark : string
}.

Record CardBulkData := {
  CardBulkData_ID : string;
  CardBulkData_Type : string;
  CardBulkData_UpdatedAt : string;
  CardBulkData_URI : string;
  CardBulkData_Name : string;
  CardBulkData_Description : string;
  CardBulkData_DownloadURI : string;
  CardBulkData_ContentType : string;
  CardBulkData_ContentEncoding : string;
  CardBulkData_CompressedSize : Z;
  CardBulkData_PermalinkURI : string
}.

Record CardSet := {
  CardSet_ID : string;
  CardSet_Code : string;
  CardSet_Name : string;
  CardSet_ReleasedAt : string;
  CardSet_SetType : string;
  CardSet_CardCount : Z;
  CardSet_Digital : bool;
  CardSet_NonfoilOnly : bool;
  CardSet_FoilOnly : bool;
  CardSet_IconSVGURI : string
}.

(** The zero values [Card{}] and [CardPrices{}]. *)
Definition zeroPrices : CardPrices :=
  {| CardPrices_USD := ""; CardPrices_USDFoil := ""; CardPrices_USDEtched := "";
     CardPrices_EUR := ""; CardPrices_EURFoil := ""; CardPrices_TIX := "" |}.

Definition zeroCard : Card :=
  {| Card_ID := ""; Card_OracleID := ""; Card_Name := ""; Card_Lang := "";
     Card_ReleasedAt := ""; Card_Set := ""; Card_CollectorNumber := "";
     Card_Rarity := ""; Card_Layout := ""; Card_ManaCost := "";
     Card_TypeLine := ""; Card_OracleText := ""; Card_Power := "";
     Card_Toughness := ""; Card_Loyalty := ""; Card_CMC := PrimFloat.zero;
     Card_Keywords := []; Card_Prices := zeroPrices; Card_ImageURIs := [];
     Card_CardFaces := []; Card_TcgplayerID := 0; Card_CardmarketID := 0;
     Card_Uri := ""; Card_ScryfallURI := ""; Card_RulingsURI := "";
     Card_PrintsSearchURI := ""; Card_Digital := false; Card_Reserved := false;
     Card_EDHRecRank := 0; Card_PennyRank := 0; Card_Games := [];
     Card_Promo := false; Card_Reprint := false; Card_Variation := false;
     Card_Oversized := false; Card_StorySpotlight := false;
     Card_FullArt := false; Card_Textless := false; Card_Booster := false;
     Card_FrameEffects := []; Card_Frame := ""; Card_SecurityStamp := "";
     Card_BorderColor := ""; Card_Watermark := "" |}.

(** ** Errors *)

(** [APIError] of client.go. *)
Record APIError := {
  StatusCode : Z;
  Details : string;
  APIError_Type : string;
  Warnings : list string
}.

Definition zeroAPIError : APIError :=
  {| StatusCode := 0; Details := ""; APIError_Type := ""; Warnings := [] |}.

(** The dynamic types an [error] value of this package can have.
    [errorString] is what [fmt.Errorf] builds from a format without [%w];
    [wrapError prefix e] is [fmt.Errorf(prefix + "%w", e)], the prefix
    with its colon and blank, which keeps [e] reachable through [Unwrap];
    [json_SyntaxError] drops the byte offset;
    [foreignError] stands for the error types of other packages (transport,
    context, unmarshal type errors, the caller's own). *)
Inductive error : Type :=
| errorString (msg : string)
| wrapError (prefix : string) (inner : error)
| io_EOF
| io_ErrUnexpectedEOF
| json_SyntaxError (msg : string)
| json_InvalidCharacter (c : byte) (context : string)
| APIError_ptr (e : APIError)
| foreignError (msg : string).

(** The [Error] method of the pointer type of [APIError]; the receiver may
    be nil. *)
Definition APIError_Error (e : option APIError) : string :=
  match e with
  | None => "scryfall api error"
  | Some e =>
      if negb (Details e =? "")%string
      then "scryfall api error (" ++ itoa (StatusCode e) ++ "): " ++ Details e
      else "scryfall api error (" ++ itoa (StatusCode e) ++ ")"
  end%string.

(** ** encoding/json: scanner.go

    The scanner is a state machine fed one byte at a time.  In Go the field
    [step] holds a function; here it holds the name of one ([stepFn]) and
    [scanner_step] dispatches on it.  [parseState] is a stack; the model
    keeps the innermost entry at the head of the list. *)

Inductive opcode :=
| scanContinue | scanBeginLiteral | scanBeginObject | scanObjectKey
| scanObjectValue | scanEndObject | scanBeginArray | scanArrayValue
| scanEndArray | scanSkipSpace | scanEnd | scanError.

Inductive parse := parseObjectKey | parseObjectValue | parseArrayValue.

Inductive stepFn :=
| fnBeginValueOrEmpty | fnBeginValue | fnBeginStringOrEmpty | fnBeginString
| fnEndValue | fnEndTop
| fnInString | fnInStringEsc | fnInStringEscU | fnInStringEscU1
| fnInStringEscU12 | fnInStringEscU123
| fnNeg | fn1 | fn0 | fnDot | fnDot0 | fnE | fnESign | fnE0
| fnT | fnTr | fnTru | fnF | fnFa | fnFal | fnFals | fnN | fnNu | fnNul
| fnError.

Record scanner := {
  step : stepFn;
  endTop : bool;
  parseState : list parse;
  err : option error
}.

Definition maxNestingDepth : Z := 10000.

Definition set_step (s : scanner) (f : stepFn) : scanner :=
  {| step := f; endTop := endTop s; parseState := parseState s; err := err s |}.

Definition set_parseState (s : scanner) (ps : list parse) : scanner :=
  {| step := step s; endTop := endTop s; parseState := ps; err := err s |}.

(** [scanner.reset]. *)
Definition scanner_reset : scanner :=
  {| step := fnBeginValue; endTop := false; parseState := []; err := None |}.

(** [scanner.error]. *)
Definition scanner_error (s : scanner) (c : byte) (context : string)
  : scanner * opcode :=
  ({| step := fnError; endTop := endTop s; parseState := parseState s;
      err := Some (json_InvalidCharacter c context) |}, scanError).

(** [scanner.pushParseState]. *)
Definition pushParseState (s : scanner) (c : byte) (newParseState : parse)
    (successState : opcode) : scanner * opcode :=
  let s := set_parseState s (newParseState :: parseState s) in
  if (Z.of_nat (List.length (parseState s)) <=? maxNestingDepth)%Z
  then (s, successState)
  else scanner_error s c "exceeded max depth".

(** [scanner.popParseState]. *)
Definition popParseState (s : scanner) : scanner :=
  match tl (parseState s) with
  | [] => {| step := fnEndTop; endTop := true; parseState := []; err := err s |}
  | rest => {| step := fnEndValue; endTop := endTop s; parseState := rest;
               err := err s |}
  end.

Definition stateEndTop (s : scanner) (c : byte) : scanner * opcode :=
  if negb (isSpace c)
  then (fst (scanner_error s c "after top-level value"), scanEnd)
  else (s, scanEnd).

Definition stateEndValue (s : scanner) (c : byte) : scanner * opcode :=
  match parseState s with
  | [] =>
      stateEndTop {| step := fnEndTop; endTop := true; parseState := [];
                     err := err s |} c
  | ps :: rest =>
      if isSpace c then (set_step s fnEndValue, scanSkipSpace)
      else
        match ps with
        | parseObjectKey =>
            if (c =? ":")%char
            then (set_step (set_parseState s (parseObjectValue :: rest))
                    fnBeginValue, scanObjectKey)
            else scanner_error s c "after object key"
        | parseObjectValue =>
            if (c =? ",")%char
            then (set_step (set_parseState s (parseObjectKey :: rest))
                    fnBeginString, scanObjectValue)
            else if (c =? "}")%char then (popParseState s, scanEndObject)
            else scanner_error s c "after object key:value pair"
        | parseArrayValue =>
            if (c =? ",")%char then (set_step s fnBeginValue, scanArrayValue)
            else if (c =? "]")%char then (popParseState s, scanEndArray)
            else scanner_error s c "after array element"
        end
  end.

Definition stateBeginValue (s : scanner) (c : byte) : scanner * opcode :=
  if isSpace c then (s, scanSkipSpace)
  else if (c =? "{")%char
  then pushParseState (set_step s fnBeginStringOrEmpty) c parseObjectKey
         scanBeginObject
  else if (c =? "[")%char
  then pushParseState (set_step s fnBeginValueOrEmpty) c parseArrayValue
         scanBeginArray
  else if (c =? "034")%char then (set_step s fnInString, scanBeginLiteral)
  else if (c =? "-")%char then (set_step s fnNeg, scanBeginLiteral)
  else if (c =? "0")%char then (set_step s fn0, scanBeginLiteral)
  else if (c =? "t")%char then (set_step s fnT, scanBeginLiteral)
  else if (c =? "f")%char then (set_step s fnF, scanBeginLiteral)
  else if (c =? "n")%char then (set_step s fnN, scanBeginLiteral)
  else if isDigit19 c then (set_step s fn1, scanBeginLiteral)
  else scanner_error s c "looking for beginning of value".

Definition stateBeginValueOrEmpty (s : scanner) (c : byte) : scanner * opcode :=
  if isSpace c then (s, scanSkipSpace)
  else if (c =? "]")%char then stateEndValue s c
  else stateBeginValue s c.

Definition stateBeginString (s : scanner) (c : byte) : scanner * opcode :=
  if isSpace c then (s, scanSkipSpace)
  else if (c =? "034")%char then (set_step s fnInString, scanBeginLiteral)
  else scanner_error s c "looking for beginning of object key string".

Definition stateBeginStringOrEmpty (s : scanner) (c : byte)
  : scanner * opcode :=
  if isSpace c then (s, scanSkipSpace)
  else if (c =? "}")%char
  then stateEndValue (set_parseState s (parseObjectValue :: tl (parseState s))) c
  else stateBeginString s c.

Definition stateInString (s : scanner) (c : byte) : scanner * opcode :=
  if (c =? "034")%char then (set_step s fnEndValue, scanContinue)
  else if (c =? "\")%char then (set_step s fnInStringEsc, scanContinue)
  else if (N_of_ascii c <? 32)%N then scanner_error s c "in string literal"
  else (s, scanContinue).

Definition stateInStringEsc (s : scanner) (c : byte) : scanner * opcode :=
  if (c =? "b")%char || (c =? "f")%char || (c =? "n")%char || (c =? "r")%char
     || (c =? "t")%char || (c =? "\")%char || (c =? "/")%char
     || (c =? "034")%char
  then (set_step s fnInString, scanContinue)
  else if (c =? "u")%char then (set_step s fnInStringEscU, scanContinue)
  else scanner_error s c "in string escape code".

Definition stateInStringEscHex (next : stepFn) (s : scanner) (c : byte)
  : scanner * opcode :=
  if isHex c then (set_step s next, scanContinue)
  else scanner_error s c "in \u hexadecimal character escape".

Definition state0 (s : scanner) (c : byte) : scanner * opcode :=
  if (c =? ".")%char then (set_step s fnDot, scanContinue)
  else if (c =? "e")%char || (c =? "E")%char then (set_step s fnE, scanContinue)
  else stateEndValue s c.

Definition state1 (s : scanner) (c : byte) : scanner * opcode :=
  if isDigit c then (set_step s fn1, scanContinue) else state0 s c.

Definition stateNeg (s : scanner) (c : byte) : scanner * opcode :=
  if (c =? "0")%char then (set_step s fn0, scanContinue)
  else if isDigit19 c then (set_step s fn1, scanContinue)
  else scanner_error s c "in numeric literal".

Definition stateDot (s : scanner) (c : byte) : scanner * opcode :=
  if isDigit c then (set_step s fnDot0, scanContinue)
  else scanner_error s c "after decimal point in numeric literal".

Definition stateDot0 (s : scanner) (c : byte) : scanner * opcode :=
  if isDigit c then (s, scanContinue)
  else if (c =? "e")%char || (c =? "E")%char then (set_step s fnE, scanContinue)
  else stateEndValue s c.

Definition stateESign (s : scanner) (c : byte) : scanner * opcode :=
  if isDigit c then (set_step s fnE0, scanContinue)
  else scanner_error s c "in exponent of numeric literal".

Definition stateE (s : scanner) (c : byte) : scanner * opcode :=
  if (c =? "+")%char || (c =? "-")%char then (set_step s fnESign, scanContinue)
  else stateESign s c.

Definition stateE0 (s : scanner) (c : byte) : scanner * opcode :=
  if isDigit c then (s, scanContinue) else stateEndValue s c.

(** The states spelling out [true], [false] and [null]: [want] is the next
    letter, [next] the state after it. *)
Definition stateLiteral (want : byte) (next : stepFn) (context : string)
    (s : scanner) (c : byte) : scanner * opcode :=
  if (c =? want)%char then (set_step s next, scanContinue)
  else scanner_error s c context.

Definition stateError (s : scanner) (c : byte) : scanner * opcode :=
  (s, scanError).

(** [s.step(s, c)]. *)
Definition scanner_step (s : scanner) (c : byte) : scanner * opcode :=
  match step s with
  | fnBeginValueOrEmpty => stateBeginValueOrEmpty s c
  | fnBeginValue => stateBeginValue s c
  | fnBeginStringOrEmpty => stateBeginStringOrEmpty s c
  | fnBeginString => stateBeginString s c
  | fnEndValue => stateEndValue s c
  | fnEndTop => stateEndTop s c
  | fnInString => stateInString s c
  | fnInStringEsc => stateInStringEsc s c
  | fnInStringEscU => stateInStringEscHex fnInStringEscU1 s c
  | fnInStringEscU1 => stateInStringEscHex fnInStringEscU12 s c
  | fnInStringEscU12 => stateInStringEscHex fnInStringEscU123 s c
  | fnInStringEscU123 => stateInStringEscHex fnInString s c
  | fnNeg => stateNeg s c
  | fn1 => state1 s c
  | fn0 => state0 s c
  | fnDot => stateDot s c
  | fnDot0 => stateDot0 s c
  | fnE => stateE s c
  | fnESign => stateESign s c
  | fnE0 => stateE0 s c
  | fnT => stateLiteral "r" fnTr "in literal true (expecting 'r')" s c
  | fnTr => stateLiteral "u" fnTru "in literal true (expecting 'u')" s c
  | fnTru => stateLiteral "e" fnEndValue "in literal true (expecting 'e')" s c
  | fnF => stateLiteral "a" fnFa "in literal false (expecting 'a')" s c
  | fnFa => stateLiteral "l" fnFal "in literal false (expecting 'l')" s c
  | fnFal => stateLiteral "s" fnFals "in literal false (expecting 's')" s c
  | fnFals => stateLiteral "e" fnEndValue "in literal false (expecting 'e')" s c
  | fnN => stateLiteral "u" fnNu "in literal null (expecting 'u')" s c
  | fnNu => stateLiteral "l" fnNul "in literal null (expecting 'l')" s c
  | fnNul => stateLiteral "l" fnEndValue "in literal null (expecting 'l')" s c
  | fnError => stateError s c
  end.

(** [checkValid] and [scanner.eof] of scanner.go, used by [json.Unmarshal]. *)
Definition scanner_eof (s : scanner) : scanner * opcode :=
  match err s with
  | Some _ => (s, scanError)
  | None =>
      if endTop s then (s, scanEnd)
      else
        let s := fst (scanner_step s " ") in
        if endTop s then (s, scanEnd)
        else
          match err s with
          | Some _ => (s, scanError)
          | None =>
              ({| step := step s; endTop := endTop s;
                  parseState := parseState s;
                  err := Some (json_SyntaxError "unexpected end of JSON input") |},
               scanError)
          end
  end.

Fixpoint checkValid_loop (s : scanner) (data : bytes) : option error :=
  match data with
  | [] =>
      let (s, op) := scanner_eof s in
      match op with scanError => err s | _ => None end
  | c :: data' =>
      let (s, op) := scanner_step s c in
      match op with
      | scanError => err s
      | _ => checkValid_loop s data'
      end
  end.

Definition checkValid (data : bytes) : option error :=
  checkValid_loop scanner_reset data.

(** ** Effects

    A computation takes the caller's state (whatever the callbacks close
    over) and returns the events it caused, the new state and its result.
    [None] is reserved for a loop that used up its iteration budget; the
    budgets below are computed from the input and are never used up (see
    [ProcessBulkDataStream_total]). *)

Inductive Event :=
| EvLimiterWait
| EvLog (level msg : string)
| EvHTTPDo (url : string)
| EvBodyClose
| EvProgress (current total : Z)
| EvCard (card : Card) (ret : option error)
| EvFileCreate (path : string)
| EvFileWrite (data : bytes)
| EvFileClose.

Definition M (St A : Type) : Type := St -> option (list Event * St * A).

Definition ret {St A} (a : A) : M St A := fun s => Some ([], s, a).

Definition bind {St A B} (m : M St A) (k : A -> M St B) : M St B :=
  fun s =>
    match m s with
    | None => None
    | Some (e1, s1, a) =>
        match k a s1 with
        | None => None
        | Some (e2, s2, b) => Some (e1 ++ e2, s2, b)
        end
    end.

Definition emit {St} (e : Event) : M St unit := fun s => Some ([e], s, tt).

Definition diverge {St A} : M St A := fun _ => None.

Declare Scope m_scope.
Delimit Scope m_scope with M.
Notation "x <- m ;; k" := (bind m (fun x => k))
  (at level 61, m at next level, right associativity) : m_scope.
Notation "' p <- m ;; k" := (bind m (fun x => let 'p := x in k))
  (at level 61, p pattern, m at next level, right associativity) : m_scope.
Notation "m ;;; k" := (bind m (fun _ => k))
  (at level 61, right associativity) : m_scope.
Open Scope m_scope.

(** The callbacks of client.go: [ProgressFunc] returns nothing, the card
    callback returns an error or nil.  Both may update the caller's state. *)
Definition ProgressFunc (St : Type) := Z -> Z -> St -> St.
Definition CardCallback (St : Type) := Card -> St -> St * option error.

Definition call_progress {St} (f : ProgressFunc St) (current total : Z)
  : M St unit :=
  fun s => Some ([EvProgress current total], f current total s, tt).

Definition call_card {St} (cb : CardCallback St) (c : Card)
  : M St (option error) :=
  fun s => let (s', r) := cb c s in Some ([EvCard c r], s', r).

(** ** io.Reader

    A response body is described by what its successive [Read] calls
    return: the bytes delivered and the error (nil, [io.EOF] or a transport
    failure).  Once the list is used up the body answers [0, io.EOF]. *)

Definition ReadResult := (bytes * option error)%type.
Definition Body := list ReadResult.

Definition Body_Read (b : Body) : ReadResult * Body :=
  match b with
  | [] => (([], Some io_EOF), [])
  | r :: b' => (r, b')
  end.

(** Two's-complement [int64]. *)
Definition int64 (z : Z) : Z := ((z + 2 ^ 63) mod 2 ^ 64 - 2 ^ 63)%Z.

Section Readers.
Variable St : Type.

(** [progressReader] of client.go. *)
Record progressReader := {
  ReadCloser : Body;
  Total : Z;
  Current : Z;
  OnRead : option (ProgressFunc St)
}.

(** [progressReader.Read]. *)
Definition progressReader_Read (r : progressReader)
  : M St (progressReader * ReadResult) :=
  let (res, b') := Body_Read (ReadCloser r) in
  let cur := int64 (Current r + Z.of_nat (List.length (fst res))) in
  let r' := {| ReadCloser := b'; Total := Total r; Current := cur;
               OnRead := OnRead r |} in
  match OnRead r with
  | Some f => call_progress f cur (Total r) ;;; ret (r', res)
  | None => ret (r', res)
  end.

(** The two dynamic types behind the [io.Reader] that the client hands to
    its consumers. *)
Inductive Reader :=
| bodyReader (b : Body)
| progressReader_ptr (r : progressReader).

Definition Reader_Read (rd : Reader) : M St (Reader * ReadResult) :=
  match rd with
  | bodyReader b => let (res, b') := Body_Read b in ret (bodyReader b', res)
  | progressReader_ptr r =>
      '(r', res) <- progressReader_Read r ;; ret (progressReader_ptr r', res)
  end.

Definition Reader_body (rd : Reader) : Body :=
  match rd with
  | bodyReader b => b
  | progressReader_ptr r => ReadCloser r
  end.
End Readers.

Arguments bodyReader {St} b.
Arguments progressReader_ptr {St} r.

(** ** encoding/json: decoding into Go values

    What [decodeState.value] stores into a destination is not part of this
    package; the model takes it, per destination type, as a function from
    the text of one syntactically valid JSON value (leading white space
    removed) to the decoded value and the error it reports. *)

Unset Elimination Schemes.
Inductive jsonAny :=
| any_nil
| any_bool (b : bool)
| any_float64 (f : PrimFloat.float)
| any_string (s : string)
| any_slice (l : list jsonAny)
| any_map (m : list (string * jsonAny)).
Set Elimination Schemes.

Class JSONCodec := {
  decode_any : bytes -> jsonAny * option error;
  decode_string : bytes -> string * option error;
  decode_Card : bytes -> Card * option error;
  decode_APIError : bytes -> APIError * option error;
  decode_CardBulkData : bytes -> CardBulkData * option error;
  decode_BulkDataList : bytes -> list CardBulkData * option error;
  decode_SetList : bytes -> list CardSet * option error
}.

Fixpoint dropSpace (b : bytes) : bytes :=
  match b with
  | c :: b' => if isSpace c then dropSpace b' else b
  | [] => []
  end.

(** [nonSpace] of stream.go. *)
Definition nonSpace (b : bytes) : bool := existsb (fun c => negb (isSpace c)) b.

(** [json.Unmarshal(data, v)]: [checkValid], then decode. *)
Definition json_Unmarshal {A} (zero : A) (um : bytes -> A * option error)
    (data : bytes) : A * option error :=
  match checkValid data with
  | Some e => (zero, Some e)
  | None => um (dropSpace data)
  end.

(** ** encoding/json: stream.go *)

Inductive TokenState :=
| tokenTopValue | tokenArrayStart | tokenArrayValue | tokenArrayComma
| tokenObjectStart | tokenObjectKey | tokenObjectColon | tokenObjectValue
| tokenObjectComma.

(** [json.Token]: a delimiter or a decoded scalar. *)
Inductive json_Token :=
| Delim (c : byte)
| TokString (s : string)
| TokValue (v : jsonAny).

(** What scanning the bytes at hand for the end of a value found. *)
Inductive scanResult :=
| ScanEnded (n : nat)
| ScanFailed (e : option error)
| ScanMore (s : scanner) (n : nat).

Definition is_scanEnd (op : opcode) : bool :=
  match op with scanEnd => true | _ => false end.

Definition is_EOF (e : error) : bool :=
  match e with io_EOF => true | _ => false end.

(** The inner loop of [Decoder.readValue]: [n] bytes of the value have been
    scanned, [todo] is the rest of the buffer. *)
Fixpoint scan_buf (s : scanner) (n : nat) (todo : bytes) : scanResult :=
  match todo with
  | [] => ScanMore s n
  | c :: todo' =>
      let (s', op) := scanner_step s c in
      match op with
      | scanEnd => ScanEnded n
      | scanEndObject | scanEndArray =>
          let (s'', op') := stateEndValue s' " " in
          if is_scanEnd op' then ScanEnded (S n) else scan_buf s'' (S n) todo'
      | scanError => ScanFailed (err s')
      | _ => scan_buf s' (S n) todo'
      end
  end.

Section Decoder.
Variable St : Type.
Context {codec : JSONCodec}.

(** [json.Decoder].  [buf] is the unread part [dec.buf[dec.scanp:]] of the
    Go buffer; the scanner a decoder owns is reset by every [readValue]
    and is local to it here. *)
Record Decoder := {
  r : Reader St;
  buf : bytes;
  dec_err : option error;
  tokenState : TokenState;
  tokenStack : list TokenState
}.

Definition NewDecoder (rd : Reader St) : Decoder :=
  {| r := rd; buf := []; dec_err := None; tokenState := tokenTopValue;
     tokenStack := [] |}.

Definition set_buf (dec : Decoder) (b : bytes) : Decoder :=
  {| r := r dec; buf := b; dec_err := dec_err dec;
     tokenState := tokenState dec; tokenStack := tokenStack dec |}.

Definition set_err (dec : Decoder) (e : option error) : Decoder :=
  {| r := r dec; buf := buf dec; dec_err := e;
     tokenState := tokenState dec; tokenStack := tokenStack dec |}.

Definition set_tokenState (dec : Decoder) (t : TokenState) : Decoder :=
  {| r := r dec; buf := buf dec; dec_err := dec_err dec;
     tokenState := t; tokenStack := tokenStack dec |}.

Definition set_tokenStack (dec : Decoder) (st : list TokenState) : Decoder :=
  {| r := r dec; buf := buf dec; dec_err := dec_err dec;
     tokenState := tokenState dec; tokenStack := st |}.

(** [Decoder.refill]: one [Read], appended to the buffer. *)
Definition refill (dec : Decoder) : M St (Decoder * option error) :=
  '(rd, (chunk, e)) <- Reader_Read (r dec) ;;
  ret ({| r := rd; buf := buf dec ++ chunk; dec_err := dec_err dec;
          tokenState := tokenState dec; tokenStack := tokenStack dec |}, e).

(** [Decoder.peek]: the next byte that is not white space.  [err] is the
    error of the last [refill], reported once the buffer holds nothing
    but space. *)
Fixpoint peek_loop (fuel : nat) (dec : Decoder) (err : option error)
  : M St (Decoder * (byte * option error)) :=
  match dropSpace (buf dec) with
  | c :: b => ret (set_buf dec (c :: b), (c, None))
  | [] =>
      match err with
      | Some e => ret (dec, (zeroByte, Some e))
      | None =>
          match fuel with
          | O => diverge
          | S fuel' => '(dec', e) <- refill dec ;; peek_loop fuel' dec' e
          end
      end
  end.

Definition peek (dec : Decoder) : M St (Decoder * (byte * option error)) :=
  peek_loop (S (List.length (Reader_body (r dec)))) dec None.

(** [Decoder.More]. *)
Definition More (dec : Decoder) : M St (Decoder * bool) :=
  '(dec, (c, err)) <- peek dec ;;
  ret (dec, match err with
            | None => negb (c =? "]")%char && negb (c =? "}")%char
            | Some _ => false
            end).

Definition tokenValueAllowed (dec : Decoder) : bool :=
  match tokenState dec with
  | tokenTopValue | tokenArrayStart | tokenArrayValue | tokenObjectValue =>
      true
  | _ => false
  end.

Definition tokenValueEnd (dec : Decoder) : Decoder :=
  match tokenState dec with
  | tokenArrayStart | tokenArrayValue => set_tokenState dec tokenArrayComma
  | tokenObjectValue => set_tokenState dec tokenObjectComma
  | _ => dec
  end.

Definition tokenPrepareForDecode (dec : Decoder)
  : M St (Decoder * option error) :=
  match tokenState dec with
  | tokenArrayComma =>
      '(dec, (c, err)) <- peek dec ;;
      match err with
      | Some e => ret (dec, Some e)
      | None =>
          if negb (c =? ",")%char
          then ret (dec, Some (json_SyntaxError
                                 "expected comma after array element"))
          else ret (set_tokenState (set_buf dec (tl (buf dec)))
                      tokenArrayValue, None)
      end
  | tokenObjectColon =>
      '(dec, (c, err)) <- peek dec ;;
      match err with
      | Some e => ret (dec, Some e)
      | None =>
          if negb (c =? ":")%char
          then ret (dec, Some (json_SyntaxError
                                 "expected colon after object key"))
          else ret (set_tokenState (set_buf dec (tl (buf dec)))
                      tokenObjectValue, None)
      end
  | _ => ret (dec, None)
  end.

(** [Decoder.readValue]: the length of the next complete value in the
    buffer, refilling it as needed.  [s] and [n] are the scanner and the
    scan position kept across refills, [err] the last refill's error. *)
Fixpoint readValue_loop (fuel : nat) (dec : Decoder) (s : scanner) (n : nat)
    (err : option error) : M St (Decoder * (nat * option error)) :=
  match scan_buf s n (skipn n (buf dec)) with
  | ScanEnded n' => ret (dec, (n', None))
  | ScanFailed e => ret (set_err dec e, (O, e))
  | ScanMore s' n' =>
      match err with
      | Some e =>
          if is_EOF e then
            if is_scanEnd (snd (scanner_step s' " ")) then ret (dec, (n', None))
            else
              let e' := if nonSpace (buf dec) then io_ErrUnexpectedEOF
                        else io_EOF in
              ret (set_err dec (Some e'), (O, Some e'))
          else ret (set_err dec (Some e), (O, Some e))
      | None =>
          match fuel with
          | O => diverge
          | S fuel' =>
              '(dec', e) <- refill dec ;; readValue_loop fuel' dec' s' n' e
          end
      end
  end.

Definition readValue (dec : Decoder) : M St (Decoder * (nat * option error)) :=
  readValue_loop (S (List.length (Reader_body (r dec)))) dec scanner_reset O
    None.

(** [Decoder.Decode(&v)] for a fresh destination [v] whose zero value is
    [zero] and whose decoding is [um]. *)
Definition Decode {A} (zero : A) (um : bytes -> A * option error)
    (dec : Decoder) : M St (Decoder * (A * option error)) :=
  match dec_err dec with
  | Some e => ret (dec, (zero, Some e))
  | None =>
      '(dec, err) <- tokenPrepareForDecode dec ;;
      match err with
      | Some e => ret (dec, (zero, Some e))
      | None =>
          if negb (tokenValueAllowed dec)
          then ret (dec, (zero, Some (json_SyntaxError
                                        "not at beginning of value")))
          else
            '(dec, (n, err)) <- readValue dec ;;
            match err with
            | Some e => ret (dec, (zero, Some e))
            | None =>
                let (v, err) := um (dropSpace (firstn n (buf dec))) in
                ret (tokenValueEnd (set_buf dec (skipn n (buf dec))),
                     (v, err))
            end
      end
  end.

(** [Decoder.tokenError]. *)
Definition tokenError (dec : Decoder) (c : byte) : error :=
  json_InvalidCharacter c
    match tokenState dec with
    | tokenTopValue | tokenArrayStart | tokenArrayValue | tokenObjectValue =>
        "looking for beginning of value"
    | tokenArrayComma => "after array element"
    | tokenObjectKey => "looking for beginning of object key string"
    | tokenObjectColon => "after object key"
    | tokenObjectComma => "after object key:value pair"
    | tokenObjectStart => ""
    end.

Definition noToken : json_Token := TokValue any_nil.

(** Leaving an array or object in [Decoder.Token]: the enclosing state is
    popped.  Go indexes the stack without a check; an empty stack is a
    run-time panic and yields no result here. *)
Definition token_pop (dec : Decoder) (c : byte)
  : M St (Decoder * (json_Token * option error)) :=
  match tokenStack dec with
  | [] => diverge
  | t :: st =>
      ret (tokenValueEnd
             (set_tokenStack (set_tokenState (set_buf dec (tl (buf dec))) t) st),
           (Delim c, None))
  end.

Definition token_push (dec : Decoder) (c : byte) (t : TokenState)
  : M St (Decoder * (json_Token * option error)) :=
  if negb (tokenValueAllowed dec) then ret (dec, (noToken, Some (tokenError dec c)))
  else
    ret (set_tokenState
           (set_tokenStack (set_buf dec (tl (buf dec)))
              (tokenState dec :: tokenStack dec)) t,
         (Delim c, None)).

Definition token_value (dec : Decoder) (c : byte)
  : M St (Decoder * (json_Token * option error)) :=
  if negb (tokenValueAllowed dec) then ret (dec, (noToken, Some (tokenError dec c)))
  else
    '(dec, (x, err)) <- Decode any_nil decode_any dec ;;
    match err with
    | Some e => ret (dec, (noToken, Some e))
    | None => ret (dec, (TokValue x, None))
    end.

(** [Decoder.Token].  The Go loop goes round again only after it has
    consumed a [:] or a [,], which moves the decoder to a state that
    accepts neither; two rounds are all it can make. *)
Fixpoint Token_loop (fuel : nat) (dec : Decoder)
  : M St (Decoder * (json_Token * option error)) :=
  '(dec, (c, err)) <- peek dec ;;
  match err with
  | Some e => ret (dec, (noToken, Some e))
  | None =>
      if (c =? "[")%char then token_push dec c tokenArrayStart
      else if (c =? "]")%char then
        match tokenState dec with
        | tokenArrayStart | tokenArrayComma => token_pop dec c
        | _ => ret (dec, (noToken, Some (tokenError dec c)))
        end
      else if (c =? "{")%char then token_push dec c tokenObjectStart
      else if (c =? "}")%char then
        match tokenState dec with
        | tokenObjectStart | tokenObjectComma => token_pop dec c
        | _ => ret (dec, (noToken, Some (tokenError dec c)))
        end
      else if (c =? ":")%char then
        match tokenState dec with
        | tokenObjectColon =>
            match fuel with
            | O => diverge
            | S fuel' =>
                Token_loop fuel'
                  (set_tokenState (set_buf dec (tl (buf dec))) tokenObjectValue)
            end
        | _ => ret (dec, (noToken, Some (tokenError dec c)))
        end
      else if (c =? ",")%char then
        match tokenState dec with
        | tokenArrayComma =>
            match fuel with
            | O => diverge
            | S fuel' =>
                Token_loop fuel'
                  (set_tokenState (set_buf dec (tl (buf dec))) tokenArrayValue)
            end
        | tokenObjectComma =>
            match fuel with
            | O => diverge
            | S fuel' =>
                Token_loop fuel'
                  (set_tokenState (set_buf dec (tl (buf dec))) tokenObjectStart)
            end
        | _ => ret (dec, (noToken, Some (tokenError dec c)))
        end
      else
        match (c =? "034")%char, tokenState dec with
        | true, tokenObjectStart =>
            '(dec', (x, err)) <-
               Decode EmptyString decode_string
                 (set_tokenState dec tokenTopValue) ;;
            match err with
            | Some e =>
                ret (set_tokenState dec' tokenObjectStart, (noToken, Some e))
            | None =>
                ret (set_tokenState dec' tokenObjectColon, (TokString x, None))
            end
        | _, _ => token_value dec c
        end
  end.

Definition Token (dec : Decoder) : M St (Decoder * (json_Token * option error)) :=
  Token_loop 1 dec.

(** ** client.go: ProcessBulkDataStream *)

(** Bytes not yet consumed: those in the buffer and those the body has
    still to deliver. *)
Definition Body_size (b : Body) : nat :=
  list_sum (map (fun res => List.length (fst res)) b).

Definition pending (dec : Decoder) : nat :=
  List.length (buf dec) + Body_size (Reader_body (r dec)).

Definition is_delim (t : json_Token) (c : byte) : bool :=
  match t with
  | Delim d => (d =? c)%char
  | _ => false
  end.

(** The loop [for dec.More() { ... }].  The result is [Some err] when the
    body executed [return err], [None] when the loop ran to its end.
    Every round that goes on consumes at least one byte of input. *)
Fixpoint cards_loop (fuel : nat) (dec : Decoder) (cardCallback : CardCallback St)
  : M St (Decoder * option error) :=
  '(dec, more) <- More dec ;;
  if more then
    '(dec, (card, err)) <- Decode zeroCard decode_Card dec ;;
    match err with
    | Some e => ret (dec, Some (wrapError "decode card object: " e))
    | None =>
        err <- call_card cardCallback card ;;
        match err with
        | Some e => ret (dec, Some e)
        | None =>
            match fuel with
            | O => diverge
            | S fuel' => cards_loop fuel' dec cardCallback
            end
        end
    end
  else ret (dec, None).

Definition ProcessBulkDataStream (reader : Reader St)
    (cardCallback : CardCallback St) : M St (option error) :=
  let dec := NewDecoder reader in
  '(dec, (t, err)) <- Token dec ;;
  match err with
  | Some e => ret (Some (wrapError "decode opening bracket: " e))
  | None =>
      if negb (is_delim t "[")
      then ret (Some (errorString "expected '[' at start of bulk data"))
      else
        '(dec, early) <- cards_loop (pending dec) dec cardCallback ;;
        match early with
        | Some e => ret (Some e)
        | None =>
            '(dec, (t, err)) <- Token dec ;;
            match err with
            | Some e => ret (Some (wrapError "decode closing bracket: " e))
            | None =>
                if negb (is_delim t "]")
                then ret (Some (errorString
                                  "expected ']' at end of bulk data"))
                else ret None
            end
        end
  end.
End Decoder.

(** ** io.ReadAll and io.Copy *)

(** [io.ReadAll] on a response body: everything up to the first error; an
    [io.EOF] is the normal end and is not reported. *)
Fixpoint io_ReadAll (b : Body) : bytes * option error :=
  match b with
  | [] => ([], None)
  | (chunk, None) :: b' =>
      let (rest, e) := io_ReadAll b' in (chunk ++ rest, e)
  | (chunk, Some e) :: _ => (chunk, if is_EOF e then None else Some e)
  end.

(** ** net/http, net/url, os: what the client asks of its platform *)

Inductive Context := ctx_Background | ctx_With (id : nat).

Record Request := {
  Method : string;
  Request_URL : string;
  Header : list (string * string);
  Request_ctx : Context
}.

Record Response := {
  Response_StatusCode : Z;
  ContentLength : Z;
  Response_Body : Body
}.

Class Platform := {
  URL : Type;
  url_Parse : string -> URL * option error;
  ResolveReference : URL -> URL -> URL;
  URL_String : URL -> string;
  (** the error of [http.NewRequestWithContext], if any *)
  http_NewRequestWithContext : Context -> string -> string -> option error;
  strconv_Quote : string -> string;
  filepath_Clean : string -> string;
  os_Create : string -> option error;
  (** the error of writing the given bytes to the file just created *)
  File_Write : string -> bytes -> option error
}.

Definition Header_Set (h : list (string * string)) (k v : string)
  : list (string * string) :=
  (k, v) :: filter (fun kv => negb (fst kv =? k)%string) h.

Section ClientOps.
Variable St : Type.
Context {codec : JSONCodec} {platform : Platform}.

(** [Client] of client.go.  The HTTP client and the limiter are held by
    what they answer: the response (or transport error) to a request, and
    the error of [Wait], if any. *)
Record Client := {
  httpClient : Request -> Response * option error;
  baseURL : URL;
  limiter : Context -> option error;
  userAgent : string
}.

Definition zeroResponse : Response :=
  {| Response_StatusCode := 0; ContentLength := 0; Response_Body := [] |}.

Definition ctx_or_Background (ctx : option Context) : Context :=
  match ctx with
  | None => ctx_Background
  | Some c => c
  end.

(** The request every operation builds: a GET with the two fixed
    headers. *)
Definition newGet (c : Client) (ctx : Context) (url : string) : Request :=
  {| Method := "GET"; Request_URL := url;
     Header := Header_Set (Header_Set [] "Accept" "application/json")
                 "User-Agent" (userAgent c);
     Request_ctx := ctx |}.

(** [decodeAPIError]. *)
Definition decodeAPIError (r : Body) : option APIError * option error :=
  let (body, err) := io_ReadAll r in
  match err with
  | Some e => (None, Some e)
  | None =>
      match body with
      | [] => (Some zeroAPIError, None)
      | _ =>
          let (apiErr, err) := json_Unmarshal zeroAPIError decode_APIError body in
          match err with
          | Some e => (None, Some e)
          | None => (Some apiErr, None)
          end
      end
  end.

Definition set_StatusCode (e : APIError) (code : Z) : APIError :=
  {| StatusCode := code; Details := Details e;
     APIError_Type := APIError_Type e; Warnings := Warnings e |}.

(** [Client.get], for a destination whose zero value is [zero] and whose
    decoding is [um]; the result is the destination after the call. *)
Definition get {A} (c : Client) (ctx : option Context) (path : string)
    (zero : A) (um : bytes -> A * option error) : M St (A * option error) :=
  let ctx := ctx_or_Background ctx in
  emit EvLimiterWait ;;;
  match limiter c ctx with
  | Some e => ret (zero, Some (wrapError "wait for rate limiter: " e))
  | None =>
      let (rel, err) := url_Parse path in
      match err with
      | Some e =>
          ret (zero, Some (wrapError
                             ("invalid path " ++ strconv_Quote path ++ ": ") e))
      | None =>
          let fullURL := ResolveReference (baseURL c) rel in
          match http_NewRequestWithContext ctx "GET" (URL_String fullURL) with
          | Some e => ret (zero, Some (wrapError "create request: " e))
          | None =>
              let req := newGet c ctx (URL_String fullURL) in
              emit (EvLog "debug" "scryfall api request") ;;;
              emit (EvHTTPDo (URL_String fullURL)) ;;;
              let (resp, err) := httpClient c req in
              match err with
              | Some e => ret (zero, Some (wrapError "perform request: " e))
              | None =>
                  res <-
                    (if (Response_StatusCode resp >=? 400)%Z then
                       let (apiErr, readErr) :=
                         decodeAPIError (Response_Body resp) in
                       match readErr, apiErr with
                       | Some e, _ =>
                           ret (zero,
                                Some (wrapError
                                        ("scryfall error status "
                                         ++ itoa (Response_StatusCode resp)
                                         ++ ": ") e))
                       | None, Some apiErr =>
                           ret (zero,
                                Some (APIError_ptr
                                        (set_StatusCode apiErr
                                           (Response_StatusCode resp))))
                       | None, None => diverge
                       end
                     else
                       let (body, err) := io_ReadAll (Response_Body resp) in
                       match err with
                       | Some e =>
                           ret (zero, Some (wrapError "read response body: " e))
                       | None =>
                           let (v, err) := json_Unmarshal zero um body in
                           match err with
                           | Some e =>
                               ret (v, Some (wrapError "decode response: " e))
                           | None => ret (v, None)
                           end
                       end) ;;
                  emit EvBodyClose ;;;
                  ret res
              end
          end
      end
  end%string.

(** [Client.GetCardByID]. *)
Definition GetCardByID (c : Client) (ctx : option Context) (id : string)
  : M St (option Card * option error) :=
  if (id =? "")%string then ret (None, Some (errorString "card id is required"))
  else
    let endpoint := ("/cards/" ++ id)%string in
    '(card, err) <- get c ctx endpoint zeroCard decode_Card ;;
    match err with
    | Some e => ret (None, Some e)
    | None => ret (Some card, None)
    end.

(** [Client.ListBulkData]; a nil slice is the empty list. *)
Definition ListBulkData (c : Client) (ctx : option Context)
  : M St (list CardBulkData * option error) :=
  '(data, err) <- get c ctx "/bulk-data" [] decode_BulkDataList ;;
  match err with
  | Some e => ret ([], Some e)
  | None => ret (data, None)
  end.

(** [Client.ListSets]. *)
Definition ListSets (c : Client) (ctx : option Context)
  : M St (list CardSet * option error) :=
  '(data, err) <- get c ctx "/sets" [] decode_SetList ;;
  match err with
  | Some e => ret ([], Some e)
  | None => ret (data, None)
  end.

Definition zeroCardBulkData : CardBulkData :=
  {| CardBulkData_ID := ""; CardBulkData_Type := "";
     CardBulkData_UpdatedAt := ""; CardBulkData_URI := "";
     CardBulkData_Name := ""; CardBulkData_Description := "";
     CardBulkData_DownloadURI := ""; CardBulkData_ContentType := "";
     CardBulkData_ContentEncoding := ""; CardBulkData_CompressedSize := 0;
     CardBulkData_PermalinkURI := "" |}.

(** [Client.GetBulkDataByType]. *)
Definition GetBulkDataByType (c : Client) (ctx : option Context)
    (bulkType : string) : M St (option CardBulkData * option error) :=
  if (bulkType =? "")%string
  then ret (None, Some (errorString "bulk type is required"))
  else
    let path := ("/bulk-data/" ++ bulkType)%string in
    '(bulkData, err) <- get c ctx path zeroCardBulkData decode_CardBulkData ;;
    match err with
    | Some e => ret (None, Some e)
    | None => ret (Some bulkData, None)
    end.

(** The reader both download operations build over the response body. *)
Definition wrapBody (resp : Response) (progressFn : option (ProgressFunc St))
  : Reader St :=
  match progressFn with
  | Some f =>
      progressReader_ptr
        {| ReadCloser := Response_Body resp; Total := ContentLength resp;
           Current := 0; OnRead := Some f |}
  | None => bodyReader (Response_Body resp)
  end.

(** [Client.DownloadBulkDataStream]. *)
Definition DownloadBulkDataStream (c : Client) (ctx : option Context)
    (downloadURI : string) (cardCallback : CardCallback St)
    (progressFn : option (ProgressFunc St)) : M St (option error) :=
  if (downloadURI =? "")%string
  then ret (Some (errorString "download URI is required"))
  else
    let ctx := ctx_or_Background ctx in
    emit (EvLog "info" "downloading bulk data (streaming)") ;;;
    match http_NewRequestWithContext ctx "GET" downloadURI with
    | Some e => ret (Some (wrapError "create request: " e))
    | None =>
        let req := newGet c ctx downloadURI in
        emit (EvHTTPDo downloadURI) ;;;
        let (resp, err) := httpClient c req in
        match err with
        | Some e => ret (Some (wrapError "perform request: " e))
        | None =>
            res <-
              (if (Response_StatusCode resp >=? 400)%Z
               then ret (Some (errorString
                                 ("download failed with status "
                                  ++ itoa (Response_StatusCode resp))))
               else ProcessBulkDataStream (wrapBody resp progressFn)
                      cardCallback) ;;
            emit EvBodyClose ;;;
            ret res
        end
    end%string.

(** [io.Copy(out, reader)] into the file at [path]: read until an error,
    writing what each read delivered. *)
Fixpoint io_Copy (fuel : nat) (path : string) (rd : Reader St)
  : M St (option error) :=
  '(rd, (chunk, er)) <- Reader_Read rd ;;
  ew <- match chunk with
        | [] => ret None
        | _ => emit (EvFileWrite chunk) ;;; ret (File_Write path chunk)
        end ;;
  match ew with
  | Some e => ret (Some e)
  | None =>
      match er with
      | Some e => ret (if is_EOF e then None else Some e)
      | None =>
          match fuel with
          | O => diverge
          | S fuel' => io_Copy fuel' path rd
          end
      end
  end.

(** [Client.DownloadToFile]. *)
Definition DownloadToFile (c : Client) (ctx : option Context)
    (downloadURI filePath : string) (progress : option (ProgressFunc St))
  : M St (option error) :=
  if (downloadURI =? "")%string
  then ret (Some (errorString "download URI is required"))
  else
    let ctx := ctx_or_Background ctx in
    match http_NewRequestWithContext ctx "GET" downloadURI with
    | Some e => ret (Some (wrapError "create request: " e))
    | None =>
        let req := newGet c ctx downloadURI in
        emit (EvHTTPDo downloadURI) ;;;
        let (resp, err) := httpClient c req in
        match err with
        | Some e => ret (Some (wrapError "perform request: " e))
        | None =>
            res <-
              (if (Response_StatusCode resp >=? 400)%Z
               then ret (Some (errorString
                                 ("download failed with status "
                                  ++ itoa (Response_StatusCode resp))))
               else
                 let path := filepath_Clean filePath in
                 emit (EvFileCreate path) ;;;
                 match os_Create path with
                 | Some e => ret (Some (wrapError "create file: " e))
                 | None =>
                     let reader := wrapBody resp progress in
                     err <- io_Copy (List.length (Response_Body resp)) path
                              reader ;;
                     emit EvFileClose ;;;
                     match err with
                     | Some e => ret (Some (wrapError "copy to file: " e))
                     | None => ret None
                     end
                 end) ;;
            emit EvBodyClose ;;;
            ret res
        end
    end%string.
End ClientOps.

(** [Client.DownloadBulkData].  The callback closes over the local slice
    [cards]; that slice is the state of the streaming call, which starts
    from nil. *)
Definition appendCard : CardCallback (list Card) :=
  fun card cards => (cards ++ [card], None).

Definition DownloadBulkData {St} {codec : JSONCodec} {platform : Platform}
    (c : Client) (ctx : option Context) (downloadURI : string)
  : M St (list Card * option error) :=
  fun s =>
    match DownloadBulkDataStream c ctx downloadURI appendCard None [] with
    | None => None
    | Some (evs, cards, err) => Some (evs, s, (cards, err))
    end.

(** ** client.go: the options and [NewClient] *)

Definition defaultBaseURL : string := "https://api.scryfall.com".
Definition defaultUserAgent : string := "repricah-scryfall/0.1".
(** [15 * time.Second], in nanoseconds. *)
Definition defaultTimeout : Z := 15 * 1000000000.
Definition defaultRequestsPerSecond : Z := 10.

Section ClientConstruction.
Variable St : Type.
Context {platform : Platform}.

(** The logger type of [charmbracelet/log], the HTTP client with a given
    timeout, the limiter with a given rate and burst, and the logger with
    a given prefix. *)
Variable Logger : Type.
Variable http_Client : Z -> Request -> Response * option error.
Variable rate_NewLimiter : Z -> Z -> Context -> option error.
Variable log_WithPrefix : string -> Logger.

(** [Client] with its fifth field.  The four fields that a request reads
    are the record [Client] above; the logger is kept beside them. *)
Record Client_struct := {
  fields : Client;
  logger : Logger
}.

(** [Option]: a function that updates the client it is given. *)
Definition Option := Client_struct -> M St Client_struct.

Definition set_httpClient (c : Client_struct)
    (h : Request -> Response * option error) : Client_struct :=
  {| fields := {| httpClient := h; baseURL := baseURL (fields c);
                  limiter := limiter (fields c);
                  userAgent := userAgent (fields c) |};
     logger := logger c |}.

Definition set_baseURL (c : Client_struct) (u : URL) : Client_struct :=
  {| fields := {| httpClient := httpClient (fields c); baseURL := u;
                  limiter := limiter (fields c);
                  userAgent := userAgent (fields c) |};
     logger := logger c |}.

Definition set_limiter (c : Client_struct) (l : Context -> option error)
  : Client_struct :=
  {| fields := {| httpClient := httpClient (fields c);
                  baseURL := baseURL (fields c); limiter := l;
                  userAgent := userAgent (fields c) |};
     logger := logger c |}.

Definition set_userAgent (c : Client_struct) (ua : string) : Client_struct :=
  {| fields := {| httpClient := httpClient (fields c);
                  baseURL := baseURL (fields c);
                  limiter := limiter (fields c); userAgent := ua |};
     logger := logger c |}.

Definition set_logger (c : Client_struct) (lg : Logger) : Client_struct :=
  {| fields := fields c; logger := lg |}.

(** [WithHTTPClient]; [None] is the nil pointer. *)
Definition WithHTTPClient
    (httpClient : option (Request -> Response * option error)) : Option :=
  fun c =>
    match httpClient with
    | Some h => ret (set_httpClient c h)
    | None => ret c
    end.

(** [WithBaseURL]. *)
Definition WithBaseURL (rawURL : string) : Option :=
  fun c =>
    if (rawURL =? "")%string then ret c
    else
      let (parsed, err) := url_Parse rawURL in
      match err with
      | Some e =>
          emit (EvLog "warn" "invalid scryfall base url supplied") ;;; ret c
      | None => ret (set_baseURL c parsed)
      end.

(** [WithLimiter]. *)
Definition WithLimiter (limiter : option (Context -> option error)) : Option :=
  fun c =>
    match limiter with
    | Some l => ret (set_limiter c l)
    | None => ret c
    end.

(** [WithUserAgent]. *)
Definition WithUserAgent (ua : string) : Option :=
  fun c => if negb (ua =? "")%string then ret (set_userAgent c ua) else ret c.

(** [WithLogger]. *)
Definition WithLogger (logger : option Logger) : Option :=
  fun c =>
    match logger with
    | Some lg => ret (set_logger c lg)
    | None => ret c
    end.

(** The loop [for _, opt := range opts { opt(c) }]. *)
Fixpoint apply_options (opts : list Option) (c : Client_struct)
  : M St Client_struct :=
  match opts with
  | [] => ret c
  | opt :: opts' => c' <- opt c ;; apply_options opts' c'
  end.

(** [NewClient]. *)
Definition NewClient (opts : list Option) : M St Client_struct :=
  let (base, _) := url_Parse defaultBaseURL in
  let c := {| fields := {| httpClient := http_Client defaultTimeout;
                           baseURL := base;
                           limiter := rate_NewLimiter defaultRequestsPerSecond
                                        defaultRequestsPerSecond;
                           userAgent := defaultUserAgent |};
              logger := log_WithPrefix "scryfall" |} in
  apply_options opts c.

End ClientConstruction.

(** ** interface.go and the service of the package example *)

Section Service.
Variable St : Type.
Context {codec : JSONCodec} {platform : Platform}.

(** [ClientAPI]: the methods of the client that services use. *)
Record ClientAPI := {
  api_GetCardByID :
    option Context -> string -> M St (option Card * option error);
  api_ListBulkData : option Context -> M St (list CardBulkData * option error);
  api_ListSets : option Context -> M St (list CardSet * option error);
  api_GetBulkDataByType :
    option Context -> string -> M St (option CardBulkData * option error);
  api_DownloadBulkDataStream :
    option Context -> string -> CardCallback St -> option (ProgressFunc St) ->
    M St (option error);
  api_DownloadBulkData :
    option Context -> string -> M St (list Card * option error)
}.

(** The pointer type of [Client] implements the interface. *)
Definition Client_API (c : Client) : ClientAPI :=
  {| api_GetCardByID := GetCardByID c;
     api_ListBulkData := ListBulkData c;
     api_ListSets := ListSets c;
     api_GetBulkDataByType := GetBulkDataByType c;
     api_DownloadBulkDataStream := DownloadBulkDataStream c;
     api_DownloadBulkData := DownloadBulkData c |}.

(** [fakeClient] of the example: it answers with the card it holds. *)
Definition fakeClient (card : option Card) : ClientAPI :=
  {| api_GetCardByID := fun _ _ => ret (card, None);
     api_ListBulkData := fun _ => ret ([], None);
     api_ListSets := fun _ => ret ([], None);
     api_GetBulkDataByType := fun _ _ => ret (None, None);
     api_DownloadBulkDataStream := fun _ _ _ _ => ret None;
     api_DownloadBulkData := fun _ _ => ret ([], None) |}.

(** [CardLookupService] and [NewCardLookupService]. *)
Record CardLookupService := { client : ClientAPI }.

Definition NewCardLookupService (client : ClientAPI) : CardLookupService :=
  {| client := client |}.

(** [CardLookupService.CardName].  [card.Name] on a nil card is a nil
    dereference, a run-time panic: no result here. *)
Definition CardName (s : CardLookupService) (ctx : option Context)
    (id : string) : M St (string * option error) :=
  '(card, err) <- api_GetCardByID (client s) ctx id ;;
  match err with
  | Some e => ret (EmptyString, Some e)
  | None =>
      match card with
      | Some card => ret (Card_Name card, None)
      | None => diverge
      end
  end.

End Service.

(** * Part II: the vocabulary of the statements

    What the statements below say about a run: which callbacks were called,
    what a well-formed stream looks like, what the decoder leaves alone. *)

Section Vocabulary.
Variable St : Type.
Context {codec : JSONCodec}.

Definition card_calls (evs : list Event) : list (Card * option error) :=
  flat_map (fun ev => match ev with EvCard c r => [(c, r)] | _ => [] end) evs.

Definition progress_calls (evs : list Event) : list (Z * Z) :=
  flat_map (fun ev => match ev with EvProgress c t => [(c, t)] | _ => [] end) evs.

(** No record was handed to the card callback. *)
Definition quiet (evs : list Event) : Prop := card_calls evs = [].

Definition scan_shift (k : nat) (res : scanResult) : scanResult :=
  match res with
  | ScanEnded n => ScanEnded (n + k)
  | ScanFailed e => ScanFailed e
  | ScanMore s n => ScanMore s (n + k)
  end.

(** The text of one record: it opens with a brace and the scanner, started
    afresh, finds the end of the value at its last byte, not before and
    not later: the text is one JSON object, nested no deeper than the
    scanner allows. *)
Definition record_text (v : bytes) : bool :=
  match v with
  | c :: _ =>
      (c =? "{")%char &&
      match scan_buf scanner_reset 0 v with
      | ScanEnded n => (n =? List.length v)%nat
      | _ => false
      end
  | [] => false
  end.

(** ** The text of an array of records

    An element of the array as it stands in the stream: the white space in
    front of it ([lead] before the separating comma, [pre] after it; the
    first element has no comma and both run together) and the text of the
    value. *)
Record item := { lead : bytes; pre : bytes; val : bytes }.

Definition blank (ws : bytes) : bool := forallb isSpace ws.

Definition item_ok (it : item) : bool :=
  blank (lead it) && blank (pre it) && record_text (val it).

Fixpoint items_text (first : bool) (its : list item) : bytes :=
  match its with
  | [] => []
  | it :: its' =>
      lead it ++ (if first then [] else [","%char]) ++ pre it ++ val it
      ++ items_text false its'
  end.

Definition prepend {St A} (evs : list Event)
    (x : option (list Event * St * A)) : option (list Event * St * A) :=
  match x with
  | None => None
  | Some (e, s, a) => Some (evs ++ e, s, a)
  end.

Definition clean (chunks : list bytes) : Body := map (fun c => (c, None)) chunks.

Definition script (dec : Decoder St) : Body := Reader_body (r dec).

(** The decoder sees the bytes [B]: part of them in its buffer, the rest
    in reads still to come that deliver them without error, whatever the
    body does after that ([rest]). *)
Definition Views (dec : Decoder St) (B : bytes) (rest : Body) : Prop :=
  exists chunks, script dec = clean chunks ++ rest /\ buf dec ++ concat chunks = B.

Definition same_tok (dec dec' : Decoder St) : Prop :=
  tokenState dec' = tokenState dec /\ tokenStack dec' = tokenStack dec
  /\ dec_err dec' = dec_err dec.

(** [readValue] on a decoder that views bytes in which the scanner finds
    the end of a value, or an error. *)
Definition readValue_result (res : scanResult) : nat * option error :=
  match res with
  | ScanEnded m => (m, None)
  | ScanFailed e => (O, e)
  | ScanMore _ _ => (O, None)
  end.

Definition decided (res : scanResult) : Prop :=
  match res with ScanMore _ _ => False | _ => True end.

(** [Decode] of the next array element: the first one ([lead] empty,
    state [tokenArrayStart]) or a later one ([lead] holds the comma). *)
Definition elem_lead (first : bool) (ws : bytes) : bytes :=
  if first then [] else ws ++ [","%char].

Definition elem_state (first : bool) : TokenState :=
  if first then tokenArrayStart else tokenArrayComma.

Definition card_of (it : item) : Card := fst (decode_Card (val it)).

Definition accepted (its : list item) : list (Card * option error) :=
  map (fun it => (card_of it, None)) its.


Definition well_formed (its : list item) : Prop :=
  Forall (fun it => item_ok it = true /\ snd (decode_Card (val it)) = None) its.

(** How the reads end after the bytes viewed: the body is used up
    ([io.EOF]), or a read reports an error and delivers nothing but
    white space with it. *)
Definition ends_with (rest : Body) (e : error) : Prop :=
  (rest = [] /\ e = io_EOF)
  \/ (exists ch rest', rest = (ch, Some e) :: rest' /\ blank ch = true).

(** A byte at which [More] reports another element. *)
Definition more_byte (c : byte) : bool :=
  negb (isSpace c) && negb (c =? "]")%char && negb (c =? "}")%char.

(** The stream after [its]: an element the scanner rejects with [e], where
    the next element would stand. *)
Definition bad_tail (first : bool) (ld pr bad : bytes) : bytes :=
  ld ++ (if first then [] else [","%char]) ++ pr ++ bad.





Definition err_sound (s : scanner) : Prop := step s = fnError -> err s <> None.

Definition silent (rd : Reader St) : Prop :=
  match rd with
  | bodyReader _ => True
  | progressReader_ptr pr => OnRead pr = None
  end.

(** The effects of a step that only reads. *)
Definition eff (rd : Reader St) (s : St) (evs : list Event) (s' : St)
    (rd' : Reader St) : Prop :=
  quiet evs /\ (silent rd -> s' = s /\ evs = [] /\ silent rd').

Definition state_after_prepare (t : TokenState) : TokenState :=
  match t with
  | tokenArrayComma => tokenArrayValue
  | tokenObjectColon => tokenObjectValue
  | t => t
  end.

Definition state_after_Decode (t : TokenState) : TokenState :=
  match t with
  | tokenArrayStart | tokenArrayValue | tokenArrayComma => tokenArrayComma
  | tokenObjectValue | tokenObjectColon => tokenObjectComma
  | t => t
  end.

Definition stack_ok (dec : Decoder St) : Prop :=
  match tokenState dec with
  | tokenArrayStart | tokenArrayComma | tokenObjectStart | tokenObjectComma =>
      tokenStack dec <> []
  | _ => True
  end.

Definition needs_round (t : TokenState) : bool :=
  match t with
  | tokenObjectColon | tokenArrayComma | tokenObjectComma => true
  | _ => false
  end.

(** What the callers of [Token] rely on: it returns, it only reads, and
    an opening bracket leaves the decoder inside an array. *)
Definition tok_ok (dec : Decoder St) (s : St)
    (x : option (list Event * St * (Decoder St * (json_Token * option error))))
  : Prop :=
  exists evs s' dec' t e,
    x = Some (evs, s', (dec', (t, e)))
    /\ eff (r dec) s evs s' (r dec')
    /\ (pending dec' <= pending dec)%nat
    /\ (e = None -> is_delim t "[" = true ->
        tokenState dec' = tokenArrayStart /\ tokenStack dec' <> []).

Definition array_state (dec : Decoder St) : Prop :=
  tokenState dec = tokenArrayStart \/ tokenState dec = tokenArrayComma.

(** The state the card callback leaves behind after the given calls. *)
Definition replay (cb : CardCallback St) (calls : list (Card * option error))
    (s : St) : St :=
  fold_left (fun st call => fst (cb (fst call) st)) calls s.

Definition all_accepted (calls : list (Card * option error)) : Prop :=
  Forall (fun call => snd call = None) calls.

(** The calls made by the loop and the way it ended: either every call
    was accepted and the loop ran out of elements or met one it could not
    decode, or the last call returned the error the loop ended with. *)
Definition loop_trace (calls : list (Card * option error))
    (early : option error) : Prop :=
  (all_accepted calls
   /\ (early = None
       \/ exists e, early = Some (wrapError "decode card object: " e)))
  \/ (exists l c e,
        calls = l ++ [(c, Some e)] /\ all_accepted l /\ early = Some e).

(** The errors by which [ProcessBulkDataStream] reports a payload that is
    not a JSON array of records. *)
Inductive MalformedPayload : error -> Prop :=
| mp_open_token e : MalformedPayload (wrapError "decode opening bracket: " e)
| mp_open : MalformedPayload (errorString "expected '[' at start of bulk data")
| mp_card e : MalformedPayload (wrapError "decode card object: " e)
| mp_close_token e : MalformedPayload (wrapError "decode closing bracket: " e)
| mp_close : MalformedPayload (errorString "expected ']' at end of bulk data").

Definition run_trace (calls : list (Card * option error))
    (res : option error) : Prop :=
  (all_accepted calls
   /\ (res = None \/ exists e, res = Some e /\ MalformedPayload e))
  \/ (exists l c e,
        calls = l ++ [(c, Some e)] /\ all_accepted l /\ res = Some e).

End Vocabulary.

(** ** Reading through a [progressReader] *)

Section ProgressVocabulary.
Variable St : Type.

(** [n] successive calls of [Read], and what they returned. *)
Fixpoint read_times (n : nat) (r : progressReader St)
  : M St (progressReader St * list ReadResult) :=
  match n with
  | O => ret (r, [])
  | S n' =>
      '(r1, res) <- progressReader_Read r ;;
      '(r2, rs) <- read_times n' r1 ;;
      ret (r2, res :: rs)
  end.

End ProgressVocabulary.

(** What [n] successive reads of a body return. *)
Fixpoint Body_reads (n : nat) (b : Body) : list ReadResult :=
  match n with
  | O => []
  | S n' => fst (Body_Read b) :: Body_reads n' (snd (Body_Read b))
  end.

Definition read_sizes (results : list ReadResult) : list nat :=
  map (fun res => List.length (fst res)) results.

(** The running totals of a sequence of read sizes, from [cur]. *)
Fixpoint running (cur : Z) (sizes : list nat) : list Z :=
  match sizes with
  | [] => []
  | k :: l => (cur + Z.of_nat k)%Z :: running (cur + Z.of_nat k) l
  end.

(** Every call in the list is a call the callback answered that way, in
    some state. *)
Definition genuine {St} (cb : CardCallback St)
    (calls : list (Card * option error)) : Prop :=
  Forall (fun call => exists st, snd (cb (fst call) st) = snd call) calls.

(** ** The server's answer to a request

    The request of [get] for [path] goes through (the limiter lets it pass,
    the path parses, the request is built) and the transport answers it
    with [resp]. *)
Definition get_url {platform : Platform} (c : Client) (path : string) : string :=
  URL_String (ResolveReference (baseURL c) (fst (url_Parse path))).

Definition get_answers {platform : Platform} (c : Client)
    (ctx : option Context) (path : string) (resp : Response) : Prop :=
  limiter c (ctx_or_Background ctx) = None
  /\ snd (url_Parse path) = None
  /\ http_NewRequestWithContext (ctx_or_Background ctx) "GET" (get_url c path)
     = None
  /\ httpClient c (newGet c (ctx_or_Background ctx) (get_url c path))
     = (resp, None).

(** The same for the request of the two download operations. *)
Definition download_answers {platform : Platform} (c : Client)
    (ctx : option Context) (downloadURI : string) (resp : Response) : Prop :=
  http_NewRequestWithContext (ctx_or_Background ctx) "GET" downloadURI = None
  /\ httpClient c (newGet c (ctx_or_Background ctx) downloadURI) = (resp, None).

(** The failure the specification gives for a response with a status of
    400 or more: the body decoded as an API error with the status code
    attached, or, where the body cannot be read or decoded, that failure
    wrapped with the status code. *)
Definition status_failure {codec : JSONCodec} (resp : Response) : option error :=
  match decodeAPIError (Response_Body resp) with
  | (_, Some de) =>
      Some (wrapError ("scryfall error status "
                       ++ itoa (Response_StatusCode resp) ++ ": ") de)
  | (Some apiErr, None) =>
      Some (APIError_ptr (set_StatusCode apiErr (Response_StatusCode resp)))
  | (None, None) => None
  end.

(** The events of a call of [get] that reaches the server. *)
Definition get_events {platform : Platform} (c : Client) (path : string)
  : list Event :=
  [EvLimiterWait; EvLog "debug" "scryfall api request";
   EvHTTPDo (get_url c path); EvBodyClose].

(** ** A sample codec, platform and streams for the examples

    The stand-in for the decoding of values reads the string fields it
    needs from the text of a flat object. *)

Definition dquote : byte := "034".

(** JSON text written with apostrophes for the double quotes. *)
Definition json_bytes (s : string) : bytes :=
  map (fun c => if (c =? "'")%char then dquote else c) (bytes_of s).

Definition string_of (b : bytes) : string := string_of_list_ascii b.

Fixpoint strip_prefix (p b : bytes) : option bytes :=
  match p, b with
  | [], _ => Some b
  | x :: p', y :: b' => if (x =? y)%char then strip_prefix p' b' else None
  | _ :: _, [] => None
  end.

Fixpoint find_after (p b : bytes) : option bytes :=
  match strip_prefix p b with
  | Some rest => Some rest
  | None =>
      match b with
      | [] => None
      | _ :: b' => find_after p b'
      end
  end.

Fixpoint until_quote (b : bytes) : bytes :=
  match b with
  | [] => []
  | c :: b' => if (c =? dquote)%char then [] else c :: until_quote b'
  end.

Definition string_field (name : string) (b : bytes) : string :=
  match find_after (dquote :: bytes_of name ++ [dquote; ":"%char; dquote]) b with
  | Some rest => string_of (until_quote rest)
  | None => EmptyString
  end.

Definition sample_card (id name : string) : Card :=
  {| Card_ID := id; Card_OracleID := ""; Card_Name := name; Card_Lang := "";
     Card_ReleasedAt := ""; Card_Set := ""; Card_CollectorNumber := "";
     Card_Rarity := ""; Card_Layout := ""; Card_ManaCost := "";
     Card_TypeLine := ""; Card_OracleText := ""; Card_Power := "";
     Card_Toughness := ""; Card_Loyalty := ""; Card_CMC := PrimFloat.zero;
     Card_Keywords := []; Card_Prices := zeroPrices; Card_ImageURIs := [];
     Card_CardFaces := []; Card_TcgplayerID := 0; Card_CardmarketID := 0;
     Card_Uri := ""; Card_ScryfallURI := ""; Card_RulingsURI := "";
     Card_PrintsSearchURI := ""; Card_Digital := false; Card_Reserved := false;
     Card_EDHRecRank := 0; Card_PennyRank := 0; Card_Games := [];
     Card_Promo := false; Card_Reprint := false; Card_Variation := false;
     Card_Oversized := false; Card_StorySpotlight := false;
     Card_FullArt := false; Card_Textless := false; Card_Booster := false;
     Card_FrameEffects := []; Card_Frame := ""; Card_SecurityStamp := "";
     Card_BorderColor := ""; Card_Watermark := "" |}.

Definition sample_codec : JSONCodec :=
  {| decode_any := fun b => (any_string (string_of b), None);
     decode_string := fun b => (string_of b, None);
     decode_Card := fun b =>
       (sample_card (string_field "id" b) (string_field "name" b), None);
     decode_APIError := fun b =>
       ({| StatusCode := 0; Details := string_field "details" b;
           APIError_Type := string_field "type" b; Warnings := [] |}, None);
     decode_CardBulkData := fun b =>
       ({| CardBulkData_ID := string_field "id" b;
           CardBulkData_Type := string_field "type" b;
           CardBulkData_UpdatedAt := ""; CardBulkData_URI := "";
           CardBulkData_Name := ""; CardBulkData_Description := "";
           CardBulkData_DownloadURI := string_field "download_uri" b;
           CardBulkData_ContentType := "";
           CardBulkData_ContentEncoding := "";
           CardBulkData_CompressedSize := 0;
           CardBulkData_PermalinkURI := "" |}, None);
     decode_BulkDataList := fun _ => ([], None);
     decode_SetList := fun _ => ([], None) |}.

Definition sample_platform : Platform :=
  {| URL := string;
     url_Parse := fun p => (p, None);
     ResolveReference := fun base rel => (base ++ rel)%string;
     URL_String := fun u => u;
     http_NewRequestWithContext := fun _ _ _ => None;
     strconv_Quote := fun s => s;
     filepath_Clean := fun p => p;
     os_Create := fun _ => None;
     File_Write := fun _ _ => None |}.

(** A client whose server answers every request with [resp]. *)
Definition sample_client (resp : Response) : @Client sample_platform :=
  {| httpClient := fun _ => (resp, None);
     baseURL := "https://api.scryfall.com"%string : @URL sample_platform;
     limiter := fun _ => None;
     userAgent := "repricah-scryfall/0.1" |}.

(** A callback that counts the records it is given, and one that refuses
    the second. *)
Definition count_cb : CardCallback nat := fun _ n => (S n, None).

Definition refuse_second : CardCallback nat :=
  fun _ n =>
    (S n, match n with
          | 1%nat => Some (foreignError "stop")
          | _ => None
          end).

Definition count_progress : ProgressFunc nat := fun _ _ n => S n.

(** Two records, delivered in two reads that cut the second one in half. *)
Definition two_cards_chunks : list bytes :=
  [json_bytes " [{'id':'card-1','name':'Test Card 1'} , {'id':'ca";
   json_bytes "rd-2','name':'Test Card 2'} ]"].


(** Three records in two reads. *)
Definition three_cards_chunks : list bytes :=
  [json_bytes "[{'id':'c1'},{'id':'c2'},"; json_bytes "{'id':'c3'}]"].

(** One record, then an object with a key and no value. *)
Definition invalid_second_chunks : list bytes :=
  [json_bytes "[{'id':'card-1'} ,"; json_bytes " {'id':}]"].

Definition one_card_items : list item :=
  [{| lead := []; pre := []; val := json_bytes "{'id':'card-1'}" |}].

(** The ids of the cards handed to the callback, with its answers. *)
Definition call_ids (evs : list Event) : list (string * option error) :=
  map (fun call => (Card_ID (fst call), snd call)) (card_calls evs).

(** A progress callback that counts its calls, over a body that delivers
    two bytes, three bytes and then the end of the stream. *)
Definition sample_progressReader : progressReader nat :=
  {| ReadCloser := [(bytes_of "ab", None); (bytes_of "cde", None);
                    ([], Some io_EOF)];
     Total := 5; Current := 0; OnRead := Some count_progress |}.

(** A response with the given status whose body arrives in the given
    reads. *)
Definition sample_response (status : Z) (body : list bytes) : Response :=
  {| Response_StatusCode := status;
     ContentLength := Z.of_nat (List.length (concat body));
     Response_Body := clean body |}.

(** The error response of the repository's test. *)
Definition rate_limited : Response :=
  sample_response 429 [json_bytes "{'details':'slow down','type':'rate_limited'}"].

Definition bulk_uri : string := "https://data.scryfall.io/all-cards.json".

(** The error [readValue] reports when the reads fail with [e] in the
    middle of a value, the buffer holding [X]: [io.EOF] becomes
    [io.ErrUnexpectedEOF] unless the buffer is all white space. *)
Definition cut_error (e : error) (X : bytes) : error :=
  if is_EOF e
  then (if nonSpace X then io_ErrUnexpectedEOF else io_EOF)
  else e.

(** A stand-in for the decoding of values that asks for the [id] of a
    card to be a string. *)
Definition strict_decode_Card (b : bytes) : Card * option error :=
  match find_after (dquote :: bytes_of "id" ++ [dquote; ":"%char; dquote]) b with
  | Some _ => (sample_card (string_field "id" b) (string_field "name" b), None)
  | None =>
      (zeroCard,
       Some (foreignError
               "json: cannot unmarshal number into Go struct field Card.id of type string"))
  end.

Definition strict_codec : JSONCodec :=
  {| decode_any := decode_any (JSONCodec := sample_codec);
     decode_string := decode_string (JSONCodec := sample_codec);
     decode_Card := strict_decode_Card;
     decode_APIError := decode_APIError (JSONCodec := sample_codec);
     decode_CardBulkData := decode_CardBulkData (JSONCodec := sample_codec);
     decode_BulkDataList := decode_BulkDataList (JSONCodec := sample_codec);
     decode_SetList := decode_SetList (JSONCodec := sample_codec) |}.

(** One record, then a record whose [id] is a number. *)
Definition number_id_chunks : list bytes :=
  [json_bytes "[{'id':'card-1'}, {'id':7}]"].

Definition number_id_item : item :=
  {| lead := []; pre := bytes_of " "; val := json_bytes "{'id':7}" |}.

(** One record, then the start of a second, and the end of the stream. *)
Definition truncated_chunks : list bytes :=
  [json_bytes "[{'id':'card-1'},"; json_bytes " {'id':'ca"].

(** One record and no closing bracket. *)
Definition unclosed_chunks : list bytes :=
  [json_bytes "[{'id':'card-1'}"; bytes_of " "].

(** Two records with no comma between them. *)
Definition no_comma_chunks : list bytes :=
  [json_bytes "[{'id':'card-1'} {'id':'card-2'}]"].

(** A card as the server sends it, in two reads. *)
Definition lotus_response : Response :=
  sample_response 200
    [json_bytes " {'id':'abc',"; json_bytes "'name':'Black Lotus'} "].

Definition lotus_body : bytes :=
  json_bytes " {'id':'abc','name':'Black Lotus'} ".

(** A client whose limiter lets no request pass. *)
Definition refusing_client : @Client sample_platform :=
  {| httpClient := fun _ => (sample_response 200 [], None);
     baseURL := "https://api.scryfall.com"%string : @URL sample_platform;
     limiter := fun _ => Some (foreignError "context deadline exceeded");
     userAgent := "repricah-scryfall/0.1" |}.

(** ** What a run writes to its trace *)

(** The events of reading and decoding a stream: the calls of the two
    callbacks. *)
Definition stream_event (ev : Event) : Prop :=
  match ev with
  | EvProgress _ _ | EvCard _ _ => True
  | _ => False
  end.

(** The events of copying a stream to a file. *)
Definition copy_event (ev : Event) : Prop :=
  match ev with
  | EvProgress _ _ | EvFileWrite _ => True
  | _ => False
  end.

(** Every event of every run of [m] is one of [P]. *)
Definition emits_only {St A} (P : Event -> Prop) (m : M St A) : Prop :=
  forall s evs s' a, m s = Some (evs, s', a) -> Forall P evs.

(** The bytes handed to the file, in order. *)
Definition file_writes (evs : list Event) : list bytes :=
  flat_map (fun ev => match ev with EvFileWrite data => [data] | _ => [] end)
    evs.

Definition written (evs : list Event) : bytes := concat (file_writes evs).

(** The bytes a body delivers, whatever errors come with them. *)
Definition Body_bytes (b : Body) : bytes := concat (map fst b).

(** A response whose body arrives in two reads, and one whose second
    read fails. *)
Definition abcde_response : Response :=
  sample_response 200 [bytes_of "ab"; bytes_of "cde"].

Definition reset_response : Response :=
  {| Response_StatusCode := 200; ContentLength := 5;
     Response_Body := [(bytes_of "ab", None);
                       ([], Some (foreignError "connection reset by peer"))] |}.

(** ** The arguments of the options *)

Section OptionArguments.
Variable St : Type.
Context {platform : Platform}.
Variable Logger : Type.

(** One of the five options of client.go, by its argument. *)
Inductive OptionArg :=
| ArgHTTPClient (h : option (Request -> Response * option error))
| ArgBaseURL (rawURL : string)
| ArgLimiter (l : option (Context -> option error))
| ArgUserAgent (ua : string)
| ArgLogger (lg : option Logger).

Definition option_of (a : OptionArg) : Option St Logger :=
  match a with
  | ArgHTTPClient h => WithHTTPClient h
  | ArgBaseURL rawURL => WithBaseURL rawURL
  | ArgLimiter l => WithLimiter l
  | ArgUserAgent ua => WithUserAgent ua
  | ArgLogger lg => WithLogger lg
  end.

(** The last user agent given that is not empty, the default one if there
    is none. *)
Definition chosen_userAgent (args : list OptionArg) : string :=
  fold_left (fun acc a =>
               match a with
               | ArgUserAgent ua => if (ua =? "")%string then acc else ua
               | _ => acc
               end) args defaultUserAgent.

(** The last base URL given that is not empty and parses, the default one
    if there is none. *)
Definition chosen_baseURL (args : list OptionArg) : URL :=
  fold_left (fun acc a =>
               match a with
               | ArgBaseURL rawURL =>
                   if (rawURL =? "")%string then acc
                   else match url_Parse rawURL with
                        | (u, None) => u
                        | (_, Some _) => acc
                        end
               | _ => acc
               end) args (fst (url_Parse defaultBaseURL)).

(** The base URLs given that do not parse. *)
Definition invalid_baseURLs (args : list OptionArg) : list string :=
  flat_map (fun a =>
              match a with
              | ArgBaseURL rawURL =>
                  if (rawURL =? "")%string then []
                  else match snd (url_Parse rawURL) with
                       | Some _ => [rawURL]
                       | None => []
                       end
              | _ => []
              end) args.

End OptionArguments.

Arguments ArgHTTPClient {Logger} h.
Arguments ArgBaseURL {Logger} rawURL.
Arguments ArgLimiter {Logger} l.
Arguments ArgUserAgent {Logger} ua.
Arguments ArgLogger {Logger} lg.

(** * Part III: the decoder on a stream of bytes *)

(** * Events and runs *)

Lemma card_calls_app (a b : list Event) :
  card_calls (a ++ b) = card_calls a ++ card_calls b.
Proof. unfold card_calls. apply flat_map_app. Qed.

Lemma progress_calls_app (a b : list Event) :
  progress_calls (a ++ b) = progress_calls a ++ progress_calls b.
Proof. unfold progress_calls. apply flat_map_app. Qed.

Lemma quiet_nil : quiet [].
Proof. reflexivity. Qed.

Lemma quiet_app (a b : list Event) : quiet a -> quiet b -> quiet (a ++ b).
Proof. unfold quiet. intros Ha Hb. now rewrite card_calls_app, Ha, Hb. Qed.

#[local] Hint Resolve quiet_nil quiet_app : core.

Section RunLemmas.
Variable St : Type.

Lemma bind_run {A B} (m : M St A) (k : A -> M St B) s e1 s1 a :
  m s = Some (e1, s1, a) ->
  bind m k s =
  match k a s1 with
  | None => None
  | Some (e2, s2, b) => Some (e1 ++ e2, s2, b)
  end.
Proof. intros H. unfold bind. now rewrite H. Qed.

Lemma bind_Some {A B} (m : M St A) (k : A -> M St B) s e1 s1 a e2 s2 b :
  m s = Some (e1, s1, a) -> k a s1 = Some (e2, s2, b) ->
  bind m k s = Some (e1 ++ e2, s2, b).
Proof. intros H1 H2. unfold bind. now rewrite H1, H2. Qed.

Lemma bind_inv {A B} (m : M St A) (k : A -> M St B) s e s2 b :
  bind m k s = Some (e, s2, b) ->
  exists e1 s1 a e2,
    m s = Some (e1, s1, a) /\ k a s1 = Some (e2, s2, b) /\ e = e1 ++ e2.
Proof.
  unfold bind. destruct (m s) as [[[e1 s1] a]|]; [|discriminate].
  destruct (k a s1) as [[[e2 s2'] b']|] eqn:Hk; [|discriminate].
  intros H; inversion H; subst. now exists e1, s1, a, e2.
Qed.

(** ** Reading *)

Lemma Reader_Read_spec (rd : Reader St) s :
  exists evs s' rd',
    Reader_Read rd s = Some (evs, s', (rd', fst (Body_Read (Reader_body rd))))
    /\ Reader_body rd' = snd (Body_Read (Reader_body rd))
    /\ quiet evs.
Proof.
  destruct rd as [b|pr]; simpl.
  - destruct (Body_Read b) as [res b'] eqn:E. simpl.
    exists [], s, (bodyReader b'). auto.
  - unfold progressReader_Read.
    destruct (Body_Read (ReadCloser pr)) as [res b'] eqn:E. simpl.
    destruct (OnRead pr) as [f|]; simpl.
    + unfold bind, call_progress, ret; simpl.
      eexists _, _, _. split; [reflexivity|]. split; [reflexivity|]. reflexivity.
    + unfold bind, ret; simpl.
      eexists _, _, _. split; [reflexivity|]. split; [reflexivity|]. reflexivity.
Qed.
End RunLemmas.

(** * The decoder: general facts *)

Lemma dropSpace_app (a b : bytes) :
  dropSpace (a ++ b) =
  match dropSpace a with
  | [] => dropSpace b
  | l => l ++ b
  end.
Proof.
  induction a as [|c a IH]; simpl; [reflexivity|].
  destruct (isSpace c); [apply IH|reflexivity].
Qed.

Lemma dropSpace_length (b : bytes) :
  (List.length (dropSpace b) <= List.length b)%nat.
Proof.
  induction b as [|c b IH]; simpl; [lia|].
  destruct (isSpace c); simpl; lia.
Qed.

Lemma dropSpace_head (b : bytes) c b' :
  dropSpace b = c :: b' -> isSpace c = false.
Proof.
  induction b as [|x b IH]; simpl; [discriminate|].
  destruct (isSpace x) eqn:E; [exact IH|].
  intros H; inversion H; subst; exact E.
Qed.

Lemma dropSpace_idem (b : bytes) : dropSpace (dropSpace b) = dropSpace b.
Proof.
  induction b as [|x b IH]; simpl; [reflexivity|].
  destruct (isSpace x) eqn:E; [exact IH|]. simpl. now rewrite E.
Qed.

(** ** Scanning for the end of a value *)

Lemma scan_buf_app (a b : bytes) : forall s n,
  scan_buf s n (a ++ b) =
  match scan_buf s n a with
  | ScanMore s' n' => scan_buf s' n' b
  | res => res
  end.
Proof.
  induction a as [|c a IH]; intros s n; simpl; [reflexivity|].
  destruct (scanner_step s c) as [s' op].
  destruct op; try apply IH; try reflexivity;
    destruct (stateEndValue s' " ") as [s'' op'];
    destruct (is_scanEnd op'); try reflexivity; apply IH.
Qed.

Lemma scan_buf_more (a : bytes) : forall s n s' n',
  scan_buf s n a = ScanMore s' n' -> n' = (n + List.length a)%nat.
Proof.
  induction a as [|c a IH]; intros s n s' n'; simpl.
  - intros H; inversion H; lia.
  - destruct (scanner_step s c) as [s1 op].
    destruct op; try discriminate;
      try (intros H; apply IH in H; lia);
      destruct (stateEndValue s1 " ") as [s2 op'];
      destruct (is_scanEnd op'); try discriminate;
      intros H; apply IH in H; lia.
Qed.

Lemma scan_buf_ended (a : bytes) : forall s n m,
  scan_buf s n a = ScanEnded m -> (n <= m <= n + List.length a)%nat.
Proof.
  induction a as [|c a IH]; intros s n m; simpl; [discriminate|].
  destruct (scanner_step s c) as [s1 op].
  destruct op; try discriminate;
    try (intros H; apply IH in H; lia);
    try (intros H; inversion H; lia);
    destruct (stateEndValue s1 " ") as [s2 op'];
    destruct (is_scanEnd op');
    intros H; try (inversion H; lia); apply IH in H; lia.
Qed.

Lemma scan_buf_shift (a : bytes) k : forall s n,
  scan_buf s (n + k) a = scan_shift k (scan_buf s n a).
Proof.
  induction a as [|c a IH]; intros s n; simpl; [reflexivity|].
  destruct (scanner_step s c) as [s1 op].
  destruct op; try reflexivity; try (apply (IH s1 (S n)));
    destruct (stateEndValue s1 " ") as [s2 op'];
    destruct (is_scanEnd op'); try reflexivity; apply (IH s2 (S n)).
Qed.

Lemma scan_buf_space (ws : bytes) (x : bytes) : forall n,
  dropSpace ws = [] ->
  scan_buf scanner_reset n (ws ++ x) =
  scan_buf scanner_reset (n + List.length ws) x.
Proof.
  induction ws as [|c ws IH]; intros n H; simpl.
  - now rewrite Nat.add_0_r.
  - simpl in H. destruct (isSpace c) eqn:E; [|discriminate].
    unfold scanner_step. simpl. unfold stateBeginValue. rewrite E.
    rewrite IH by exact H. f_equal. lia.
Qed.

Lemma record_text_scan v :
  record_text v = true -> scan_buf scanner_reset 0 v = ScanEnded (List.length v).
Proof.
  unfold record_text. destruct v as [|c v]; [discriminate|].
  intros H. apply andb_true_iff in H. destruct H as [_ H].
  destruct (scan_buf scanner_reset 0 (c :: v)); try discriminate.
  apply Nat.eqb_eq in H. now subst.
Qed.

Lemma record_text_head v :
  record_text v = true -> exists v', v = "{"%char :: v'.
Proof.
  unfold record_text. destruct v as [|c v]; [discriminate|].
  intros H. apply andb_true_iff in H. destruct H as [H _].
  apply Ascii.eqb_eq in H. subst. now exists v.
Qed.

Section DecoderFacts.
Variable St : Type.
Context {codec : JSONCodec}.

Lemma same_tok_refl (dec : Decoder St) : same_tok dec dec.
Proof. now repeat split. Qed.

Lemma same_tok_trans (d1 d2 d3 : Decoder St) : same_tok d1 d2 -> same_tok d2 d3 -> same_tok d1 d3.
Proof. unfold same_tok. intuition congruence. Qed.

Lemma refill_spec (dec : Decoder St) s :
  exists evs s' dec',
    refill dec s = Some (evs, s', (dec', snd (fst (Body_Read (script dec)))))
    /\ buf dec' = buf dec ++ fst (fst (Body_Read (script dec)))
    /\ script dec' = snd (Body_Read (script dec))
    /\ same_tok dec dec' /\ quiet evs.
Proof.
  unfold refill, script.
  destruct (Reader_Read_spec (r dec) s) as (evs & s' & rd' & HR & Hb & Hq).
  unfold bind. rewrite HR.
  destruct (fst (Body_Read (Reader_body (r dec)))) as [chunk e] eqn:E.
  simpl. eexists _, _, _. split; [reflexivity|]. simpl.
  rewrite app_nil_r. repeat split; auto.
Qed.

Lemma Body_size_app (a b : Body) : Body_size (a ++ b) = (Body_size a + Body_size b)%nat.
Proof. unfold Body_size. now rewrite map_app, list_sum_app. Qed.

Lemma Body_size_clean chunks : Body_size (clean chunks) = List.length (concat chunks).
Proof.
  induction chunks as [|c l IH]; [reflexivity|].
  unfold Body_size in *. simpl. rewrite length_app. now rewrite IH.
Qed.

(** [peek] on a decoder that views bytes with something other than space
    among them. *)
Lemma peek_loop_views chunks : forall (dec : Decoder St) fuel s c B rest,
  script dec = clean chunks ++ rest ->
  dropSpace (buf dec ++ concat chunks) = c :: B ->
  (List.length chunks < fuel)%nat ->
  exists evs s' dec',
    peek_loop fuel dec None s = Some (evs, s', (dec', (c, None)))
    /\ quiet evs /\ Views dec' (c :: B) rest /\ same_tok dec dec'
    /\ exists b, buf dec' = c :: b.
Proof.
  induction chunks as [|ch chunks IH]; intros dec fuel s c B rest Hs Hd Hf.
  - simpl in Hd. rewrite app_nil_r in Hd.
    destruct fuel; [lia|]. simpl. rewrite Hd.
    eexists _, _, _. split; [reflexivity|]. split; [apply quiet_nil|].
    split; [|split; [now repeat split|now exists B]].
    exists []. split; [exact Hs|]. simpl. now rewrite app_nil_r.
  - destruct fuel as [|fuel]; [simpl in Hf; lia|].
    simpl. rewrite dropSpace_app in Hd.
    destruct (dropSpace (buf dec)) as [|c' b'] eqn:E.
    + destruct (refill_spec dec s) as (evs & s' & dec' & HR & Hb & Hsc & Ht & Hq).
      rewrite Hs in HR, Hb, Hsc. simpl in HR, Hb, Hsc.
      unfold bind. rewrite HR.
      destruct (IH dec' fuel s' c B rest) as (evs2 & s2 & dec2 & HP & Hq2 & HV & Ht2 & Hb2).
      * exact Hsc.
      * rewrite Hb. rewrite <- app_assoc. rewrite dropSpace_app, E.
        simpl in Hd. exact Hd.
      * simpl in Hf. lia.
      * rewrite HP. eexists _, _, _. split; [reflexivity|].
        split; [now apply quiet_app|]. split; [exact HV|].
        split; [eapply same_tok_trans; eauto|exact Hb2].
    + inversion Hd; subst.
      eexists _, _, _. split; [reflexivity|]. split; [apply quiet_nil|].
      split; [|split; [now repeat split|now exists b']].
      exists (ch :: chunks). split; [exact Hs|]. reflexivity.
Qed.

Lemma readValue_loop_views chunks : forall (dec : Decoder St) fuel s sc n res rest,
  script dec = clean chunks ++ rest ->
  scan_buf scanner_reset 0 (buf dec ++ concat chunks) = res ->
  decided res ->
  (n <= List.length (buf dec))%nat ->
  scan_buf scanner_reset 0 (firstn n (buf dec)) = ScanMore sc n ->
  (List.length chunks < fuel)%nat ->
  exists evs s' dec',
    readValue_loop fuel dec sc n None s
    = Some (evs, s', (dec', readValue_result res))
    /\ quiet evs
    /\ Views dec' (buf dec ++ concat chunks) rest
    /\ tokenState dec' = tokenState dec /\ tokenStack dec' = tokenStack dec
    /\ match res with
       | ScanEnded m => (m <= List.length (buf dec'))%nat /\ dec_err dec' = dec_err dec
       | _ => True
       end.
Proof.
  induction chunks as [|ch chunks IH];
    intros dec fuel s sc n res rest Hs Hres Hdec Hn Hinv Hf.
  - simpl in Hres. rewrite app_nil_r in Hres.
    assert (HT : scan_buf sc n (skipn n (buf dec)) = res).
    { rewrite <- Hres. rewrite <- (firstn_skipn n (buf dec)) at 2.
      rewrite scan_buf_app, Hinv. reflexivity. }
    destruct fuel; [lia|]. simpl. rewrite HT.
    destruct res as [m|e|s1 n1]; [| |contradiction].
    + eexists _, _, _. split; [reflexivity|]. split; [apply quiet_nil|].
      split; [exists []; split; [exact Hs|reflexivity]|].
      repeat split. apply scan_buf_ended in Hres. simpl in Hres. lia.
    + eexists _, _, _. split; [reflexivity|]. split; [apply quiet_nil|].
      split; [exists []; split; [exact Hs|reflexivity]|].
      repeat split.
  - destruct fuel as [|fuel]; [simpl in Hf; lia|].
    assert (HT : scan_buf sc n (skipn n (buf dec)) = scan_buf scanner_reset 0 (buf dec)).
    { rewrite <- (firstn_skipn n (buf dec)) at 2.
      rewrite scan_buf_app, Hinv. reflexivity. }
    rewrite scan_buf_app in Hres.
    simpl. rewrite HT.
    destruct (scan_buf scanner_reset 0 (buf dec)) as [m|e|s1 n1] eqn:E.
    + subst res. eexists _, _, _. split; [reflexivity|].
      split; [apply quiet_nil|].
      split; [exists (ch :: chunks); split; [exact Hs|reflexivity]|].
      repeat split. apply scan_buf_ended in E. simpl in E. lia.
    + subst res. eexists _, _, _. split; [reflexivity|].
      split; [apply quiet_nil|].
      split; [exists (ch :: chunks); split; [exact Hs|reflexivity]|].
      repeat split.
    + pose proof (scan_buf_more _ _ _ E) as Hn1. simpl in Hn1.
      destruct (refill_spec dec s) as (evs & s' & dec' & HR & Hb & Hsc & Ht & Hq).
      rewrite Hs in HR, Hb, Hsc. simpl in HR, Hb, Hsc.
      unfold bind. rewrite HR.
      destruct (IH dec' fuel s' s1 n1 res rest) as
        (evs2 & s2 & dec2 & HP & Hq2 & HV & Hts & Hstk & Hres2).
      * exact Hsc.
      * rewrite Hb, <- app_assoc. simpl in Hres.
        rewrite scan_buf_app, E. exact Hres.
      * exact Hdec.
      * rewrite Hb, length_app. lia.
      * rewrite Hb. subst n1. rewrite firstn_app, Nat.sub_diag.
        simpl. rewrite app_nil_r, firstn_all. exact E.
      * simpl in Hf. lia.
      * rewrite HP. destruct Ht as (Ht1 & Ht2 & Ht3).
        eexists _, _, _. split; [reflexivity|].
        split; [now apply quiet_app|].
        split; [|split; [congruence|split; [congruence|]]].
        -- rewrite Hb, <- app_assoc in HV. exact HV.
        -- destruct res; auto. destruct Hres2; split; [auto|congruence].
Qed.

Lemma script_length_views (dec : Decoder St) chunks rest :
  script dec = clean chunks ++ rest ->
  (List.length chunks < S (List.length (Reader_body (r dec))))%nat.
Proof.
  unfold script. intros ->. rewrite length_app. unfold clean.
  rewrite length_map. lia.
Qed.

Lemma peek_views (dec : Decoder St) s lead c B rest :
  Views dec (lead ++ c :: B) rest -> dropSpace lead = [] -> isSpace c = false ->
  exists evs s' dec',
    peek dec s = Some (evs, s', (dec', (c, None)))
    /\ quiet evs /\ Views dec' (c :: B) rest /\ same_tok dec dec'
    /\ exists b, buf dec' = c :: b.
Proof.
  intros (chunks & Hs & Hb) Hl Hc. unfold peek.
  apply peek_loop_views with (chunks := chunks); auto.
  - rewrite Hb, dropSpace_app, Hl. simpl. now rewrite Hc.
  - eapply script_length_views; eauto.
Qed.

Lemma More_views (dec : Decoder St) s lead c B rest :
  Views dec (lead ++ c :: B) rest -> dropSpace lead = [] -> isSpace c = false ->
  exists evs s' dec',
    More dec s
    = Some (evs, s', (dec', negb (c =? "]")%char && negb (c =? "}")%char))
    /\ quiet evs /\ Views dec' (c :: B) rest /\ same_tok dec dec'.
Proof.
  intros HV Hl Hc.
  destruct (@peek_views dec s lead c B rest HV Hl Hc) as (evs & s' & dec' & HP & Hq & HV' & Ht & _).
  unfold More, bind. rewrite HP. simpl.
  eexists _, _, _. split; [reflexivity|].
  rewrite app_nil_r. auto.
Qed.

Lemma app_eq_firstn_skipn (a b v B : bytes) :
  a ++ b = v ++ B -> (List.length v <= List.length a)%nat ->
  firstn (List.length v) a = v /\ skipn (List.length v) a ++ b = B.
Proof.
  revert v. induction a as [|x a IH]; intros v H Hl.
  - destruct v; [simpl in *; auto|simpl in Hl; lia].
  - destruct v as [|y v]; [simpl in *; auto|].
    simpl in H. inversion H; subst. simpl in Hl.
    destruct (IH v H2) as [H3 H4]; [lia|].
    simpl. now rewrite H3, H4.
Qed.

Lemma readValue_views (dec : Decoder St) s pre v B rest :
  Views dec (pre ++ v ++ B) rest -> dropSpace pre = [] -> record_text v = true ->
  exists evs s' dec',
    readValue dec s
    = Some (evs, s', (dec', (List.length (pre ++ v), None)))
    /\ quiet evs /\ Views dec' (pre ++ v ++ B) rest /\ same_tok dec dec'
    /\ (List.length (pre ++ v) <= List.length (buf dec'))%nat.
Proof.
  intros (chunks & Hs & Hb) Hp Hv. unfold readValue.
  assert (Hscan : scan_buf scanner_reset 0 (buf dec ++ concat chunks)
                  = ScanEnded (List.length (pre ++ v))).
  { rewrite Hb. rewrite scan_buf_space by exact Hp.
    rewrite (scan_buf_shift (v ++ B) (List.length pre) scanner_reset 0).
    rewrite scan_buf_app, (record_text_scan _ Hv). simpl.
    now rewrite length_app, Nat.add_comm. }
  destruct (@readValue_loop_views chunks dec
              (S (List.length (Reader_body (r dec)))) s scanner_reset 0
              _ rest Hs Hscan) as (evs & s' & dec' & HR & Hq & HV & Ht1 & Ht2 & Hm & He).
  - exact I.
  - lia.
  - reflexivity.
  - eapply script_length_views; eauto.
  - exists evs, s', dec'. split; [exact HR|]. split; [exact Hq|].
    rewrite Hb in HV. split; [exact HV|]. split; [now repeat split|exact Hm].
Qed.

Lemma tokenValueEnd_frame (d : Decoder St) :
  buf (tokenValueEnd d) = buf d /\ r (tokenValueEnd d) = r d
  /\ tokenStack (tokenValueEnd d) = tokenStack d
  /\ dec_err (tokenValueEnd d) = dec_err d.
Proof. unfold tokenValueEnd. destruct (tokenState d); now repeat split. Qed.

Lemma Decode_views {A} (zero : A) um (dec : Decoder St) s first ws pre v B rest :
  Views dec (elem_lead first ws ++ pre ++ v ++ B) rest ->
  dropSpace ws = [] -> dropSpace pre = [] -> record_text v = true ->
  dec_err dec = None -> tokenState dec = elem_state first ->
  exists evs s' dec',
    Decode zero um dec s = Some (evs, s', (dec', um v))
    /\ quiet evs /\ Views dec' B rest
    /\ tokenState dec' = tokenArrayComma
    /\ tokenStack dec' = tokenStack dec /\ dec_err dec' = None.
Proof.
  intros HV Hws Hpre Hv He Hts.
  assert (Hdrop : dropSpace (pre ++ v) = v).
  { rewrite dropSpace_app, Hpre.
    destruct (record_text_head _ Hv) as (v' & ->). reflexivity. }
  assert (Hfin : forall (d : Decoder St) s0,
    Views d (pre ++ v ++ B) rest -> dec_err d = None ->
    tokenState d = tokenArrayStart \/ tokenState d = tokenArrayValue ->
    exists evs s' dec',
      (bind (readValue d) (fun x => let '(dec, (n, err)) := x in
         match err with
         | Some e => ret (dec, (zero, Some e))
         | None =>
             let (v0, err0) := um (dropSpace (firstn n (buf dec))) in
             ret (tokenValueEnd (set_buf dec (skipn n (buf dec))), (v0, err0))
         end)) s0 = Some (evs, s', (dec', um v))
      /\ quiet evs /\ Views dec' B rest /\ tokenState dec' = tokenArrayComma
      /\ tokenStack dec' = tokenStack d /\ dec_err dec' = None).
  { intros d s0 HVd Hed Htd.
    destruct (@readValue_views d s0 pre v B rest HVd Hpre Hv)
      as (evs & s' & dec' & HR & Hq & HV' & (Ht1 & Ht2 & Ht3) & Hlen).
    unfold bind. rewrite HR. simpl.
    destruct HV' as (chunks & Hsc & Hbuf).
    rewrite app_assoc in Hbuf.
    destruct (@app_eq_firstn_skipn _ _ _ _ Hbuf Hlen) as [Hf Hk].
    rewrite Hf, Hdrop. destruct (um v) as [v0 err0]. simpl.
    eexists _, _, _. split; [reflexivity|]. rewrite app_nil_r.
    split; [exact Hq|].
    destruct (tokenValueEnd_frame
                (set_buf dec' (skipn (List.length (pre ++ v)) (buf dec'))))
      as (Hfb & Hfr & Hfs & Hfe).
    split; [exists chunks; split|].
    - unfold script. rewrite Hfr. exact Hsc.
    - rewrite Hfb. exact Hk.
    - rewrite Hfs, Hfe. simpl.
      split; [|split; congruence].
      unfold tokenValueEnd. simpl. rewrite Ht1.
      destruct Htd as [-> | ->]; reflexivity. }
  unfold Decode. rewrite He.
  destruct first; simpl in HV, Hts.
  - unfold tokenPrepareForDecode. rewrite Hts.
    unfold bind at 1. simpl. unfold tokenValueAllowed. rewrite Hts. simpl.
    destruct (Hfin dec s HV He (or_introl Hts))
      as (evs & s' & dec' & HR & Hq & HV' & Hts' & Hstk & He').
    rewrite HR. eexists _, _, _. split; [reflexivity|]. auto.
  - unfold tokenPrepareForDecode. rewrite Hts.
    rewrite <- app_assoc in HV. simpl in HV.
    destruct (@peek_views dec s ws ","%char (pre ++ v ++ B) rest HV Hws eq_refl)
      as (evs & s' & dec' & HP & Hq & HV' & (Ht1 & Ht2 & Ht3) & b & Hb).
    unfold bind at 1. unfold bind at 1. rewrite HP. simpl.
    unfold tokenValueAllowed. simpl.
    destruct (Hfin (set_tokenState (set_buf dec' (tl (buf dec'))) tokenArrayValue) s')
      as (evs2 & s2 & dec2 & HR & Hq2 & HV2 & Hts2 & Hstk2 & He2).
    + destruct HV' as (chunks & Hsc & Hbuf). exists chunks.
      split; [exact Hsc|]. simpl. rewrite Hb in *. simpl in *.
      now inversion Hbuf.
    + simpl. congruence.
    + right. reflexivity.
    + rewrite HR. eexists _, _, _. split; [reflexivity|].
      rewrite app_nil_r. split; [now apply quiet_app|].
      split; [exact HV2|]. split; [exact Hts2|].
      split; [simpl in Hstk2; congruence|exact He2].
Qed.

(** ** The loop over the elements of a well-formed array *)

Lemma cards_loop_unfold fuel (dec : Decoder St) cb :
  cards_loop fuel dec cb =
  ('(dec, more) <- More dec ;;
   if more then
     '(dec, (card, err)) <- Decode zeroCard decode_Card dec ;;
     match err with
     | Some e => ret (dec, Some (wrapError "decode card object: " e))
     | None =>
         err <- call_card cb card ;;
         match err with
         | Some e => ret (dec, Some e)
         | None =>
             match fuel with
             | O => diverge
             | S fuel' => cards_loop fuel' dec cb
             end
         end
     end
   else ret (dec, None)).
Proof. destruct fuel; reflexivity. Qed.

Lemma blank_dropSpace ws : blank ws = true -> dropSpace ws = [].
Proof.
  induction ws as [|c ws IH]; simpl; [reflexivity|].
  intros H. apply andb_true_iff in H. destruct H as [-> H]. auto.
Qed.

Lemma prepend_nil {A} (x : option (list Event * St * A)) : prepend [] x = x.
Proof. destruct x as [[[e s] a]|]; reflexivity. Qed.

Lemma prepend_prepend {A} e1 e2 (x : option (list Event * St * A)) :
  prepend e1 (prepend e2 x) = prepend (e1 ++ e2) x.
Proof. destruct x as [[[e s] a]|]; simpl; [now rewrite app_assoc|reflexivity]. Qed.

Lemma cards_loop_items (cb : CardCallback St) :
  forall its first (dec : Decoder St) fuel s B rest,
  Views dec (items_text first its ++ B) rest ->
  dec_err dec = None -> tokenState dec = elem_state first ->
  Forall (fun it => item_ok it = true /\ snd (decode_Card (val it)) = None) its ->
  (List.length its <= fuel)%nat ->
  (exists evs s' dec' e l1 it l2,
      cards_loop fuel dec cb s = Some (evs, s', (dec', Some e))
      /\ its = l1 ++ it :: l2
      /\ card_calls evs = accepted l1 ++ [(card_of it, Some e)]
      /\ exists st, snd (cb (card_of it) st) = Some e)
  \/ (exists evs1 s1 dec1,
      Views dec1 B rest /\ dec_err dec1 = None
      /\ tokenState dec1 = match its with
                           | [] => tokenState dec
                           | _ => tokenArrayComma
                           end
      /\ tokenStack dec1 = tokenStack dec
      /\ card_calls evs1 = accepted its
      /\ cards_loop fuel dec cb s
         = prepend evs1 (cards_loop (fuel - List.length its) dec1 cb s1)).
Proof.
  induction its as [|it its IH]; intros first dec fuel s B rest HV He Hts Hok Hf.
  - right. exists [], s, dec. simpl in *. rewrite Nat.sub_0_r, prepend_nil.
    repeat split; auto.
  - inversion Hok as [|? ? [Hit Hdec] Hok']; subst.
    unfold item_ok in Hit. apply andb_true_iff in Hit. destruct Hit as [Hit Hrec].
    apply andb_true_iff in Hit. destruct Hit as [Hlead Hpre].
    apply blank_dropSpace in Hlead. apply blank_dropSpace in Hpre.
    destruct (record_text_head _ Hrec) as (v' & Hv').
    destruct fuel as [|fuel]; [simpl in Hf; lia|].
    set (T := items_text false its ++ B) in *.
    assert (HV0 : Views dec (lead it ++ (if first then [] else [","%char])
                             ++ pre it ++ val it ++ T) rest).
    { unfold T. simpl in HV. rewrite <- !app_assoc in HV. exact HV. }
    clear HV.
    assert (HM : exists evs s' dec',
               More dec s = Some (evs, s', (dec', true)) /\ quiet evs
               /\ Views dec' (elem_lead first [] ++ (if first then [] else pre it)
                              ++ val it ++ T) rest
               /\ same_tok dec dec').
    { destruct first.
      - assert (HV1 : Views dec ((lead it ++ pre it) ++ "{"%char :: (v' ++ T)) rest).
        { rewrite Hv' in HV0. simpl in HV0. rewrite <- app_assoc. exact HV0. }
        destruct (@More_views dec s (lead it ++ pre it) "{"%char (v' ++ T) rest HV1)
          as (evs & s' & dec' & HR & Hq & HV' & Ht).
        + rewrite dropSpace_app, Hlead. exact Hpre.
        + reflexivity.
        + simpl in HR. exists evs, s', dec'. repeat split; auto; try apply Ht.
          simpl. rewrite Hv'. exact HV'.
      - destruct (@More_views dec s (lead it) ","%char (pre it ++ val it ++ T) rest
                    HV0 Hlead eq_refl)
          as (evs & s' & dec' & HR & Hq & HV' & Ht).
        simpl in HR. exists evs, s', dec'. repeat split; auto; apply Ht. }
    destruct HM as (evs & s1 & dec1 & HM & Hq & HV1 & (Ht1 & Ht2 & Ht3)).
    destruct (@Decode_views _ zeroCard decode_Card dec1 s1 first []
                (if first then [] else pre it) (val it) T rest HV1) as
      (evs2 & s2 & dec2 & HD & Hq2 & HV2 & Hts2 & Hstk2 & He2);
      [reflexivity|destruct first; [reflexivity|exact Hpre]|exact Hrec
       |congruence|congruence|].
    destruct (decode_Card (val it)) as [card derr] eqn:Edec.
    simpl in Hdec. subst derr.
    assert (Hcard : card_of it = card) by (unfold card_of; now rewrite Edec).
    assert (Hrun : cards_loop (S fuel) dec cb s
                   = prepend (evs ++ evs2)
                       ((err0 <- call_card cb card ;;
                         match err0 with
                         | Some e => ret (dec2, Some e)
                         | None => cards_loop fuel dec2 cb
                         end) s2)).
    { rewrite cards_loop_unfold. unfold bind at 1. rewrite HM. simpl.
      unfold bind at 1. rewrite HD. simpl.
      match goal with |- context [prepend _ ?x] => destruct x as [[[e5 s5] a5]|] end;
        simpl; [now rewrite app_assoc|reflexivity]. }
    rewrite Hrun. clear Hrun.
    unfold bind, call_card.
    destruct (cb card s2) as [s3 [e|]] eqn:Ecb; simpl.
    + left. exists ((evs ++ evs2) ++ [EvCard card (Some e)] ++ []), s3, dec2, e, [], it, its.
      split; [reflexivity|]. split; [reflexivity|].
      split; [|exists s2; rewrite Hcard, Ecb; reflexivity].
      rewrite !card_calls_app. rewrite Hq. rewrite Hq2. rewrite Hcard. reflexivity.
    + destruct (IH false dec2 fuel s3 B rest HV2 He2 Hts2 Hok') as
        [(evs3 & s4 & dec4 & e & l1 & it' & l2 & HL & Hits & Hcc & Hst)
        |(evs3 & s4 & dec4 & HV4 & He4 & Hts4 & Hstk4 & Hcc & HL)].
      * simpl in Hf. lia.
      * left. rewrite HL.
        exists ((evs ++ evs2) ++ [EvCard card None] ++ evs3), s4, dec4, e,
          (it :: l1), it', l2.
        split; [reflexivity|]. split; [simpl; now rewrite Hits|].
        split; [|exact Hst].
        rewrite !card_calls_app. rewrite Hq. rewrite Hq2. rewrite Hcc.
        unfold accepted. simpl. rewrite Hcard. reflexivity.
      * right. exists ((evs ++ evs2) ++ [EvCard card None] ++ evs3), s4, dec4.
        split; [exact HV4|]. split; [exact He4|].
        split; [destruct its; [simpl in Hts4; congruence|exact Hts4]|].
        split; [congruence|].
        split.
        -- rewrite !card_calls_app. rewrite Hq. rewrite Hq2. rewrite Hcc.
        unfold accepted. simpl. rewrite Hcard. reflexivity.
        -- rewrite HL. simpl.
           destruct (cards_loop (fuel - List.length its) dec4 cb s4)
             as [[[e5 s5] a5]|]; simpl; [|reflexivity].
           now rewrite <- !app_assoc.
Qed.

(** ** The delimiters of the array *)

Lemma Token_open (rd : Reader St) s lead0 B rest :
  Views (NewDecoder rd) (lead0 ++ "["%char :: B) rest -> dropSpace lead0 = [] ->
  exists evs s' dec',
    Token (NewDecoder rd) s = Some (evs, s', (dec', (Delim "[", None)))
    /\ quiet evs /\ Views dec' B rest
    /\ tokenState dec' = tokenArrayStart
    /\ tokenStack dec' = [tokenTopValue] /\ dec_err dec' = None.
Proof.
  intros HV Hl.
  destruct (@peek_views (NewDecoder rd) s lead0 "["%char B rest HV Hl eq_refl)
    as (evs & s' & dec' & HP & Hq & HV' & (Ht1 & Ht2 & Ht3) & b & Hb).
  unfold Token, Token_loop, bind. rewrite HP. simpl.
  unfold token_push, tokenValueAllowed. rewrite Ht1. simpl.
  eexists _, _, _. split; [reflexivity|]. rewrite app_nil_r.
  split; [exact Hq|]. simpl. rewrite ?Ht1, ?Ht2, ?Ht3. simpl.
  repeat split; auto.
  destruct HV' as (chunks & Hsc & Hbuf). exists chunks. split; [exact Hsc|].
  simpl. rewrite Hb in *. simpl in *. now inversion Hbuf.
Qed.



Lemma Views_pending (dec : Decoder St) B rest :
  Views dec B rest -> (List.length B <= pending dec)%nat.
Proof.
  intros (chunks & Hs & Hb). unfold pending. unfold script in Hs. rewrite Hs.
  rewrite Body_size_app, Body_size_clean, <- Hb, length_app. lia.
Qed.

Lemma items_text_length first its :
  Forall (fun it => item_ok it = true) its ->
  (List.length its <= List.length (items_text first its))%nat.
Proof.
  revert first. induction its as [|it its IH]; intros first H; simpl; [lia|].
  inversion H as [|? ? Hit H']; subst.
  specialize (IH false H').
  unfold item_ok in Hit. apply andb_true_iff in Hit. destruct Hit as [_ Hrec].
  destruct (record_text_head _ Hrec) as (v' & ->).
  destruct first; repeat (rewrite ?length_app; simpl); lia.
Qed.


(** ** Streams that do not open an array *)

Lemma blank_app a b : blank (a ++ b) = blank a && blank b.
Proof. unfold blank. apply forallb_app. Qed.

Lemma peek_loop_blank chunks : forall (dec : Decoder St) fuel s e rest,
  script dec = clean chunks ++ rest ->
  blank (buf dec ++ concat chunks) = true -> ends_with rest e ->
  (List.length chunks < fuel)%nat ->
  exists evs s' dec',
    peek_loop fuel dec None s = Some (evs, s', (dec', (zeroByte, Some e)))
    /\ quiet evs.
Proof.
  induction chunks as [|ch chunks IH]; intros dec fuel s e rest Hs Hb He Hf.
  - simpl in Hb. rewrite app_nil_r in Hb.
    destruct fuel as [|fuel]; [lia|]. simpl.
    rewrite (blank_dropSpace _ Hb).
    destruct (refill_spec dec s) as (evs & s' & dec' & HR & Hbuf & Hsc & Ht & Hq).
    rewrite Hs in HR, Hbuf, Hsc. simpl in HR, Hbuf, Hsc.
    unfold bind. rewrite HR.
    destruct He as [[-> ->] | (ch & rest' & -> & Hch)]; simpl in *.
    + assert (Hd : dropSpace (buf dec') = []).
      { rewrite Hbuf, app_nil_r. now apply blank_dropSpace. }
      destruct fuel; simpl; rewrite Hd;
        (eexists _, _, _; split; [reflexivity|]; now rewrite app_nil_r).
    + assert (Hd : dropSpace (buf dec') = []).
      { rewrite Hbuf. apply blank_dropSpace. rewrite blank_app, Hb, Hch. reflexivity. }
      destruct fuel; simpl; rewrite Hd;
        (eexists _, _, _; split; [reflexivity|]; now rewrite app_nil_r).
  - destruct fuel as [|fuel]; [simpl in Hf; lia|]. simpl.
    simpl in Hb. rewrite app_assoc in Hb.
    assert (Hb0 : blank (buf dec) = true).
    { rewrite !blank_app in Hb. apply andb_true_iff in Hb. destruct Hb as [Hb _].
      apply andb_true_iff in Hb. tauto. }
    rewrite (blank_dropSpace _ Hb0).
    destruct (refill_spec dec s) as (evs & s' & dec' & HR & Hbuf & Hsc & Ht & Hq).
    rewrite Hs in HR, Hbuf, Hsc. simpl in HR, Hbuf, Hsc.
    unfold bind. rewrite HR.
    destruct (IH dec' fuel s' e rest Hsc) as (evs2 & s2 & dec2 & HP & Hq2).
    + rewrite Hbuf. exact Hb.
    + exact He.
    + simpl in Hf. lia.
    + rewrite HP. eexists _, _, _. split; [reflexivity|]. now apply quiet_app.
Qed.

Lemma Token_exhausted (dec : Decoder St) s B e rest :
  Views dec B rest -> blank B = true -> ends_with rest e ->
  exists evs s' dec',
    Token dec s = Some (evs, s', (dec', (noToken, Some e))) /\ quiet evs.
Proof.
  intros (chunks & Hs & Hb) HB He.
  destruct (@peek_loop_blank chunks dec (S (List.length (Reader_body (r dec))))
              s e rest Hs) as (evs & s' & dec' & HP & Hq).
  - now rewrite Hb.
  - exact He.
  - eapply script_length_views; eauto.
  - unfold Token, Token_loop, bind, peek. rewrite HP. simpl.
    eexists _, _, _. split; [reflexivity|]. now rewrite app_nil_r.
Qed.


Lemma readValue_decided (dec : Decoder St) s X res rest :
  Views dec X rest -> scan_buf scanner_reset 0 X = res -> decided res ->
  exists evs s' dec',
    readValue dec s = Some (evs, s', (dec', readValue_result res))
    /\ quiet evs /\ Views dec' X rest
    /\ tokenState dec' = tokenState dec /\ tokenStack dec' = tokenStack dec
    /\ match res with
       | ScanEnded m => (m <= List.length (buf dec'))%nat /\ dec_err dec' = dec_err dec
       | _ => True
       end.
Proof.
  intros (chunks & Hs & Hb) Hres Hdec. unfold readValue.
  rewrite <- Hb in Hres.
  destruct (@readValue_loop_views chunks dec
              (S (List.length (Reader_body (r dec)))) s scanner_reset 0
              res rest Hs Hres Hdec) as (evs & s' & dec' & HR & Hq & HV & Ht1 & Ht2 & Hm).
  - lia.
  - reflexivity.
  - eapply script_length_views; eauto.
  - exists evs, s', dec'. rewrite Hb in HV.
    split; [exact HR|split; [exact Hq|split; [exact HV|split; [exact Ht1|split; [exact Ht2|exact Hm]]]]].
Qed.

(** [Decode] of an element the scanner rejects. *)
Lemma Decode_bad {A} (zero : A) um (dec : Decoder St) s first ws pre bad e B rest :
  Views dec (elem_lead first ws ++ pre ++ bad ++ B) rest ->
  dropSpace ws = [] -> dropSpace pre = [] ->
  scan_buf scanner_reset 0 bad = ScanFailed (Some e) ->
  dec_err dec = None -> tokenState dec = elem_state first ->
  exists evs s' dec',
    Decode zero um dec s = Some (evs, s', (dec', (zero, Some e))) /\ quiet evs.
Proof.
  intros HV Hws Hpre Hbad He Hts.
  assert (Hscan : scan_buf scanner_reset 0 (pre ++ bad ++ B) = ScanFailed (Some e)).
  { rewrite scan_buf_space by exact Hpre.
    rewrite (scan_buf_shift (bad ++ B) (List.length pre) scanner_reset 0).
    now rewrite scan_buf_app, Hbad. }
  assert (Hfin : forall (d : Decoder St) s0,
    Views d (pre ++ bad ++ B) rest ->
    exists evs s' dec',
      (bind (readValue d) (fun x => let '(dec, (n, err)) := x in
         match err with
         | Some e => ret (dec, (zero, Some e))
         | None =>
             let (v0, err0) := um (dropSpace (firstn n (buf dec))) in
             ret (tokenValueEnd (set_buf dec (skipn n (buf dec))), (v0, err0))
         end)) s0 = Some (evs, s', (dec', (zero, Some e)))
      /\ quiet evs).
  { intros d s0 HVd.
    destruct (@readValue_decided d s0 _ _ rest HVd Hscan I)
      as (evs & s' & dec' & HR & Hq & _).
    unfold bind. rewrite HR. simpl.
    eexists _, _, _. split; [reflexivity|]. now rewrite app_nil_r. }
  unfold Decode. rewrite He.
  destruct first; simpl in HV, Hts.
  - unfold tokenPrepareForDecode. rewrite Hts.
    unfold bind at 1. simpl. unfold tokenValueAllowed. rewrite Hts. simpl.
    destruct (Hfin dec s HV) as (evs & s' & dec' & HR & Hq).
    rewrite HR. eexists _, _, _. split; [reflexivity|]. exact Hq.
  - unfold tokenPrepareForDecode. rewrite Hts.
    rewrite <- app_assoc in HV. simpl in HV.
    destruct (@peek_views dec s ws ","%char (pre ++ bad ++ B) rest HV Hws eq_refl)
      as (evs & s' & dec' & HP & Hq & HV' & (Ht1 & Ht2 & Ht3) & b & Hb).
    unfold bind at 1. unfold bind at 1. rewrite HP. simpl.
    unfold tokenValueAllowed. simpl.
    destruct (Hfin (set_tokenState (set_buf dec' (tl (buf dec'))) tokenArrayValue) s')
      as (evs2 & s2 & dec2 & HR & Hq2).
    + destruct HV' as (chunks & Hsc & Hbuf). exists chunks.
      split; [exact Hsc|]. simpl. rewrite Hb in *. simpl in *.
      now inversion Hbuf.
    + rewrite HR. eexists _, _, _. split; [reflexivity|].
      rewrite app_nil_r. now apply quiet_app.
Qed.

Lemma cards_loop_bad (cb : CardCallback St) (dec : Decoder St) fuel s first
    ld pr c bad e B rest :
  Views dec (bad_tail first ld pr (c :: bad) ++ B) rest ->
  blank ld = true -> blank pr = true ->
  (first = true -> more_byte c = true) ->
  scan_buf scanner_reset 0 (c :: bad) = ScanFailed (Some e) ->
  dec_err dec = None -> tokenState dec = elem_state first ->
  exists evs s' dec',
    cards_loop fuel dec cb s
    = Some (evs, s', (dec', Some (wrapError "decode card object: " e)))
    /\ quiet evs.
Proof.
  intros HV Hld Hpr Hc Hbad He Hts.
  apply blank_dropSpace in Hld. apply blank_dropSpace in Hpr.
  unfold bad_tail in HV. rewrite <- !app_assoc in HV.
  assert (HM : exists evs s' dec',
             More dec s = Some (evs, s', (dec', true)) /\ quiet evs
             /\ Views dec' (elem_lead first [] ++ (if first then [] else pr)
                            ++ (c :: bad) ++ B) rest
             /\ same_tok dec dec').
  { destruct first.
    - specialize (Hc eq_refl). unfold more_byte in Hc.
      apply andb_true_iff in Hc. destruct Hc as [Hc Hc3].
      apply andb_true_iff in Hc. destruct Hc as [Hc1 Hc2].
      apply negb_true_iff in Hc1.
      assert (HV1 : Views dec ((ld ++ pr) ++ c :: (bad ++ B)) rest).
      { rewrite <- app_assoc. exact HV. }
      destruct (@More_views dec s (ld ++ pr) c (bad ++ B) rest HV1)
        as (evs & s' & dec' & HR & Hq & HV' & Ht).
      + rewrite dropSpace_app, Hld. exact Hpr.
      + exact Hc1.
      + rewrite Hc2, Hc3 in HR. simpl in HR.
        exists evs, s', dec'. repeat split; auto; apply Ht.
    - simpl in HV.
      destruct (@More_views dec s ld ","%char (pr ++ (c :: bad) ++ B) rest
                  HV Hld eq_refl)
        as (evs & s' & dec' & HR & Hq & HV' & Ht).
      simpl in HR. exists evs, s', dec'. repeat split; auto; apply Ht. }
  destruct HM as (evs & s1 & dec1 & HM & Hq & HV1 & (Ht1 & Ht2 & Ht3)).
  destruct (@Decode_bad _ zeroCard decode_Card dec1 s1 first []
              (if first then [] else pr) (c :: bad) e B rest HV1) as
    (evs2 & s2 & dec2 & HD & Hq2);
    [reflexivity|destruct first; [reflexivity|exact Hpr]|exact Hbad
     |congruence|congruence|].
  rewrite cards_loop_unfold. unfold bind at 1. rewrite HM. simpl.
  unfold bind at 1. rewrite HD. simpl.
  eexists _, _, _. split; [reflexivity|].
  rewrite app_nil_r. now apply quiet_app.
Qed.

Lemma ProcessBulkDataStream_bad (reader : Reader St) cb s chunks rest
    lead0 its ld pr c bad e junk :
  Reader_body reader = clean chunks ++ rest ->
  concat chunks
  = lead0 ++ "["%char :: items_text true its
    ++ bad_tail (match its with [] => true | _ => false end) ld pr (c :: bad)
    ++ junk ->
  blank lead0 = true -> well_formed its ->
  blank ld = true -> blank pr = true ->
  (its = [] -> more_byte c = true) ->
  scan_buf scanner_reset 0 (c :: bad) = ScanFailed (Some e) ->
  (exists evs s',
      ProcessBulkDataStream reader cb s
      = Some (evs, s', Some (wrapError "decode card object: " e))
      /\ card_calls evs = accepted its)
  \/ (exists evs s' e' l1 it l2,
      ProcessBulkDataStream reader cb s = Some (evs, s', Some e')
      /\ its = l1 ++ it :: l2
      /\ card_calls evs = accepted l1 ++ [(card_of it, Some e')]
      /\ exists st, snd (cb (card_of it) st) = Some e').
Proof.
  intros Hrd Hcat Hlead Hwf Hld Hpr Hc Hbad.
  apply blank_dropSpace in Hlead.
  assert (HV0 : Views (NewDecoder reader)
                  (lead0 ++ "["%char :: (items_text true its
                     ++ bad_tail (match its with [] => true | _ => false end)
                          ld pr (c :: bad) ++ junk)) rest).
  { exists chunks. split; [exact Hrd|]. simpl. exact Hcat. }
  destruct (@Token_open reader s lead0 _ rest HV0 Hlead)
    as (evs0 & s0 & dec0 & HT & Hq0 & HV1 & Hts & Hstk & He).
  assert (Hfuel : (List.length its <= pending dec0)%nat).
  { pose proof (Views_pending HV1) as Hp. rewrite length_app in Hp.
    assert (Forall (fun it => item_ok it = true) its).
    { eapply Forall_impl; [|exact Hwf]. simpl. tauto. }
    pose proof (items_text_length true H). lia. }
  destruct (@cards_loop_items cb its true dec0 (pending dec0) s0 _ rest
              HV1 He Hts Hwf Hfuel)
    as [(evs & s' & dec' & e' & l1 & it & l2 & HL & Hits & Hcc & Hst)
       |(evs1 & s1 & dec1 & HV2 & He1 & Hts1 & Hstk1 & Hcc & HL)].
  - right. unfold ProcessBulkDataStream, bind. rewrite HT. simpl.
    rewrite HL. simpl.
    exists (evs0 ++ evs ++ []), s', e', l1, it, l2.
    split; [reflexivity|]. split; [exact Hits|]. split; [|exact Hst].
    rewrite !card_calls_app. rewrite Hq0. rewrite Hcc. simpl.
    now rewrite app_nil_r.
  - left.
    destruct (@cards_loop_bad cb dec1 (pending dec0 - List.length its) s1
                (match its with [] => true | _ => false end)
                ld pr c bad e junk rest HV2 Hld Hpr)
      as (evs2 & s2 & dec2 & HL2 & Hq2).
    + destruct its; [intros _; now apply Hc|discriminate].
    + exact Hbad.
    + exact He1.
    + rewrite Hts1. destruct its; [exact Hts|reflexivity].
    + rewrite HL2 in HL. simpl in HL.
      unfold ProcessBulkDataStream, bind. rewrite HT. simpl.
      rewrite HL. simpl.
      eexists _, _. split; [reflexivity|].
      rewrite !card_calls_app. rewrite Hq0, Hcc, Hq2. simpl.
      now rewrite !app_nil_r.
Qed.










End DecoderFacts.

(** ** The scanner reports an error whenever it stops on one *)

Ltac scan_cases :=
  repeat match goal with
         | |- context [if ?b then _ else _] => destruct b
         | |- context [match ?x with _ => _ end] => destruct x
         end.

Ltac scan_done :=
  let H := fresh in
  intros H; inversion H; subst; simpl; split; congruence.

Lemma stateEndValue_sound s c s' op :
  stateEndValue s c = (s', op) ->
  err_sound s' /\ (op = scanError -> err s' <> None).
Proof.
  unfold err_sound, stateEndValue, stateEndTop, popParseState, scanner_error,
    set_step, set_parseState.
  destruct (parseState s) as [|ps rest]; simpl.
  - destruct (negb (isSpace c)); scan_done.
  - destruct (isSpace c); [scan_done|].
    destruct ps; scan_cases; scan_done.
Qed.

Lemma scanner_step_sound s c s' op :
  err_sound s -> scanner_step s c = (s', op) ->
  err_sound s' /\ (op = scanError -> err s' <> None).
Proof.
  intros Hs. unfold scanner_step.
  destruct (step s) eqn:E;
    try (apply stateEndValue_sound);
    unfold stateBeginValueOrEmpty, stateBeginStringOrEmpty, stateBeginValue,
      stateBeginString, stateInString, stateInStringEsc, stateInStringEscHex,
      stateNeg, state1, state0, stateDot, stateDot0, stateE, stateESign,
      stateE0, stateLiteral, stateError, stateEndTop, pushParseState,
      scanner_error, set_step, set_parseState;
    unfold err_sound in *;
    repeat match goal with
           | |- context [stateEndValue ?a ?b] =>
               let H := fresh "HE" in
               let s1 := fresh "s1" in
               let o1 := fresh "o1" in
               destruct (stateEndValue a b) as [s1 o1] eqn:H;
               apply stateEndValue_sound in H; unfold err_sound in H
           | |- context [if ?b then _ else _] => destruct b
           end;
    let H := fresh in
    intros H; inversion H; subst; simpl in *; split; try congruence; tauto.
Qed.

Lemma scan_buf_failed (a : bytes) : forall s n e,
  err_sound s -> scan_buf s n a = ScanFailed e -> e <> None.
Proof.
  induction a as [|c a IH]; intros s n e Hs; simpl; [discriminate|].
  destruct (scanner_step s c) as [s1 op] eqn:E.
  destruct (scanner_step_sound _ Hs E) as [Hs1 Herr].
  destruct op; try (apply IH; exact Hs1); try discriminate.
  - destruct (stateEndValue s1 " ") as [s2 op'] eqn:E2.
    destruct (is_scanEnd op'); [discriminate|].
    apply IH. eapply stateEndValue_sound; eauto.
  - destruct (stateEndValue s1 " ") as [s2 op'] eqn:E2.
    destruct (is_scanEnd op'); [discriminate|].
    apply IH. eapply stateEndValue_sound; eauto.
  - intros H; inversion H; subst. now apply Herr.
Qed.

Lemma err_sound_reset : err_sound scanner_reset.
Proof. unfold err_sound. simpl. discriminate. Qed.

Lemma scan_buf_more_state (a : bytes) : forall s n s' n',
  err_sound s -> scan_buf s n a = ScanMore s' n' -> err_sound s'.
Proof.
  induction a as [|c a IH]; intros s n s' n' Hs; simpl.
  - intros H; inversion H; subst; exact Hs.
  - destruct (scanner_step s c) as [s1 op] eqn:E.
    destruct (scanner_step_sound _ Hs E) as [Hs1 Herr].
    destruct op; try (apply IH; exact Hs1); try discriminate;
      destruct (stateEndValue s1 " ") as [s2 op'] eqn:E2;
      (destruct (is_scanEnd op'); [discriminate|]);
      apply IH; eapply stateEndValue_sound; eauto.
Qed.

(** A value takes at least one byte. *)
Lemma scan_buf_reset_ended (a : bytes) m :
  scan_buf scanner_reset 0 a = ScanEnded m -> (1 <= m)%nat.
Proof.
  destruct a as [|c a]; simpl; [discriminate|].
  unfold scanner_step. simpl.
  unfold stateBeginValue, pushParseState, scanner_error, set_step, set_parseState.
  simpl.
  repeat match goal with
         | |- context [if ?b then _ else _] => destruct b
         end; simpl;
    try discriminate;
    intros H; apply scan_buf_ended in H; lia.
Qed.

(** ** Every decoder operation returns

    The lemmas of this section hold for every decoder, whatever its reader
    delivers.  They give what the operations leave alone: no card callback
    is called by the decoder itself, the number of bytes still to consume
    never grows, and a reader without a progress callback leaves the
    caller's state as it is. *)

Section DecoderTotal.
Variable St : Type.
Context {codec : JSONCodec}.

Lemma eff_refl (rd : Reader St) s : eff rd s [] s rd.
Proof. split; [reflexivity|auto]. Qed.

Lemma eff_trans (rd : Reader St) s e1 s1 rd1 e2 s2 rd2 :
  eff rd s e1 s1 rd1 -> eff rd1 s1 e2 s2 rd2 -> eff rd s (e1 ++ e2) s2 rd2.
Proof.
  intros [Hq1 H1] [Hq2 H2]. split; [now apply quiet_app|].
  intros Hs. destruct (H1 Hs) as (-> & -> & Hs1).
  destruct (H2 Hs1) as (-> & -> & Hs2). auto.
Qed.

Lemma Reader_Read_eff (rd : Reader St) s :
  exists evs s' rd',
    Reader_Read rd s = Some (evs, s', (rd', fst (Body_Read (Reader_body rd))))
    /\ Reader_body rd' = snd (Body_Read (Reader_body rd))
    /\ eff rd s evs s' rd'.
Proof.
  destruct rd as [b|pr]; simpl.
  - destruct (Body_Read b) as [res b'] eqn:E. simpl.
    exists [], s, (bodyReader b'). repeat split; auto.
  - unfold progressReader_Read.
    destruct (Body_Read (ReadCloser pr)) as [res b'] eqn:E. simpl.
    destruct (OnRead pr) as [f|] eqn:Ef; simpl.
    + unfold bind, call_progress, ret; simpl.
      eexists _, _, _. split; [reflexivity|]. split; [reflexivity|].
      split; [reflexivity|]. simpl. intros Hn. congruence.
    + unfold bind, ret; simpl.
      eexists _, _, _. split; [reflexivity|]. split; [reflexivity|].
      split; [reflexivity|]. simpl. auto.
Qed.

Lemma Body_Read_size (b : Body) :
  (List.length (fst (fst (Body_Read b))) + Body_size (snd (Body_Read b)))%nat
  = Body_size b.
Proof. destruct b as [|[c e] b]; reflexivity. Qed.

Lemma Body_Read_length (b : Body) :
  snd (fst (Body_Read b)) = None ->
  S (List.length (snd (Body_Read b))) = List.length b.
Proof. destruct b as [|[c e] b]; simpl; [discriminate|reflexivity]. Qed.

Lemma refill_eff (dec : Decoder St) s :
  exists evs s' dec' e,
    refill dec s = Some (evs, s', (dec', e))
    /\ eff (r dec) s evs s' (r dec')
    /\ pending dec' = pending dec
    /\ (exists chunk, buf dec' = buf dec ++ chunk)
    /\ (e = None -> S (List.length (script dec')) = List.length (script dec))
    /\ same_tok dec dec'.
Proof.
  unfold refill, script.
  destruct (Reader_Read_eff (r dec) s) as (evs & s' & rd' & HR & Hb & He).
  unfold bind. rewrite HR.
  pose proof (Body_Read_size (Reader_body (r dec))) as Hsz.
  pose proof (@Body_Read_length (Reader_body (r dec))) as Hlen.
  destruct (fst (Body_Read (Reader_body (r dec)))) as [chunk e] eqn:E.
  simpl. eexists _, _, _, _. split; [reflexivity|]. simpl.
  rewrite app_nil_r. split; [exact He|].
  split; [|split; [now exists chunk|split; [|now repeat split]]].
  - unfold pending. simpl. rewrite Hb, length_app. simpl in Hsz. lia.
  - intros ->. rewrite Hb. now apply Hlen.
Qed.

Lemma dropSpace_pending (dec : Decoder St) b :
  dropSpace (buf dec) = b -> (pending (set_buf dec b) <= pending dec)%nat.
Proof.
  intros <-. unfold pending. simpl.
  pose proof (dropSpace_length (buf dec)). lia.
Qed.

Lemma peek_loop_total : forall fuel (dec : Decoder St) err s,
  (err = None -> (List.length (script dec) < fuel)%nat) ->
  exists evs s' dec' c e,
    peek_loop fuel dec err s = Some (evs, s', (dec', (c, e)))
    /\ eff (r dec) s evs s' (r dec')
    /\ (pending dec' <= pending dec)%nat
    /\ same_tok dec dec'
    /\ (e = None -> exists b, buf dec' = c :: b).
Proof.
  induction fuel as [|fuel IH]; intros dec err s Hf.
  - simpl. destruct (dropSpace (buf dec)) as [|c b] eqn:E.
    + destruct err as [e|]; [|specialize (Hf eq_refl); lia].
      eexists _, _, _, _, _. split; [reflexivity|].
      split; [apply eff_refl|]. split; [lia|]. split; [apply same_tok_refl|].
      discriminate.
    + eexists _, _, _, _, _. split; [reflexivity|].
      split; [apply eff_refl|]. split; [now apply dropSpace_pending|].
      split; [now repeat split|]. intros _. now exists b.
  - simpl. destruct (dropSpace (buf dec)) as [|c b] eqn:E.
    + destruct err as [e|].
      * eexists _, _, _, _, _. split; [reflexivity|].
        split; [apply eff_refl|]. split; [lia|]. split; [apply same_tok_refl|].
        discriminate.
      * destruct (refill_eff dec s)
          as (evs & s1 & dec1 & e1 & HR & He & Hp & _ & Hl & Ht).
        unfold bind. rewrite HR.
        destruct (IH dec1 e1 s1)
          as (evs2 & s2 & dec2 & c & e2 & HP & He2 & Hp2 & Ht2 & Hb2).
        { intros ->. specialize (Hl eq_refl). specialize (Hf eq_refl). lia. }
        rewrite HP. eexists _, _, _, _, _. split; [reflexivity|].
        split; [eapply eff_trans; eauto|]. split; [lia|].
        split; [eapply same_tok_trans; eauto|exact Hb2].
    + eexists _, _, _, _, _. split; [reflexivity|].
      split; [apply eff_refl|]. split; [now apply dropSpace_pending|].
      split; [now repeat split|]. intros _. now exists b.
Qed.

Lemma peek_total (dec : Decoder St) s :
  exists evs s' dec' c e,
    peek dec s = Some (evs, s', (dec', (c, e)))
    /\ eff (r dec) s evs s' (r dec')
    /\ (pending dec' <= pending dec)%nat
    /\ same_tok dec dec'
    /\ (e = None -> exists b, buf dec' = c :: b).
Proof. apply peek_loop_total. intros _. unfold script. lia. Qed.

Lemma More_total (dec : Decoder St) s :
  exists evs s' dec' more,
    More dec s = Some (evs, s', (dec', more))
    /\ eff (r dec) s evs s' (r dec')
    /\ (pending dec' <= pending dec)%nat
    /\ same_tok dec dec'.
Proof.
  destruct (peek_total dec s) as (evs & s' & dec' & c & e & HP & He & Hp & Ht & _).
  unfold More, bind. rewrite HP. simpl.
  eexists _, _, _, _. split; [reflexivity|]. rewrite app_nil_r. auto.
Qed.

Lemma scan_buf_nil_more s n a s' :
  scan_buf s n a = ScanMore s' n -> s' = s.
Proof.
  intros H. pose proof (scan_buf_more _ _ _ H) as Hn.
  destruct a; simpl in *; [now inversion H|lia].
Qed.

Lemma readValue_loop_total : forall fuel (dec : Decoder St) sc n err s,
  (err = None -> (List.length (script dec) < fuel)%nat) ->
  (n <= List.length (buf dec))%nat ->
  (n = O -> sc = scanner_reset) -> err_sound sc ->
  exists evs s' dec' m e,
    readValue_loop fuel dec sc n err s = Some (evs, s', (dec', (m, e)))
    /\ eff (r dec) s evs s' (r dec')
    /\ pending dec' = pending dec
    /\ tokenState dec' = tokenState dec /\ tokenStack dec' = tokenStack dec
    /\ (e = None ->
        (1 <= m <= List.length (buf dec'))%nat /\ dec_err dec' = dec_err dec).
Proof.
  induction fuel as [|fuel IH]; intros dec sc n err s Hf Hn Hreset Hsound.
  all: simpl;
    destruct (scan_buf sc n (skipn n (buf dec))) as [m|e|s1 n1] eqn:E.
  all: try (eexists _, _, _, _, _; split; [reflexivity|];
            split; [apply eff_refl|]; split; [reflexivity|];
            split; [reflexivity|]; split; [reflexivity|]).
  all: try (intros _; split; [|reflexivity];
            pose proof (scan_buf_ended _ _ _ E) as Hm;
            rewrite length_skipn in Hm;
            destruct n; [|lia];
            rewrite (Hreset eq_refl) in E; simpl in E;
            apply scan_buf_reset_ended in E; lia).
  all: try (intros ->; exfalso; eapply scan_buf_failed; eauto).
  all: pose proof (scan_buf_more _ _ _ E) as Hn1;
    rewrite length_skipn in Hn1;
    assert (Hs1 : err_sound s1) by (eapply scan_buf_more_state; eauto);
    assert (Hr1 : n1 = O -> s1 = scanner_reset)
      by (intros Hz; assert (Hn0 : n = O) by lia;
          assert (Hnil : skipn n (buf dec) = [])
            by (apply length_zero_iff_nil; rewrite length_skipn; lia);
          rewrite Hnil in E; simpl in E; inversion E; subst; auto).
  all: destruct err as [e0|].
  all: try (destruct (is_EOF e0);
            [destruct (is_scanEnd (snd (scanner_step s1 " "))) eqn:Eend|];
            eexists _, _, _, _, _; (split; [reflexivity|]);
            (split; [apply eff_refl|]); (split; [reflexivity|]);
            (split; [reflexivity|]); (split; [reflexivity|]);
            try discriminate;
            intros _; split; [|reflexivity];
            destruct n1; [rewrite (Hr1 eq_refl) in Eend; discriminate|lia]).
  - specialize (Hf eq_refl). lia.
  - destruct (refill_eff dec s)
      as (evs & s2 & dec2 & e2 & HR & He & Hp & (chunk & Hb) & Hl & (Ht1 & Ht2 & Ht3)).
    unfold bind. rewrite HR.
    destruct (IH dec2 s1 n1 e2 s2)
      as (evs3 & s3 & dec3 & m & e3 & HL & He3 & Hp3 & Hts3 & Hstk3 & Hok).
    { intros ->. specialize (Hl eq_refl). specialize (Hf eq_refl). lia. }
    { rewrite Hb, length_app. lia. }
    { exact Hr1. }
    { exact Hs1. }
    rewrite HL. eexists _, _, _, _, _. split; [reflexivity|].
    split; [eapply eff_trans; eauto|]. split; [lia|].
    split; [congruence|]. split; [congruence|].
    intros He3'. destruct (Hok He3'). split; [auto|congruence].
Qed.

Lemma readValue_total (dec : Decoder St) s :
  exists evs s' dec' m e,
    readValue dec s = Some (evs, s', (dec', (m, e)))
    /\ eff (r dec) s evs s' (r dec')
    /\ pending dec' = pending dec
    /\ tokenState dec' = tokenState dec /\ tokenStack dec' = tokenStack dec
    /\ (e = None ->
        (1 <= m <= List.length (buf dec'))%nat /\ dec_err dec' = dec_err dec).
Proof.
  apply readValue_loop_total.
  - intros _. unfold script. lia.
  - lia.
  - reflexivity.
  - apply err_sound_reset.
Qed.

Lemma tokenPrepareForDecode_total (dec : Decoder St) s :
  exists evs s' dec' e,
    tokenPrepareForDecode dec s = Some (evs, s', (dec', e))
    /\ eff (r dec) s evs s' (r dec')
    /\ (pending dec' <= pending dec)%nat
    /\ tokenStack dec' = tokenStack dec /\ dec_err dec' = dec_err dec
    /\ (e = None -> tokenState dec' = state_after_prepare (tokenState dec)).
Proof.
  assert (Hplain : exists evs s' dec' e,
             ret (dec, @None error) s = Some (evs, s', (dec', e))
             /\ eff (r dec) s evs s' (r dec')
             /\ (pending dec' <= pending dec)%nat
             /\ tokenStack dec' = tokenStack dec /\ dec_err dec' = dec_err dec
             /\ (e = None -> tokenState dec' = tokenState dec)).
  { eexists _, _, _, _. split; [reflexivity|].
    split; [apply eff_refl|]. auto. }
  assert (Hpeek : forall want msg t,
             exists evs s' dec' e,
               ('(dec, (c, err)) <- peek dec ;;
                match err with
                | Some e => ret (dec, Some e)
                | None =>
                    if negb (c =? want)%char
                    then ret (dec, Some (json_SyntaxError msg))
                    else ret (set_tokenState (set_buf dec (tl (buf dec))) t, None)
                end) s = Some (evs, s', (dec', e))
               /\ eff (r dec) s evs s' (r dec')
               /\ (pending dec' <= pending dec)%nat
               /\ tokenStack dec' = tokenStack dec /\ dec_err dec' = dec_err dec
               /\ (e = None -> tokenState dec' = t)).
  { intros want msg t.
    destruct (peek_total dec s)
      as (evs & s' & dec' & c & e & HP & He & Hp & (Ht1 & Ht2 & Ht3) & Hb).
    unfold bind. rewrite HP.
    destruct e as [e|]; simpl.
    - eexists _, _, _, _. split; [reflexivity|]. rewrite app_nil_r.
      split; [exact He|]. split; [exact Hp|]. split; [exact Ht2|].
      split; [exact Ht3|]. discriminate.
    - destruct (negb (c =? want)%char); simpl.
      + eexists _, _, _, _. split; [reflexivity|]. rewrite app_nil_r.
        split; [exact He|]. split; [exact Hp|]. split; [exact Ht2|].
        split; [exact Ht3|]. discriminate.
      + eexists _, _, _, _. split; [reflexivity|]. rewrite app_nil_r.
        split; [exact He|]. split; [|split; [exact Ht2|split; [exact Ht3|reflexivity]]].
        destruct (Hb eq_refl) as (b & Hbuf).
        unfold pending in *. simpl. rewrite Hbuf in *. simpl in *. lia. }
  unfold tokenPrepareForDecode.
  destruct (tokenState dec) eqn:E; simpl; try exact Hplain; apply Hpeek.
Qed.

Lemma firstn_skipn_pending (dec : Decoder St) m :
  (1 <= m <= List.length (buf dec))%nat ->
  (pending (set_buf dec (skipn m (buf dec))) < pending dec)%nat.
Proof. intros H. unfold pending. simpl. rewrite length_skipn. lia. Qed.

Lemma Decode_total {A} (zero : A) um (dec : Decoder St) s :
  exists evs s' dec' v e,
    Decode zero um dec s = Some (evs, s', (dec', (v, e)))
    /\ eff (r dec) s evs s' (r dec')
    /\ (pending dec' <= pending dec)%nat
    /\ tokenStack dec' = tokenStack dec
    /\ (e = None ->
        (pending dec' < pending dec)%nat
        /\ tokenState dec' = state_after_Decode (tokenState dec)).
Proof.
  unfold Decode.
  destruct (dec_err dec) as [e0|] eqn:Ee.
  { eexists _, _, _, _, _. split; [reflexivity|].
    split; [apply eff_refl|]. split; [lia|]. split; [reflexivity|discriminate]. }
  destruct (tokenPrepareForDecode_total dec s)
    as (evs & s1 & dec1 & e1 & HP & He1 & Hp1 & Hstk1 & Herr1 & Hts1).
  unfold bind at 1. rewrite HP.
  destruct e1 as [e1|]; simpl.
  { eexists _, _, _, _, _. split; [reflexivity|]. rewrite app_nil_r.
    split; [exact He1|]. split; [exact Hp1|]. split; [exact Hstk1|discriminate]. }
  specialize (Hts1 eq_refl).
  destruct (tokenValueAllowed dec1) eqn:Ea; simpl.
  2:{ eexists _, _, _, _, _. split; [reflexivity|]. rewrite app_nil_r.
      split; [exact He1|]. split; [exact Hp1|]. split; [exact Hstk1|discriminate]. }
  destruct (readValue_total dec1 s1)
    as (evs2 & s2 & dec2 & m & e2 & HR & He2 & Hp2 & Hts2 & Hstk2 & Hok).
  unfold bind. rewrite HR.
  destruct e2 as [e2|]; simpl.
  { eexists _, _, _, _, _. split; [reflexivity|]. rewrite app_nil_r.
    split; [eapply eff_trans; eauto|].
    split; [lia|]. split; [congruence|discriminate]. }
  destruct (Hok eq_refl) as [Hm Herr2].
  destruct (um (dropSpace (firstn m (buf dec2)))) as [v e3]. simpl.
  match goal with |- context [tokenValueEnd ?d] =>
    destruct (tokenValueEnd_frame d) as (Hfb & Hfr & Hfs & Hfe);
    assert (Hpd : pending (tokenValueEnd d) = pending d)
      by (unfold pending; now rewrite Hfb, Hfr)
  end.
  pose proof (firstn_skipn_pending dec2 Hm) as Hlt.
  eexists _, _, _, _, _. split; [reflexivity|]. rewrite app_nil_r.
  split; [|split; [|split; [|intros _; split]]].
  - rewrite Hfr. simpl. eapply eff_trans; eauto.
  - rewrite Hpd. lia.
  - rewrite Hfs. simpl. congruence.
  - rewrite Hpd. lia.
  - unfold tokenValueEnd. simpl. rewrite Hts2, Hts1.
    unfold tokenValueAllowed in Ea. rewrite Hts1 in Ea.
    destruct (tokenState dec); simpl in *; try reflexivity; try discriminate;
      congruence.
Qed.

(** *** Token *)

Lemma tok_ok_prepend (dec dec1 : Decoder St) s evs s1 x :
  eff (r dec) s evs s1 (r dec1) -> (pending dec1 <= pending dec)%nat ->
  tok_ok dec1 s1 x -> tok_ok dec s (prepend evs x).
Proof.
  intros He Hp (evs2 & s2 & dec2 & t & e & -> & He2 & Hp2 & Hd).
  exists (evs ++ evs2), s2, dec2, t, e. simpl. split; [reflexivity|].
  split; [eapply eff_trans; eauto|]. split; [lia|exact Hd].
Qed.

Lemma tok_ok_shift (dec dec1 : Decoder St) s x :
  r dec1 = r dec -> (pending dec1 <= pending dec)%nat ->
  tok_ok dec1 s x -> tok_ok dec s x.
Proof.
  intros Hr Hp (evs2 & s2 & dec2 & t & e & -> & He2 & Hp2 & Hd).
  exists evs2, s2, dec2, t, e. split; [reflexivity|].
  rewrite <- Hr. split; [exact He2|]. split; [lia|exact Hd].
Qed.

Lemma tok_ok_error (dec : Decoder St) s e :
  tok_ok dec s (ret (dec, (noToken, Some e)) s).
Proof.
  eexists _, _, _, _, _. split; [reflexivity|]. split; [apply eff_refl|].
  split; [lia|discriminate].
Qed.

Lemma pending_tl (dec : Decoder St) :
  (pending (set_buf dec (tl (buf dec))) <= pending dec)%nat.
Proof. unfold pending. simpl. destruct (buf dec); simpl; lia. Qed.

Lemma token_push_ok (dec : Decoder St) c t s :
  (t = tokenArrayStart \/ (c =? "[")%char = false) ->
  tok_ok dec s (token_push dec c t s).
Proof.
  intros Hc. unfold token_push.
  destruct (negb (tokenValueAllowed dec)); [apply tok_ok_error|].
  eexists _, _, _, _, _. split; [reflexivity|]. split; [apply eff_refl|].
  split; [apply pending_tl|].
  intros _ Hd. simpl in *. destruct Hc as [-> | Hc]; [split; [reflexivity|discriminate]|].
  congruence.
Qed.

Lemma token_pop_ok (dec : Decoder St) c s :
  tokenStack dec <> [] -> (c =? "[")%char = false ->
  tok_ok dec s (token_pop dec c s).
Proof.
  intros Hs Hc. unfold token_pop.
  destruct (tokenStack dec) as [|t st]; [congruence|].
  match goal with |- context [tokenValueEnd ?d] =>
    destruct (tokenValueEnd_frame d) as (Hfb & Hfr & _)
  end.
  eexists _, _, _, _, _. split; [reflexivity|].
  rewrite Hfr. simpl. split; [apply eff_refl|].
  split.
  - unfold pending. rewrite Hfb, Hfr. simpl. destruct (buf dec); simpl; lia.
  - intros _ Hd. simpl in Hd. congruence.
Qed.

Lemma token_value_ok (dec : Decoder St) c s : tok_ok dec s (token_value dec c s).
Proof.
  unfold token_value.
  destruct (negb (tokenValueAllowed dec)); [apply tok_ok_error|].
  destruct (Decode_total any_nil decode_any dec s)
    as (evs & s' & dec' & v & e & HD & He & Hp & _).
  unfold bind. rewrite HD.
  destruct e as [e|]; simpl;
    (eexists _, _, _, _, _; split; [reflexivity|]; rewrite app_nil_r;
     split; [exact He|]; split; [exact Hp|]; discriminate).
Qed.

Lemma token_key_ok (dec : Decoder St) s :
  tok_ok dec s
    (('(dec', (x, err)) <-
        Decode EmptyString decode_string (set_tokenState dec tokenTopValue) ;;
      match err with
      | Some e => ret (set_tokenState dec' tokenObjectStart, (noToken, Some e))
      | None => ret (set_tokenState dec' tokenObjectColon, (TokString x, None))
      end) s).
Proof.
  destruct (Decode_total EmptyString decode_string
              (set_tokenState dec tokenTopValue) s)
    as (evs & s' & dec' & v & e & HD & He & Hp & _).
  unfold bind. rewrite HD.
  destruct e as [e|]; simpl;
    (eexists _, _, _, _, _; split; [reflexivity|]; rewrite app_nil_r;
     split; [exact He|]; split; [exact Hp|]; discriminate).
Qed.

Lemma Token_loop_total : forall fuel (dec : Decoder St) s,
  stack_ok dec -> (fuel = O -> needs_round (tokenState dec) = false) ->
  tok_ok dec s (Token_loop fuel dec s).
Proof.
  induction fuel as [|fuel IH]; intros dec s Hstk Hfuel.
  all: destruct (peek_total dec s)
      as (evs & s1 & dec1 & c & e & HP & He & Hp & (Ht1 & Ht2 & Ht3) & Hb).
  all: assert (Hstk1 : stack_ok dec1)
      by (unfold stack_ok in *; rewrite Ht1, Ht2; exact Hstk).
  all: simpl; unfold bind at 1; rewrite HP; simpl.
  all: match goal with
       | |- tok_ok _ _ (match ?x with _ => _ end) =>
           change (tok_ok dec s (prepend evs x))
       end.
  all: apply (@tok_ok_prepend dec dec1 s evs s1 _ He Hp).
  all: destruct e as [e|]; [apply tok_ok_error|].
  all: destruct (c =? "[")%char eqn:E1;
    [apply token_push_ok; now left|].
  all: unfold stack_ok in Hstk1.
  all: destruct (c =? "]")%char eqn:E2;
    [destruct (tokenState dec1); try apply tok_ok_error;
     apply token_pop_ok; assumption|].
  all: destruct (c =? "{")%char eqn:E3;
    [apply token_push_ok; now right|].
  all: destruct (c =? "}")%char eqn:E4;
    [destruct (tokenState dec1); try apply tok_ok_error;
     apply token_pop_ok; assumption|].
  all: destruct (c =? ":")%char eqn:E5.
  all: try (destruct (c =? ",")%char eqn:E6).
  all: try (destruct (c =? "034")%char eqn:E7).
  all: rewrite <- Ht1 in Hfuel.
  all: destruct (tokenState dec1) eqn:Ets;
    try apply tok_ok_error; try apply token_value_ok; try apply token_key_ok.
  all: try (specialize (Hfuel eq_refl); discriminate).
  all: (eapply tok_ok_shift; [| |apply IH]);
    [reflexivity|apply pending_tl|unfold stack_ok; simpl; try exact I; assumption
    |simpl; intros _; reflexivity].
Qed.

Lemma Token_total (dec : Decoder St) s :
  stack_ok dec -> tok_ok dec s (Token dec s).
Proof. intros H. apply Token_loop_total; [exact H|discriminate]. Qed.

(** *** The loop and the whole of [ProcessBulkDataStream] *)

Lemma loop_trace_cons c calls early :
  loop_trace calls early -> loop_trace ((c, None) :: calls) early.
Proof.
  intros [[Ha He] | (l & c' & e & -> & Ha & He)].
  - left. split; [constructor; auto|exact He].
  - right. exists ((c, None) :: l), c', e. split; [reflexivity|].
    split; [constructor; auto|exact He].
Qed.

Lemma cards_loop_total (cb : CardCallback St) :
  forall fuel (dec : Decoder St) s,
  (pending dec <= fuel)%nat -> array_state dec ->
  exists evs s' dec' early,
    cards_loop fuel dec cb s = Some (evs, s', (dec', early))
    /\ loop_trace (card_calls evs) early
    /\ (early = None -> array_state dec' /\ tokenStack dec' = tokenStack dec)
    /\ (silent (r dec) ->
        s' = replay cb (card_calls evs) s /\ silent (r dec')).
Proof.
  induction fuel as [|fuel IH]; intros dec s Hf Ha.
  all: rewrite cards_loop_unfold.
  all: destruct (More_total dec s)
      as (evs1 & s1 & dec1 & more & HM & [Hq1 He1] & Hp1 & (Ht1 & Ht2 & Ht3)).
  all: unfold bind at 1; rewrite HM; simpl.
  all: destruct more;
    [|eexists _, _, _, _; (split; [reflexivity|]);
      rewrite app_nil_r; rewrite Hq1;
      (split; [left; split; [constructor|now left]|]);
      (split; [intros _; unfold array_state; rewrite Ht1, Ht2; auto|]);
      intros Hs; destruct (He1 Hs) as (-> & _ & Hs1); auto].
  all: destruct (Decode_total zeroCard decode_Card dec1 s1)
      as (evs2 & s2 & dec2 & card & e2 & HD & [Hq2 He2] & Hp2 & Hstk2 & Hok2).
  all: unfold bind at 1; rewrite HD; simpl.
  all: destruct e2 as [e2|];
    [eexists _, _, _, _; (split; [reflexivity|]);
     rewrite app_nil_r, card_calls_app; rewrite Hq1, Hq2;
     (split; [left; split; [constructor|right; now exists e2]|]);
     (split; [discriminate|]);
     intros Hs; destruct (He1 Hs) as (-> & _ & Hs1);
     destruct (He2 Hs1) as (-> & _ & Hs2); auto|].
  all: destruct (Hok2 eq_refl) as [Hlt Hts2].
  all: unfold bind at 1, call_card.
  all: destruct (cb card s2) as [s3 ret3] eqn:Ecb.
  all: destruct ret3 as [e3|]; simpl;
    [eexists _, _, _, _; (split; [reflexivity|]);
     rewrite !card_calls_app; rewrite Hq1, Hq2; simpl;
     (split; [right; exists [], card, e3; repeat split; constructor|]);
     (split; [discriminate|]);
     intros Hs; destruct (He1 Hs) as (-> & _ & Hs1);
     destruct (He2 Hs1) as (-> & _ & Hs2);
     unfold replay; simpl; rewrite Ecb; auto|].
  - lia.
  - destruct (IH dec2 s3) as (evs4 & s4 & dec4 & early & HL & Htr & Harr & Hsil).
    + lia.
    + unfold array_state. rewrite Hts2, Ht1.
      destruct Ha as [-> | ->]; right; reflexivity.
    + rewrite HL. eexists _, _, _, _. split; [reflexivity|].
      rewrite !card_calls_app. rewrite Hq1, Hq2. simpl.
      split; [now apply loop_trace_cons|].
      split.
      * intros Hn. destruct (Harr Hn) as [H1 H2]. split; [exact H1|congruence].
      * intros Hs. destruct (He1 Hs) as (-> & _ & Hs1).
        destruct (He2 Hs1) as (-> & _ & Hs2).
        destruct (Hsil Hs2) as [-> Hs4]. split; [|exact Hs4].
        unfold replay. simpl. now rewrite Ecb.
Qed.

Lemma ProcessBulkDataStream_total (reader : Reader St) cb s :
  exists evs s' res,
    ProcessBulkDataStream reader cb s = Some (evs, s', res)
    /\ run_trace (card_calls evs) res
    /\ (silent reader -> s' = replay cb (card_calls evs) s).
Proof.
  unfold ProcessBulkDataStream.
  destruct (@Token_total (NewDecoder reader) s I)
    as (evs0 & s0 & dec0 & t & e & HT & [Hq0 He0] & Hp0 & Hd0).
  unfold bind at 1. rewrite HT. simpl.
  destruct e as [e|].
  { eexists _, _, _. split; [reflexivity|]. rewrite app_nil_r, Hq0.
    split; [left; split; [constructor|right; eexists; split; [reflexivity|constructor]]|].
    intros Hs. now destruct (He0 Hs) as (-> & _ & _). }
  destruct (is_delim t "[") eqn:Ed; simpl.
  2:{ eexists _, _, _. split; [reflexivity|]. rewrite app_nil_r, Hq0.
      split; [left; split; [constructor|right; eexists; split; [reflexivity|constructor]]|].
      intros Hs. now destruct (He0 Hs) as (-> & _ & _). }
  destruct (Hd0 eq_refl eq_refl) as [Hts0 Hstk0].
  destruct (@cards_loop_total cb (pending dec0) dec0 s0 (le_n _) (or_introl Hts0))
    as (evs1 & s1 & dec1 & early & HL & Htr & Harr & Hsil).
  unfold bind at 1. rewrite HL. simpl.
  destruct early as [e1|].
  { eexists _, _, _. split; [reflexivity|].
    rewrite app_nil_r, card_calls_app, Hq0. simpl.
    split.
    - destruct Htr as [[Ha [He1|(e' & He1)]] | (l & c & e' & Hc & Ha & He1)].
      + discriminate.
      + left. split; [exact Ha|]. right. exists e1. split; [reflexivity|].
        inversion He1. constructor.
      + right. exists l, c, e'. auto.
    - intros Hs. destruct (He0 Hs) as (-> & _ & Hs0).
      now destruct (Hsil Hs0) as [-> _]. }
  destruct (Harr eq_refl) as [Harr1 Hstk1].
  assert (Hok1 : stack_ok dec1).
  { unfold stack_ok. destruct Harr1 as [-> | ->]; congruence. }
  destruct (@Token_total dec1 s1 Hok1)
    as (evs2 & s2 & dec2 & t2 & e2 & HT2 & [Hq2 He2] & Hp2 & Hd2).
  unfold bind at 1. rewrite HT2. simpl.
  assert (Hcalls : card_calls (evs0 ++ evs1 ++ evs2 ++ []) = card_calls evs1).
  { rewrite !card_calls_app, Hq0, Hq2. simpl. now rewrite app_nil_r. }
  assert (Hacc : all_accepted (card_calls evs1)).
  { destruct Htr as [[Ha _] | (l & c & e' & _ & _ & He1)]; [exact Ha|discriminate]. }
  assert (Hst : silent reader -> s2 = replay cb (card_calls evs1) s).
  { intros Hs. destruct (He0 Hs) as (-> & _ & Hs0).
    destruct (Hsil Hs0) as [-> Hs1]. now destruct (He2 Hs1) as (-> & _ & _). }
  destruct e2 as [e2|]; [|destruct (negb (is_delim t2 "]"))]; simpl;
    (eexists _, _, _; split; [reflexivity|]; rewrite Hcalls;
     split; [left; split; [exact Hacc|]|exact Hst]).
  - right. eexists. split; [reflexivity|constructor].
  - right. eexists. split; [reflexivity|constructor].
  - now left.
Qed.

End DecoderTotal.

(** * Part IV: the operations of the client *)

(** ** The calls of the card callback are calls it answered *)

Section Genuine.
Variable St : Type.
Context {codec : JSONCodec}.

Lemma genuine_app (cb : CardCallback St) l1 l2 :
  genuine cb l1 -> genuine cb l2 -> genuine cb (l1 ++ l2).
Proof. unfold genuine. intros H1 H2. apply Forall_app. now split. Qed.

Lemma cards_loop_genuine (cb : CardCallback St) :
  forall fuel (dec : Decoder St) s evs s' x,
  cards_loop fuel dec cb s = Some (evs, s', x) ->
  genuine cb (card_calls evs).
Proof.
  induction fuel as [|fuel IH]; intros dec s evs s' x.
  all: rewrite cards_loop_unfold.
  all: destruct (More_total dec s)
      as (evs1 & s1 & dec1 & more & HM & [Hq1 _] & _).
  all: unfold bind at 1; rewrite HM; simpl.
  all: destruct more;
    [|intros H; inversion H; subst; rewrite app_nil_r, Hq1; constructor].
  all: destruct (Decode_total zeroCard decode_Card dec1 s1)
      as (evs2 & s2 & dec2 & card & e2 & HD & [Hq2 _] & _).
  all: unfold bind at 1; rewrite HD; simpl.
  all: destruct e2 as [e2|];
    [intros H; inversion H; subst;
     rewrite app_nil_r, card_calls_app, Hq1, Hq2; constructor|].
  all: unfold bind at 1, call_card.
  all: destruct (cb card s2) as [s3 ret3] eqn:Ecb.
  all: assert (Hcall : genuine cb [(card, ret3)])
    by (constructor; [exists s2; simpl; now rewrite Ecb|constructor]).
  all: destruct ret3 as [e3|]; simpl;
    [intros H; inversion H; subst;
     rewrite !card_calls_app, Hq1, Hq2; simpl; exact Hcall|].
  - discriminate.
  - destruct (cards_loop fuel dec2 cb s3) as [[[evs4 s4] x4]|] eqn:HL;
      [|discriminate].
    intros H. inversion H; subst.
    rewrite !card_calls_app, Hq1, Hq2. simpl.
    apply (genuine_app (l1 := [(card, None)])); [exact Hcall|].
    eapply IH. exact HL.
Qed.

Lemma ProcessBulkDataStream_genuine (reader : Reader St) cb s evs s' res :
  ProcessBulkDataStream reader cb s = Some (evs, s', res) ->
  genuine cb (card_calls evs).
Proof.
  unfold ProcessBulkDataStream.
  destruct (@Token_total _ _ (NewDecoder reader) s I)
    as (evs0 & s0 & dec0 & t & e & HT & [Hq0 _] & _ & Hd0).
  unfold bind at 1. rewrite HT. simpl.
  destruct e as [e|].
  { intros H. inversion H; subst. rewrite app_nil_r, Hq0. constructor. }
  destruct (is_delim t "[") eqn:Ed; simpl.
  2:{ intros H. inversion H; subst. rewrite app_nil_r, Hq0. constructor. }
  destruct (Hd0 eq_refl eq_refl) as [Hts0 Hstk0].
  destruct (@cards_loop_total _ _ cb (pending dec0) dec0 s0 (le_n _)
              (or_introl Hts0))
    as (evs1 & s1 & dec1 & early & HL & _ & Harr & _).
  pose proof (cards_loop_genuine _ _ _ _ HL) as Hg.
  unfold bind at 1. rewrite HL. simpl.
  destruct early as [e1|].
  { intros H. inversion H; subst.
    now rewrite app_nil_r, card_calls_app, Hq0. }
  destruct (Harr eq_refl) as [Harr1 Hstk1].
  assert (Hok1 : stack_ok dec1).
  { unfold stack_ok. destruct Harr1 as [-> | ->]; congruence. }
  destruct (@Token_total _ _ dec1 s1 Hok1)
    as (evs2 & s2 & dec2 & t2 & e2 & HT2 & [Hq2 _] & _).
  unfold bind at 1. rewrite HT2. simpl.
  assert (Hcalls : card_calls (evs0 ++ evs1 ++ evs2 ++ []) = card_calls evs1).
  { rewrite !card_calls_app, Hq0, Hq2. simpl. now rewrite app_nil_r. }
  destruct e2 as [e2|]; [|destruct (negb (is_delim t2 "]"))]; simpl;
    intros H; inversion H; subst; now rewrite Hcalls.
Qed.


Lemma accepted_length (its : list item) :
  List.length (accepted its) = List.length its.
Proof. unfold accepted. apply length_map. Qed.


End Genuine.

(** ** [ProcessBulkDataStream] *)

Section StreamClaims.
Variable St : Type.
Context {codec : JSONCodec}.





(** C4: on a stream whose array holds k well-formed records and then,
    where the next element would stand, a text the scanner rejects with
    [e], with a callback that accepts every record, [ProcessBulkDataStream]
    fails with [decode card object: e], a malformed-payload error that
    wraps the decoder's, after the k records have been handed to the
    callback in order; the state the callback left stays as it is. *)
Theorem ProcessBulkDataStream_invalid_element (reader : Reader St)
    (cb : CardCallback St) s chunks rest lead0 its ld pr c bad e junk :
  Reader_body reader = clean chunks ++ rest ->
  concat chunks
  = lead0 ++ "["%char :: items_text true its
    ++ bad_tail (match its with [] => true | _ => false end) ld pr (c :: bad)
    ++ junk ->
  blank lead0 = true -> well_formed its ->
  blank ld = true -> blank pr = true ->
  (its = [] -> more_byte c = true) ->
  scan_buf scanner_reset 0 (c :: bad) = ScanFailed (Some e) ->
  (forall card st, snd (cb card st) = None) ->
  exists evs s',
    ProcessBulkDataStream reader cb s
    = Some (evs, s', Some (wrapError "decode card object: " e))
    /\ card_calls evs = map (fun it => (card_of it, None)) its
    /\ List.length (card_calls evs) = List.length its
    /\ MalformedPayload (wrapError "decode card object: " e)
    /\ (silent reader -> s' = replay cb (card_calls evs) s).
Proof.
  intros Hrd Hcat Hlead Hwf Hld Hpr Hc Hbad Hcb.
  destruct (ProcessBulkDataStream_total reader cb s)
    as (evs0 & s0 & res0 & Hrun0 & _ & Hsil).
  destruct (@ProcessBulkDataStream_bad St codec reader cb s chunks rest
              lead0 its ld pr c bad e junk Hrd Hcat Hlead Hwf Hld Hpr Hc Hbad)
    as [(evs & s' & Hrun & Hcalls)
       | (evs & s' & e' & l1 & it & l2 & _ & _ & _ & st & Hst)].
  - exists evs, s'. split; [exact Hrun|].
    split; [exact Hcalls|].
    split; [rewrite Hcalls; apply accepted_length|].
    split; [constructor|].
    rewrite Hrun in Hrun0. inversion Hrun0; subst. exact Hsil.
  - rewrite Hcb in Hst. discriminate.
Qed.

End StreamClaims.

(** ** [progressReader.Read] *)

Lemma running_length cur sizes :
  List.length (running cur sizes) = List.length sizes.
Proof.
  revert cur. induction sizes as [|k l IH]; intros cur; simpl;
    [reflexivity|now rewrite IH].
Qed.

Lemma running_ge cur sizes :
  Forall (fun t => cur <= t)%Z (running cur sizes).
Proof.
  revert cur. induction sizes as [|k l IH]; intros cur; simpl; constructor.
  - lia.
  - eapply Forall_impl; [|apply IH]. simpl. intros t Ht. lia.
Qed.

Lemma running_sorted cur sizes : StronglySorted Z.le (running cur sizes).
Proof.
  revert cur. induction sizes as [|k l IH]; intros cur; simpl; constructor.
  - apply IH.
  - apply running_ge.
Qed.

Lemma running_gt cur sizes :
  Forall (fun k => 0 < k)%nat sizes ->
  Forall (fun t => cur < t)%Z (running cur sizes).
Proof.
  revert cur. induction sizes as [|k l IH]; intros cur Hpos; simpl;
    constructor; inversion Hpos; subst.
  - lia.
  - eapply Forall_impl; [|apply IH; assumption]. simpl. intros t Ht. lia.
Qed.

Lemma running_strict cur sizes :
  Forall (fun k => 0 < k)%nat sizes ->
  StronglySorted Z.lt (running cur sizes).
Proof.
  revert cur. induction sizes as [|k l IH]; intros cur Hpos; simpl;
    constructor; inversion Hpos; subst.
  - now apply IH.
  - eapply Forall_impl; [|apply running_gt; assumption]. simpl. lia.
Qed.

Lemma last_default (l : list Z) d d' : l <> [] -> last l d = last l d'.
Proof.
  induction l as [|x l IH]; [congruence|]. intros _.
  destruct l as [|y l]; [reflexivity|].
  change (last (y :: l) d = last (y :: l) d'). apply IH. discriminate.
Qed.

Lemma last_cons (x : Z) l d : last (x :: l) d = last l x.
Proof.
  destruct l as [|y l]; [reflexivity|].
  change (last (y :: l) d = last (y :: l) x). apply last_default. discriminate.
Qed.

Lemma running_last cur sizes :
  last (running cur sizes) cur = (cur + Z.of_nat (list_sum sizes))%Z.
Proof.
  revert cur. induction sizes as [|k l IH]; intros cur.
  - simpl. lia.
  - change (running cur (k :: l))
      with ((cur + Z.of_nat k)%Z :: running (cur + Z.of_nat k) l).
    rewrite last_cons, IH. simpl list_sum. lia.
Qed.

Lemma list_sum_cons k l : list_sum (k :: l) = (k + list_sum l)%nat.
Proof. reflexivity. Qed.

Lemma int64_small z : (0 <= z < 2 ^ 63)%Z -> int64 z = z.
Proof.
  intros H. unfold int64. rewrite Z.mod_small; lia.
Qed.

Section ProgressClaims.
Variable St : Type.

Lemma read_times_spec (f : ProgressFunc St) :
  forall n (r : progressReader St) s,
  OnRead r = Some f ->
  (0 <= Current r)%Z ->
  (Current r + Z.of_nat (list_sum (read_sizes (Body_reads n (ReadCloser r))))
   < 2 ^ 63)%Z ->
  exists s' r',
    read_times n r s
    = Some (map (fun t => EvProgress t (Total r))
              (running (Current r) (read_sizes (Body_reads n (ReadCloser r)))),
            s', (r', Body_reads n (ReadCloser r)))
    /\ Current r'
       = (Current r
          + Z.of_nat (list_sum (read_sizes (Body_reads n (ReadCloser r)))))%Z.
Proof.
  induction n as [|n IH]; intros r s Hf H0 Hsum.
  - simpl. exists s, r. split; [reflexivity|lia].
  - change (Body_reads (S n) (ReadCloser r))
      with (fst (Body_Read (ReadCloser r))
            :: Body_reads n (snd (Body_Read (ReadCloser r)))) in *.
    cbn [read_times]. unfold bind at 1. unfold progressReader_Read.
    destruct (Body_Read (ReadCloser r)) as [res b'] eqn:ER.
    cbn [fst snd] in *.
    unfold read_sizes in *. cbn [map running] in *.
    rewrite list_sum_cons, Nat2Z.inj_add in Hsum.
    rewrite list_sum_cons, Nat2Z.inj_add.
    rewrite Hf. unfold bind at 1. unfold call_progress, ret.
    unfold bytes in *.
    rewrite int64_small by lia.
    unfold bind at 1.
    match goal with
    | |- context [read_times n ?r1 ?s1] =>
        destruct (IH r1 s1) as (s' & r' & Hrun & Hcur);
          [reflexivity|cbn [Current]; lia|cbn [Current ReadCloser]; lia|]
    end.
    rewrite Hrun. cbn [Current ReadCloser Total] in *.
    exists s', r'.
    split; [cbn [app]; rewrite app_nil_r; reflexivity|].
    rewrite Hcur. lia.
Qed.

Lemma progress_calls_running total l :
  progress_calls (map (fun t => EvProgress t total) l)
  = map (fun t => (t, total)) l.
Proof. induction l as [|t l IH]; simpl; [reflexivity|now rewrite <- IH]. Qed.

(** C9, amended: through a reader that was given a progress callback and
    starts at zero, n reads return what the underlying stream returns and
    call the callback n times, once after every read, the zero-byte reads
    at the end of the stream among them, each time with the bytes read so
    far and the declared total; the running totals never decrease, they
    increase strictly when every read delivers a byte, and the last one is
    the number of bytes read from the underlying stream (as long as that
    number fits an int64). *)
Theorem progressReader_reports_totals (f : ProgressFunc St) n
    (r : progressReader St) s :
  OnRead r = Some f ->
  Current r = 0%Z ->
  (Z.of_nat (list_sum (read_sizes (Body_reads n (ReadCloser r)))) < 2 ^ 63)%Z ->
  let results := Body_reads n (ReadCloser r) in
  let totals := running 0 (read_sizes results) in
  exists evs s' r',
    read_times n r s = Some (evs, s', (r', results))
    /\ progress_calls evs = map (fun t => (t, Total r)) totals
    /\ List.length (progress_calls evs) = n
    /\ StronglySorted Z.le totals
    /\ (Forall (fun k => 0 < k)%nat (read_sizes results) ->
        StronglySorted Z.lt totals)
    /\ last totals 0%Z = Z.of_nat (list_sum (read_sizes results))
    /\ Current r' = Z.of_nat (list_sum (read_sizes results)).
Proof.
  intros Hf Hc Hsum results totals.
  destruct (@read_times_spec f n r s Hf) as (s' & r' & Hrun & Hcur).
  - rewrite Hc. lia.
  - rewrite Hc. simpl. exact Hsum.
  - rewrite Hc in Hrun, Hcur. simpl in Hcur.
    eexists _, s', r'. split; [exact Hrun|].
    split; [apply progress_calls_running|].
    split.
    { rewrite progress_calls_running, length_map, running_length.
      unfold read_sizes. rewrite length_map.
      clear. generalize (ReadCloser r). induction n; intros b; simpl;
        [reflexivity|now rewrite IHn]. }
    split; [apply running_sorted|].
    split; [apply running_strict|].
    split; [|exact Hcur].
    unfold totals. rewrite running_last. lia.
Qed.

End ProgressClaims.

Lemma progressReader_reports_totals_witness :
  exists evs s' r',
    read_times 3 sample_progressReader 0%nat
    = Some (evs, s', (r', [(bytes_of "ab", None); (bytes_of "cde", None);
                           ([], Some io_EOF)]))
    /\ progress_calls evs = map (fun t => (t, 5%Z)) [2; 5; 5]%Z
    /\ List.length (progress_calls evs) = 3%nat
    /\ StronglySorted Z.le [2; 5; 5]%Z
    /\ (Forall (fun k => 0 < k)%nat [2; 3; 0]%nat ->
        StronglySorted Z.lt [2; 5; 5]%Z)
    /\ last [2; 5; 5]%Z 0%Z = 5%Z
    /\ Current r' = 5%Z.
Proof.
  apply (@progressReader_reports_totals nat count_progress 3
           sample_progressReader 0%nat).
  - reflexivity.
  - reflexivity.
  - vm_compute. reflexivity.
Defined.

(** The third read finds the stream at its end and delivers nothing: the
    callback is given the total of the call before once more. *)
Lemma progressReader_repeats_total :
  exists r' results,
    read_times 3 sample_progressReader 0%nat
    = Some ([EvProgress 2 5; EvProgress 5 5; EvProgress 5 5], 3%nat,
            (r', results))
    /\ ~ StronglySorted Z.lt [2; 5; 5]%Z.
Proof.
  eexists _, _. split; [vm_compute; reflexivity|].
  intros H. inversion H as [|a l H1 H2]; subst.
  inversion H1 as [|a' l' H3 H4]; subst.
  inversion H4 as [|x y Hlt _]; subst. lia.
Qed.

(** ** The operations of the client *)

Section ClientFacts.
Variable St : Type.
Context {codec : JSONCodec} {platform : Platform}.

Lemma decodeAPIError_some (b : Body) x :
  decodeAPIError b = (x, None) -> x <> None.
Proof.
  unfold decodeAPIError.
  destruct (io_ReadAll b) as [body [e|]]; [discriminate|].
  destruct body as [|c body]; [intros H; inversion H; discriminate|].
  destruct (json_Unmarshal zeroAPIError decode_APIError (c :: body))
    as [a [e|]]; intros H; inversion H; discriminate.
Qed.

Lemma status_failure_some (resp : Response) : status_failure resp <> None.
Proof.
  unfold status_failure.
  destruct (decodeAPIError (Response_Body resp)) as [x [e|]] eqn:E;
    [destruct x; discriminate|].
  destruct x as [a|]; [discriminate|].
  now apply decodeAPIError_some in E.
Qed.

(** [get] on a response with a status of 400 or more. *)
Lemma get_status_failure {A} (c : Client) ctx path (zero : A) um (s : St) resp :
  get_answers c ctx path resp ->
  (400 <= Response_StatusCode resp)%Z ->
  get c ctx path zero um s
  = Some (get_events c path, s, (zero, status_failure resp)).
Proof.
  intros (Hlim & Hurl & Hreq & Hdo) Hst.
  pose proof (status_failure_some resp) as Hsome.
  unfold get_url in Hreq, Hdo. unfold get_events, get_url.
  unfold get, status_failure in *.
  destruct (url_Parse path) as [rel perr]. simpl in Hurl, Hreq, Hdo |- *.
  subst perr.
  unfold bind at 1. unfold emit at 1. rewrite Hlim, Hreq.
  unfold bind at 1. unfold emit at 1.
  unfold bind at 1. unfold emit at 1.
  rewrite Hdo.
  assert (Hge : (Response_StatusCode resp >=? 400)%Z = true)
    by (apply Z.geb_le; lia).
  rewrite Hge.
  destruct (decodeAPIError (Response_Body resp)) as [x [e|]].
  - destruct x; reflexivity.
  - destruct x as [a|]; [reflexivity|congruence].
Qed.

Lemma Reader_body_wrapBody (resp : Response) (pf : option (ProgressFunc St)) :
  Reader_body (wrapBody resp pf) = Response_Body resp.
Proof. destruct pf; reflexivity. Qed.

Lemma silent_wrapBody (resp : Response) :
  silent (wrapBody (St := St) resp None).
Proof. exact I. Qed.

(** [DownloadBulkDataStream] once the server has answered with a status
    below 400: the stream is processed and the body closed. *)
Lemma DownloadBulkDataStream_run (c : Client) ctx uri cb pf (s : St) resp
    evs s' res :
  uri <> ""%string ->
  download_answers c ctx uri resp ->
  (Response_StatusCode resp < 400)%Z ->
  ProcessBulkDataStream (wrapBody resp pf) cb s = Some (evs, s', res) ->
  DownloadBulkDataStream c ctx uri cb pf s
  = Some (EvLog "info" "downloading bulk data (streaming)"
          :: EvHTTPDo uri :: evs ++ [EvBodyClose], s', res).
Proof.
  intros Huri (Hreq & Hdo) Hst Hrun.
  unfold DownloadBulkDataStream.
  apply String.eqb_neq in Huri. rewrite Huri.
  unfold bind at 1. unfold emit at 1. rewrite Hreq.
  unfold bind at 1. unfold emit at 1. rewrite Hdo.
  assert (Hge : (Response_StatusCode resp >=? 400)%Z = false)
    by (rewrite Z.geb_leb; apply Z.leb_gt; lia).
  rewrite Hge. unfold bind at 1. rewrite Hrun.
  reflexivity.
Qed.

(** [DownloadBulkDataStream] returns; the calls of the card callback it
    records are calls the callback answered, and without a progress
    callback the state is what those calls made of it. *)
Lemma DownloadBulkDataStream_returns (c : Client) ctx uri cb pf (s : St) :
  exists evs s' res,
    DownloadBulkDataStream c ctx uri cb pf s = Some (evs, s', res)
    /\ genuine cb (card_calls evs)
    /\ (pf = None -> s' = replay cb (card_calls evs) s).
Proof.
  unfold DownloadBulkDataStream.
  destruct (uri =? "")%string.
  { eexists _, _, _. split; [reflexivity|]. split; [constructor|reflexivity]. }
  unfold bind at 1. unfold emit at 1.
  destruct (http_NewRequestWithContext (ctx_or_Background ctx) "GET" uri).
  { eexists _, _, _. split; [reflexivity|]. split; [constructor|reflexivity]. }
  unfold bind at 1. unfold emit at 1.
  destruct (httpClient c (newGet c (ctx_or_Background ctx) uri))
    as [resp [e|]].
  { eexists _, _, _. split; [reflexivity|]. split; [constructor|reflexivity]. }
  destruct (Response_StatusCode resp >=? 400)%Z.
  { eexists _, _, _. split; [reflexivity|]. split; [constructor|reflexivity]. }
  destruct (ProcessBulkDataStream_total (wrapBody resp pf) cb s)
    as (evs & s' & res & Hrun & _ & Hsil).
  unfold bind at 1. rewrite Hrun.
  eexists _, _, _. split; [reflexivity|].
  assert (Hc : card_calls
                 ([EvLog "info" "downloading bulk data (streaming)"] ++
                  [EvHTTPDo uri] ++ evs ++ [EvBodyClose] ++ [])
               = card_calls evs).
  { rewrite !card_calls_app. simpl. now rewrite app_nil_r. }
  rewrite Hc.
  split; [exact (ProcessBulkDataStream_genuine _ _ _ Hrun)|].
  intros ->. apply Hsil. exact I.
Qed.

Lemma replay_appendCard calls (cards : list Card) :
  replay appendCard calls cards = cards ++ map fst calls.
Proof.
  revert cards. induction calls as [|call calls IH]; intros cards.
  - simpl. now rewrite app_nil_r.
  - unfold replay in *. simpl. rewrite IH. now rewrite <- app_assoc.
Qed.

Lemma genuine_appendCard calls :
  genuine appendCard calls -> all_accepted calls.
Proof.
  unfold genuine, all_accepted. apply Forall_impl.
  intros call (st & Hst). now rewrite <- Hst.
Qed.

End ClientFacts.

Section ClientClaims.
Context {codec : JSONCodec} {platform : Platform}.


(** C6: with an empty card id, bulk type or download URI the operation
    returns its [... is required] error at once: nothing has happened, the
    limiter has not been asked and no request has been sent. *)
Theorem empty_argument_rejected (St : Type) (c : Client) ctx (s : St)
    (cb : CardCallback St) pf filePath :
  GetCardByID c ctx "" s
  = Some ([], s, (None, Some (errorString "card id is required")))
  /\ GetBulkDataByType c ctx "" s
     = Some ([], s, (None, Some (errorString "bulk type is required")))
  /\ DownloadBulkDataStream c ctx "" cb pf s
     = Some ([], s, Some (errorString "download URI is required"))
  /\ DownloadToFile c ctx "" filePath pf s
     = Some ([], s, Some (errorString "download URI is required"))
  /\ DownloadBulkData c ctx "" s
     = Some ([], s, ([], Some (errorString "download URI is required"))).
Proof. repeat split; reflexivity. Qed.


(** C8: when the server answers the request of [DownloadBulkDataStream]
    or of [DownloadToFile] with a status of 400 or more, the operation
    fails with [download failed with status N], N the status of the
    response; neither the card callback nor the progress callback has
    been called, no file has been created, and the state is as before. *)
Theorem download_status_failure (St : Type) (c : Client) ctx uri (s : St)
    resp (cb : CardCallback St) pf filePath :
  uri <> ""%string ->
  download_answers c ctx uri resp ->
  (400 <= Response_StatusCode resp)%Z ->
  let failure :=
    errorString ("download failed with status "
                 ++ itoa (Response_StatusCode resp)) in
  exists evs1 evs2,
    DownloadBulkDataStream c ctx uri cb pf s = Some (evs1, s, Some failure)
    /\ DownloadToFile c ctx uri filePath pf s = Some (evs2, s, Some failure)
    /\ card_calls (evs1 ++ evs2) = []
    /\ progress_calls (evs1 ++ evs2) = []
    /\ evs1 = [EvLog "info" "downloading bulk data (streaming)";
               EvHTTPDo uri; EvBodyClose]
    /\ evs2 = [EvHTTPDo uri; EvBodyClose].
Proof.
  intros Huri (Hreq & Hdo) Hst failure.
  assert (Hge : (Response_StatusCode resp >=? 400)%Z = true)
    by (apply Z.geb_le; lia).
  apply String.eqb_neq in Huri.
  eexists _, _.
  split.
  { unfold DownloadBulkDataStream. rewrite Huri.
    unfold bind at 1. unfold emit at 1. rewrite Hreq.
    unfold bind at 1. unfold emit at 1. rewrite Hdo, Hge.
    reflexivity. }
  split.
  { unfold DownloadToFile. rewrite Huri, Hreq.
    unfold bind at 1. unfold emit at 1. rewrite Hdo, Hge.
    reflexivity. }
  repeat split; reflexivity.
Qed.

(** C10: [DownloadBulkData] returns, whatever the server and the stream
    do, and the slice it returns holds the records that were handed to
    the accumulating callback, in that order, whether the error it
    returns with them is nil or not: it is the result of
    [DownloadBulkDataStream] with that callback, started from the nil
    slice. *)
Theorem DownloadBulkData_partial (St : Type) (c : Client) ctx uri (s : St) :
  exists evs cards err,
    DownloadBulkData c ctx uri s = Some (evs, s, (cards, err))
    /\ DownloadBulkDataStream c ctx uri appendCard None []
       = Some (evs, cards, err)
    /\ cards = map fst (card_calls evs)
    /\ all_accepted (card_calls evs).
Proof.
  destruct (@DownloadBulkDataStream_returns (list Card) codec platform c ctx
              uri appendCard None [])
    as (evs & cards & err & Hrun & Hgen & Hst).
  exists evs, cards, err.
  split; [unfold DownloadBulkData; now rewrite Hrun|].
  split; [exact Hrun|].
  split; [rewrite (Hst eq_refl); apply replay_appendCard|].
  now apply genuine_appendCard.
Qed.

End ClientClaims.

(** ** The first read of a download reports progress *)

Section FirstRead.
Variable St : Type.
Context {codec : JSONCodec}.

(** The first thing [ProcessBulkDataStream] does is to read, and a reader
    with a progress callback reports that read. *)
Lemma ProcessBulkDataStream_first_read (pr : progressReader St) f
    (cb : CardCallback St) s evs s' res :
  OnRead pr = Some f ->
  ProcessBulkDataStream (progressReader_ptr pr) cb s = Some (evs, s', res) ->
  exists evs',
    evs = EvProgress
            (int64 (Current pr
                    + Z.of_nat (List.length
                                  (fst (fst (Body_Read (ReadCloser pr)))))))
            (Total pr) :: evs'.
Proof.
  intros Hf Hrun.
  unfold ProcessBulkDataStream in Hrun.
  apply bind_inv in Hrun.
  destruct Hrun as (e1 & s1 & [dec1 [t1 err1]] & e2 & HT & _ & ->).
  unfold Token in HT. simpl in HT.
  apply bind_inv in HT.
  destruct HT as (e3 & s3 & [dec3 [c3 err3]] & e4 & HP & _ & ->).
  unfold peek in HP. simpl in HP.
  apply bind_inv in HP.
  destruct HP as (e5 & s5 & [dec5 err5] & e6 & HR & _ & ->).
  unfold refill in HR. simpl in HR.
  apply bind_inv in HR.
  destruct HR as (e7 & s7 & [rd7 [chunk7 er7]] & e8 & HRd & _ & ->).
  apply bind_inv in HRd.
  destruct HRd as (e9 & s9 & [r9 res9] & e10 & Hpr & _ & ->).
  unfold progressReader_Read in Hpr.
  destruct (Body_Read (ReadCloser pr)) as [res0 b0]. rewrite Hf in Hpr.
  apply bind_inv in Hpr.
  destruct Hpr as (e11 & s11 & u & e12 & Hc & _ & ->).
  unfold call_progress in Hc. inversion Hc; subst.
  simpl. eexists. reflexivity.
Qed.

End FirstRead.

Section DownloadProgress.
Variable St : Type.
Context {codec : JSONCodec} {platform : Platform}.

(** X19: [DownloadBulkDataStream] with a progress callback, once the
    server has answered with a status below 400: the callback is called at
    least once, the first time with the size of the first read and the
    length the response declares. *)
Lemma DownloadBulkDataStream_reports_progress (c : Client) ctx uri
    (cb : CardCallback St) f (s : St) resp :
  uri <> ""%string ->
  download_answers c ctx uri resp ->
  (Response_StatusCode resp < 400)%Z ->
  exists evs s' res calls,
    DownloadBulkDataStream c ctx uri cb (Some f) s = Some (evs, s', res)
    /\ progress_calls evs
       = (int64 (Z.of_nat (List.length
                             (fst (fst (Body_Read (Response_Body resp)))))),
          ContentLength resp) :: calls.
Proof.
  intros Huri Hans Hst.
  destruct (ProcessBulkDataStream_total (wrapBody resp (Some f)) cb s)
    as (evs & s' & res & Hrun & _).
  pose proof (@DownloadBulkDataStream_run St codec platform c ctx uri cb
                (Some f) s resp evs s' res Huri Hans Hst Hrun) as Hdl.
  set (pr := {| ReadCloser := Response_Body resp;
                Total := ContentLength resp; Current := 0;
                OnRead := Some f |}).
  change (wrapBody resp (Some f)) with (progressReader_ptr pr) in Hrun.
  destruct (@ProcessBulkDataStream_first_read St codec pr f cb s evs s' res
              eq_refl Hrun) as (evs' & ->).
  eexists _, s', res, _. split; [exact Hdl|].
  simpl. reflexivity.
Qed.

End DownloadProgress.

(** *** The claims on sample streams *)


Example ProcessBulkDataStream_two_cards :
  exists evs,
    ProcessBulkDataStream (codec := sample_codec)
      (bodyReader (clean two_cards_chunks)) count_cb 0%nat
    = Some (evs, 2%nat, None)
    /\ call_ids evs = [("card-1"%string, None); ("card-2"%string, None)].
Proof. eexists. split; vm_compute; reflexivity. Qed.

Example ProcessBulkDataStream_empty_array :
  ProcessBulkDataStream (codec := sample_codec)
    (bodyReader (clean [json_bytes "[]"])) count_cb 0%nat
  = Some ([], 0%nat, None).
Proof. vm_compute. reflexivity. Qed.



(** A callback that refuses the second of three records. *)
Example ProcessBulkDataStream_refuse_second :
  exists evs,
    ProcessBulkDataStream (codec := sample_codec)
      (bodyReader (clean three_cards_chunks)) refuse_second 0%nat
    = Some (evs, 2%nat, Some (foreignError "stop"))
    /\ call_ids evs
       = [("c1"%string, None); ("c2"%string, Some (foreignError "stop"))].
Proof. eexists. split; vm_compute; reflexivity. Qed.

Lemma ProcessBulkDataStream_invalid_element_witness :
  exists evs s',
    ProcessBulkDataStream (codec := sample_codec)
      (bodyReader (clean invalid_second_chunks)) count_cb 0%nat
    = Some (evs, s',
            Some (wrapError "decode card object: "
                    (json_InvalidCharacter "}"
                       "looking for beginning of value")))
    /\ card_calls evs = map (fun it => (card_of (codec := sample_codec) it, None)) one_card_items
    /\ List.length (card_calls evs) = List.length one_card_items
    /\ MalformedPayload
         (wrapError "decode card object: "
            (json_InvalidCharacter "}" "looking for beginning of value"))
    /\ (silent (bodyReader (St := nat) (clean invalid_second_chunks)) ->
        s' = replay count_cb (card_calls evs) 0%nat).
Proof.
  apply (@ProcessBulkDataStream_invalid_element nat sample_codec
           (bodyReader (clean invalid_second_chunks)) count_cb 0%nat
           invalid_second_chunks [] [] one_card_items
           (bytes_of " ") (bytes_of " ") "{"%char (json_bytes "'id':}")
           (json_InvalidCharacter "}" "looking for beginning of value")
           (bytes_of "]")).
  - vm_compute. reflexivity.
  - vm_compute. reflexivity.
  - reflexivity.
  - repeat constructor.
  - reflexivity.
  - reflexivity.
  - discriminate.
  - vm_compute. reflexivity.
  - reflexivity.
Defined.

(** A stream that ends in the middle of the second record. *)
Example ProcessBulkDataStream_truncated :
  exists evs,
    ProcessBulkDataStream (codec := sample_codec)
      (bodyReader (clean [json_bytes "[{'id':'c1'},{'id':'c"])) count_cb 0%nat
    = Some (evs, 1%nat,
            Some (wrapError "decode card object: " io_ErrUnexpectedEOF))
    /\ call_ids evs = [("c1"%string, None)].
Proof. eexists. split; vm_compute; reflexivity. Qed.

(** *** The claims on a sample server *)


Example DownloadBulkData_two_cards :
  exists evs,
    DownloadBulkData (codec := sample_codec)
      (sample_client (sample_response 200 two_cards_chunks)) None bulk_uri
      0%nat
    = Some (evs, 0%nat,
            ([sample_card "card-1" "Test Card 1";
              sample_card "card-2" "Test Card 2"], None)).
Proof. eexists. vm_compute. reflexivity. Qed.


(** The response of the repository's test: status 429 with the body
    [{"details":"slow down","type":"rate_limited"}]. *)
Example GetCardByID_rate_limited :
  let apiErr := {| StatusCode := 429; Details := "slow down";
                   APIError_Type := "rate_limited"; Warnings := [] |} in
  GetCardByID (codec := sample_codec) (sample_client rate_limited) None
    "abc" 0%nat
  = Some ([EvLimiterWait; EvLog "debug" "scryfall api request";
           EvHTTPDo "https://api.scryfall.com/cards/abc"; EvBodyClose],
          0%nat, (None, Some (APIError_ptr apiErr)))
  /\ APIError_Error (Some apiErr) = "scryfall api error (429): slow down"%string
  /\ Contains (APIError_Error (Some apiErr)) "slow down" = true.
Proof. repeat split; vm_compute; reflexivity. Qed.

(** An error body that is not JSON, and an empty one. *)
Example GetCardByID_error_body :
  (exists evs,
      GetCardByID (codec := sample_codec)
        (sample_client (sample_response 500 [bytes_of "oops"])) None "abc"
        0%nat
      = Some (evs, 0%nat,
              (None,
               Some (wrapError "scryfall error status 500: "
                       (json_InvalidCharacter "o"
                          "looking for beginning of value")))))
  /\ (exists evs,
        GetCardByID (codec := sample_codec)
          (sample_client (sample_response 503 [])) None "abc" 0%nat
        = Some (evs, 0%nat,
                (None,
                 Some (APIError_ptr {| StatusCode := 503; Details := "";
                                       APIError_Type := "";
                                       Warnings := [] |})))).
Proof. split; eexists; vm_compute; reflexivity. Qed.

(** The response of the repository's test: status 404 with an empty
    body. *)
Lemma download_status_failure_witness :
  exists evs1 evs2,
    DownloadBulkDataStream (codec := sample_codec)
      (sample_client (sample_response 404 [])) None bulk_uri count_cb
      (Some count_progress) 0%nat
    = Some (evs1, 0%nat,
            Some (errorString "download failed with status 404"))
    /\ DownloadToFile (sample_client (sample_response 404 [])) None bulk_uri
         "cards.json" (Some count_progress) 0%nat
       = Some (evs2, 0%nat,
               Some (errorString "download failed with status 404"))
    /\ card_calls (evs1 ++ evs2) = []
    /\ progress_calls (evs1 ++ evs2) = []
    /\ evs1 = [EvLog "info" "downloading bulk data (streaming)";
               EvHTTPDo bulk_uri; EvBodyClose]
    /\ evs2 = [EvHTTPDo bulk_uri; EvBodyClose].
Proof.
  apply (@download_status_failure sample_codec sample_platform nat
           (sample_client (sample_response 404 [])) None bulk_uri 0%nat
           (sample_response 404 []) count_cb (Some count_progress)
           "cards.json").
  - discriminate.
  - split; reflexivity.
  - vm_compute. discriminate.
Defined.

(** A body that ends in the middle of the second record: the error comes
    with the one record decoded before it. *)
Example DownloadBulkData_truncated :
  exists evs,
    DownloadBulkData (codec := sample_codec)
      (sample_client
         (sample_response 200 [json_bytes "[{'id':'c1'},{'id':'c"]))
      None bulk_uri 0%nat
    = Some (evs, 0%nat,
            ([sample_card "c1" ""],
             Some (wrapError "decode card object: " io_ErrUnexpectedEOF))).
Proof. eexists. vm_compute. reflexivity. Qed.

(** [DownloadToFile] copies until the end of the stream: the last read
    delivers nothing and the progress callback is given the total once
    more. *)
Example DownloadToFile_progress :
  exists evs,
    DownloadToFile
      (sample_client (sample_response 200 [bytes_of "ab"; bytes_of "cde"]))
      None bulk_uri "cards.json" (Some count_progress) 0%nat
    = Some (evs, 3%nat, None)
    /\ progress_calls evs = [(2, 5); (5, 5); (5, 5)]%Z.
Proof. eexists. split; vm_compute; reflexivity. Qed.

(** * Part V: failures, traces and construction of the client *)

(** ** Streams that break off or hold a record that cannot be decoded *)

Section StreamTails.
Variable St : Type.
Context {codec : JSONCodec}.

Lemma prepend_bind {A B} (m m' : M St A) (K : A -> M St B) s s' evs :
  m s = prepend evs (m' s') ->
  bind m K s = prepend evs (bind m' K s').
Proof.
  intros H. unfold bind. rewrite H.
  destruct (m' s') as [[[e1 s1] a]|]; simpl; [|reflexivity].
  destruct (K a s1) as [[[e2 s2] b]|]; simpl; [|reflexivity].
  now rewrite app_assoc.
Qed.

Lemma bind_prepend {A B} (m : M St A) (K : A -> M St B) s e1 s1 a :
  m s = Some (e1, s1, a) -> bind m K s = prepend e1 (K a s1).
Proof. intros H. unfold bind. now rewrite H. Qed.

(** [readValue] when the reads end with an error before the value is
    complete. *)
Lemma readValue_loop_cut chunks :
  forall (dec : Decoder St) fuel s sc n s1 n1 rest ch e,
  script dec = clean chunks ++ rest ->
  fst (Body_Read rest) = (ch, Some e) ->
  scan_buf scanner_reset 0 (buf dec ++ concat chunks ++ ch) = ScanMore s1 n1 ->
  (is_EOF e = true -> is_scanEnd (snd (scanner_step s1 " ")) = false) ->
  (n <= List.length (buf dec))%nat ->
  scan_buf scanner_reset 0 (firstn n (buf dec)) = ScanMore sc n ->
  (List.length chunks < fuel)%nat ->
  exists evs s' dec',
    readValue_loop fuel dec sc n None s
    = Some (evs, s',
            (dec', (O, Some (cut_error e (buf dec ++ concat chunks ++ ch)))))
    /\ quiet evs.
Proof.
  induction chunks as [|c0 chunks IH];
    intros dec fuel s sc n s1 n1 rest ch e Hs Hlast Hres Hend Hn Hinv Hf.
  - simpl in Hres, Hs.
    assert (HT : scan_buf sc n (skipn n (buf dec))
                 = scan_buf scanner_reset 0 (buf dec)).
    { rewrite <- (firstn_skipn n (buf dec)) at 2.
      rewrite scan_buf_app, Hinv. reflexivity. }
    rewrite scan_buf_app in Hres.
    destruct fuel as [|fuel]; [lia|]. simpl. rewrite HT.
    destruct (scan_buf scanner_reset 0 (buf dec)) as [m|e0|s2 n2] eqn:E;
      [discriminate|discriminate|].
    pose proof (scan_buf_more _ _ _ E) as Hn2. simpl in Hn2.
    destruct (refill_spec dec s) as (evs & s' & dec' & HR & Hbuf & Hsc & Ht & Hq).
    rewrite Hs in HR, Hbuf. rewrite Hlast in HR, Hbuf. simpl in HR, Hbuf.
    unfold bind. rewrite HR.
    assert (HT2 : scan_buf s2 n2 (skipn n2 (buf dec')) = ScanMore s1 n1).
    { rewrite Hbuf. subst n2. rewrite skipn_app, skipn_all, Nat.sub_diag.
      simpl. exact Hres. }
    assert (Hgoal : forall fuel',
      readValue_loop fuel' dec' s2 n2 (Some e) s'
      = Some ([], s', (set_err dec' (Some (cut_error e (buf dec ++ ch))),
                       (O, Some (cut_error e (buf dec ++ ch)))))).
    { intros fuel'. unfold cut_error. rewrite <- Hbuf.
      destruct fuel'; simpl; rewrite HT2;
        (destruct (is_EOF e) eqn:Ee;
         [rewrite (Hend eq_refl); reflexivity|reflexivity]). }
    rewrite Hgoal. eexists _, _, _. split; [reflexivity|].
    now rewrite app_nil_r.
  - destruct fuel as [|fuel]; [simpl in Hf; lia|].
    assert (HT : scan_buf sc n (skipn n (buf dec))
                 = scan_buf scanner_reset 0 (buf dec)).
    { rewrite <- (firstn_skipn n (buf dec)) at 2.
      rewrite scan_buf_app, Hinv. reflexivity. }
    rewrite scan_buf_app in Hres.
    simpl. rewrite HT.
    destruct (scan_buf scanner_reset 0 (buf dec)) as [m|e0|s2 n2] eqn:E;
      [discriminate|discriminate|].
    pose proof (scan_buf_more _ _ _ E) as Hn2. simpl in Hn2.
    destruct (refill_spec dec s) as (evs & s' & dec' & HR & Hb & Hsc & Ht & Hq).
    rewrite Hs in HR, Hb, Hsc. simpl in HR, Hb, Hsc.
    unfold bind. rewrite HR.
    destruct (IH dec' fuel s' s2 n2 s1 n1 rest ch e) as
      (evs2 & s3 & dec3 & HP & Hq2).
    + exact Hsc.
    + exact Hlast.
    + rewrite Hb, <- app_assoc. simpl in Hres. rewrite <- app_assoc in Hres.
      rewrite scan_buf_app, E. exact Hres.
    + exact Hend.
    + rewrite Hb, length_app. lia.
    + rewrite Hb. subst n2. rewrite firstn_app, Nat.sub_diag.
      simpl. rewrite app_nil_r, firstn_all. exact E.
    + simpl in Hf. lia.
    + rewrite HP. eexists _, _, _.
      split; [rewrite Hb; simpl; rewrite <- !app_assoc; reflexivity|].
      now apply quiet_app.
Qed.

Lemma readValue_cut (dec : Decoder St) s X rest ch e s1 n1 :
  Views dec X rest ->
  fst (Body_Read rest) = (ch, Some e) ->
  scan_buf scanner_reset 0 (X ++ ch) = ScanMore s1 n1 ->
  (is_EOF e = true -> is_scanEnd (snd (scanner_step s1 " ")) = false) ->
  exists evs s' dec',
    readValue dec s
    = Some (evs, s', (dec', (O, Some (cut_error e (X ++ ch)))))
    /\ quiet evs.
Proof.
  intros (chunks & Hs & Hb) Hlast Hres Hend. unfold readValue.
  rewrite <- Hb in Hres |- *. rewrite <- app_assoc in Hres |- *.
  apply readValue_loop_cut with (s1 := s1) (n1 := n1) (rest := rest); auto.
  - lia.
  - eapply script_length_views; eauto.
Qed.

(** [Decode] of an array element whose value [readValue] cannot read. *)
Lemma Decode_fails {A} (zero : A) um (dec : Decoder St) s first ws X e rest :
  Views dec (elem_lead first ws ++ X) rest ->
  dropSpace ws = [] ->
  (forall (d : Decoder St) s0, Views d X rest ->
   exists evs s' d',
     readValue d s0 = Some (evs, s', (d', (O, Some e))) /\ quiet evs) ->
  dec_err dec = None -> tokenState dec = elem_state first ->
  exists evs s' dec',
    Decode zero um dec s = Some (evs, s', (dec', (zero, Some e))) /\ quiet evs.
Proof.
  intros HV Hws Hread He Hts.
  assert (Hfin : forall (d : Decoder St) s0,
    Views d X rest ->
    exists evs s' dec',
      (bind (readValue d) (fun x => let '(dec, (n, err)) := x in
         match err with
         | Some e => ret (dec, (zero, Some e))
         | None =>
             let (v0, err0) := um (dropSpace (firstn n (buf dec))) in
             ret (tokenValueEnd (set_buf dec (skipn n (buf dec))), (v0, err0))
         end)) s0 = Some (evs, s', (dec', (zero, Some e)))
      /\ quiet evs).
  { intros d s0 HVd.
    destruct (Hread d s0 HVd) as (evs & s' & dec' & HR & Hq).
    unfold bind. rewrite HR. simpl.
    eexists _, _, _. split; [reflexivity|]. now rewrite app_nil_r. }
  unfold Decode. rewrite He.
  destruct first; simpl in HV, Hts.
  - unfold tokenPrepareForDecode. rewrite Hts.
    unfold bind at 1. simpl. unfold tokenValueAllowed. rewrite Hts. simpl.
    destruct (Hfin dec s HV) as (evs & s' & dec' & HR & Hq).
    rewrite HR. eexists _, _, _. split; [reflexivity|]. exact Hq.
  - unfold tokenPrepareForDecode. rewrite Hts.
    rewrite <- app_assoc in HV. simpl in HV.
    destruct (@peek_views St dec s ws ","%char X rest HV Hws eq_refl)
      as (evs & s' & dec' & HP & Hq & HV' & (Ht1 & Ht2 & Ht3) & b & Hb).
    unfold bind at 1. unfold bind at 1. rewrite HP. simpl.
    unfold tokenValueAllowed. simpl.
    destruct (Hfin (set_tokenState (set_buf dec' (tl (buf dec'))) tokenArrayValue) s')
      as (evs2 & s2 & dec2 & HR & Hq2).
    + destruct HV' as (chunks & Hsc & Hbuf). exists chunks.
      split; [exact Hsc|]. simpl. rewrite Hb in *. simpl in *.
      now inversion Hbuf.
    + rewrite HR. eexists _, _, _. split; [reflexivity|].
      rewrite app_nil_r. now apply quiet_app.
Qed.

(** The loop at an element that [readValue] cannot read. *)
Lemma cards_loop_reject (cb : CardCallback St) (dec : Decoder St) fuel s first
    ld pr c X e rest :
  Views dec (bad_tail first ld pr (c :: X)) rest ->
  blank ld = true -> blank pr = true ->
  (first = true -> more_byte c = true) ->
  (forall (d : Decoder St) s0,
   Views d ((if first then [] else pr) ++ c :: X) rest ->
   exists evs s' d',
     readValue d s0 = Some (evs, s', (d', (O, Some e))) /\ quiet evs) ->
  dec_err dec = None -> tokenState dec = elem_state first ->
  exists evs s' dec',
    cards_loop fuel dec cb s
    = Some (evs, s', (dec', Some (wrapError "decode card object: " e)))
    /\ quiet evs.
Proof.
  intros HV Hld Hpr Hc Hread He Hts.
  apply blank_dropSpace in Hld. apply blank_dropSpace in Hpr.
  unfold bad_tail in HV.
  assert (HM : exists evs s' dec',
             More dec s = Some (evs, s', (dec', true)) /\ quiet evs
             /\ Views dec' (elem_lead first [] ++ (if first then [] else pr)
                            ++ c :: X) rest
             /\ same_tok dec dec').
  { destruct first.
    - specialize (Hc eq_refl). unfold more_byte in Hc.
      apply andb_true_iff in Hc. destruct Hc as [Hc Hc3].
      apply andb_true_iff in Hc. destruct Hc as [Hc1 Hc2].
      apply negb_true_iff in Hc1.
      assert (HV1 : Views dec ((ld ++ pr) ++ c :: X) rest).
      { rewrite <- app_assoc. exact HV. }
      destruct (@More_views St dec s (ld ++ pr) c X rest HV1)
        as (evs & s' & dec' & HR & Hq & HV' & Ht).
      + rewrite dropSpace_app, Hld. exact Hpr.
      + exact Hc1.
      + rewrite Hc2, Hc3 in HR. simpl in HR.
        exists evs, s', dec'. repeat split; auto; apply Ht.
    - simpl in HV.
      destruct (@More_views St dec s ld ","%char (pr ++ c :: X) rest
                  HV Hld eq_refl)
        as (evs & s' & dec' & HR & Hq & HV' & Ht).
      simpl in HR. exists evs, s', dec'. repeat split; auto; apply Ht. }
  destruct HM as (evs & s1 & dec1 & HM & Hq & HV1 & (Ht1 & Ht2 & Ht3)).
  destruct (@Decode_fails _ zeroCard decode_Card dec1 s1 first []
              ((if first then [] else pr) ++ c :: X) e rest HV1) as
    (evs2 & s2 & dec2 & HD & Hq2);
    [reflexivity|exact Hread|congruence|congruence|].
  rewrite cards_loop_unfold. unfold bind at 1. rewrite HM. simpl.
  unfold bind at 1. rewrite HD. simpl.
  eexists _, _, _. split; [reflexivity|].
  rewrite app_nil_r. now apply quiet_app.
Qed.

(** [ProcessBulkDataStream] up to the end of the records it can decode:
    with a callback that accepts them, what is left is the loop on the
    rest of the stream and the closing token. *)
Lemma ProcessBulkDataStream_prefix (reader : Reader St) cb s chunks rest
    lead0 its T :
  Reader_body reader = clean chunks ++ rest ->
  concat chunks = lead0 ++ "["%char :: items_text true its ++ T ->
  blank lead0 = true -> well_formed its ->
  (forall card st, snd (cb card st) = None) ->
  exists evs1 s1 dec1 fuel1,
    Views dec1 T rest /\ dec_err dec1 = None
    /\ tokenState dec1
       = elem_state (match its with [] => true | _ => false end)
    /\ tokenStack dec1 = [tokenTopValue]
    /\ card_calls evs1 = accepted its
    /\ ProcessBulkDataStream reader cb s
       = prepend evs1
           (('(dec, early) <- cards_loop fuel1 dec1 cb ;;
             match early with
             | Some e => ret (Some e)
             | None =>
                 '(dec, (t, err)) <- Token dec ;;
                 match err with
                 | Some e => ret (Some (wrapError "decode closing bracket: " e))
                 | None =>
                     if negb (is_delim t "]")
                     then ret (Some (errorString
                                       "expected ']' at end of bulk data"))
                     else ret None
                 end
             end) s1).
Proof.
  intros Hrd Hcat Hlead Hwf Hcb.
  apply blank_dropSpace in Hlead.
  assert (HV0 : Views (NewDecoder reader)
                  (lead0 ++ "["%char :: (items_text true its ++ T)) rest).
  { exists chunks. split; [exact Hrd|]. simpl. exact Hcat. }
  destruct (@Token_open St codec reader s lead0 _ rest HV0 Hlead)
    as (evs0 & s0 & dec0 & HT & Hq0 & HV1 & Hts & Hstk & He).
  assert (Hfuel : (List.length its <= pending dec0)%nat).
  { pose proof (Views_pending HV1) as Hp. rewrite length_app in Hp.
    assert (Forall (fun it => item_ok it = true) its).
    { eapply Forall_impl; [|exact Hwf]. simpl. tauto. }
    pose proof (items_text_length true H). lia. }
  destruct (@cards_loop_items St codec cb its true dec0 (pending dec0) s0 _
              rest HV1 He Hts Hwf Hfuel)
    as [(evs & s' & dec' & e' & l1 & it & l2 & _ & _ & _ & st & Hst)
       |(evs1 & s1 & dec1 & HV2 & He1 & Hts1 & Hstk1 & Hcc & HL)].
  - rewrite Hcb in Hst. discriminate.
  - exists (evs0 ++ evs1), s1, dec1, (pending dec0 - List.length its)%nat.
    split; [exact HV2|]. split; [exact He1|].
    split; [rewrite Hts1; destruct its; [exact Hts|reflexivity]|].
    split; [congruence|].
    split; [rewrite card_calls_app, Hq0, Hcc; reflexivity|].
    unfold ProcessBulkDataStream.
    rewrite (@bind_prepend _ _ _ _ _ _ _ _ HT). simpl.
    rewrite <- prepend_prepend. f_equal.
    apply prepend_bind. exact HL.
Qed.

End StreamTails.

Section StreamTailCases.
Variable St : Type.
Context {codec : JSONCodec}.

(** The loop fails on what follows the records: so does the whole. *)
Lemma ProcessBulkDataStream_loop_error (reader : Reader St) cb s chunks rest
    lead0 its T e :
  Reader_body reader = clean chunks ++ rest ->
  concat chunks = lead0 ++ "["%char :: items_text true its ++ T ->
  blank lead0 = true -> well_formed its ->
  (forall card st, snd (cb card st) = None) ->
  (forall (dec : Decoder St) fuel s1,
   Views dec T rest -> dec_err dec = None ->
   tokenState dec = elem_state (match its with [] => true | _ => false end) ->
   exists evs s' dec',
     cards_loop fuel dec cb s1 = Some (evs, s', (dec', Some e))
     /\ quiet evs) ->
  exists evs s',
    ProcessBulkDataStream reader cb s = Some (evs, s', Some e)
    /\ card_calls evs = accepted its
    /\ (silent reader -> s' = replay cb (card_calls evs) s).
Proof.
  intros Hrd Hcat Hlead Hwf Hcb Hloop.
  destruct (ProcessBulkDataStream_total reader cb s)
    as (evs0 & s0 & res0 & Hrun0 & _ & Hsil).
  destruct (@ProcessBulkDataStream_prefix St codec reader cb s chunks rest
              lead0 its T Hrd Hcat Hlead Hwf Hcb)
    as (evs1 & s1 & dec1 & fuel1 & HV & He & Hts & _ & Hcc & Hrun).
  destruct (Hloop dec1 fuel1 s1 HV He Hts) as (evs2 & s2 & dec2 & HL & Hq2).
  rewrite (@bind_prepend _ _ _ _ _ _ _ _ _ HL) in Hrun. simpl in Hrun.
  rewrite Hrun in Hrun0. inversion Hrun0; subst.
  eexists _, _. split; [exact Hrun|].
  split; [|exact Hsil].
  rewrite !card_calls_app, Hcc, Hq2. simpl. now rewrite !app_nil_r.
Qed.

Lemma more_byte_nonspace c : more_byte c = true -> isSpace c = false.
Proof.
  unfold more_byte. intros H.
  apply andb_true_iff in H. destruct H as [H _].
  apply andb_true_iff in H. destruct H as [H _].
  now apply negb_true_iff in H.
Qed.

Lemma nonSpace_app_cons (ws : bytes) c X :
  isSpace c = false -> nonSpace (ws ++ c :: X) = true.
Proof.
  intros Hc. unfold nonSpace. rewrite existsb_app. simpl. rewrite Hc. simpl.
  apply orb_true_r.
Qed.

(** The reads fail with [e] before the element that starts with [c] is
    complete. *)
Lemma ProcessBulkDataStream_cut (reader : Reader St) cb s chunks rest
    lead0 its ld pr c X ch e s1 n1 :
  Reader_body reader = clean chunks ++ rest ->
  fst (Body_Read rest) = (ch, Some e) ->
  concat chunks
  = lead0 ++ "["%char :: items_text true its
    ++ bad_tail (match its with [] => true | _ => false end) ld pr (c :: X) ->
  blank lead0 = true -> well_formed its ->
  blank ld = true -> blank pr = true -> more_byte c = true ->
  scan_buf scanner_reset 0 ((c :: X) ++ ch) = ScanMore s1 n1 ->
  (is_EOF e = true -> is_scanEnd (snd (scanner_step s1 " ")) = false) ->
  (forall card st, snd (cb card st) = None) ->
  exists evs s',
    ProcessBulkDataStream reader cb s
    = Some (evs, s',
            Some (wrapError "decode card object: "
                    (if is_EOF e then io_ErrUnexpectedEOF else e)))
    /\ card_calls evs = accepted its
    /\ (silent reader -> s' = replay cb (card_calls evs) s).
Proof.
  intros Hrd Hlast Hcat Hlead Hwf Hld Hpr Hc Hscan Hend Hcb.
  apply (@ProcessBulkDataStream_loop_error reader cb s chunks rest lead0 its
           (bad_tail (match its with [] => true | _ => false end) ld pr
              (c :: X))); auto.
  intros dec fuel s0 HV He Hts.
  apply cards_loop_reject with (first := match its with [] => true | _ => false end)
    (ld := ld) (pr := pr) (c := c) (X := X) (rest := rest); auto.
  intros d s2 HVd.
  set (pr' := if match its with [] => true | _ => false end then [] else pr)
    in *.
  assert (Hpr' : dropSpace pr' = []).
  { unfold pr'. destruct its; [reflexivity|now apply blank_dropSpace]. }
  assert (Hsc : scan_buf scanner_reset 0 ((pr' ++ c :: X) ++ ch)
                = ScanMore s1 (n1 + List.length pr')).
  { rewrite <- app_assoc. rewrite scan_buf_space by exact Hpr'.
    rewrite (scan_buf_shift ((c :: X) ++ ch) (List.length pr') scanner_reset 0).
    rewrite Hscan. reflexivity. }
  destruct (@readValue_cut St d s2 (pr' ++ c :: X) rest ch e s1 _ HVd Hlast
              Hsc Hend) as (evs & s' & d' & HR & Hq).
  exists evs, s', d'. split; [|exact Hq].
  rewrite HR. unfold cut_error.
  rewrite <- app_assoc. simpl.
  rewrite (@nonSpace_app_cons pr' c (X ++ ch) (more_byte_nonspace _ Hc)).
  reflexivity.
Qed.

(** [peek] and [More] when the stream ends after white space. *)
Lemma peek_loop_eof chunks : forall (dec : Decoder St) fuel s,
  script dec = clean chunks ->
  blank (buf dec ++ concat chunks) = true ->
  (List.length chunks < fuel)%nat ->
  exists evs s' dec',
    peek_loop fuel dec None s = Some (evs, s', (dec', (zeroByte, Some io_EOF)))
    /\ quiet evs /\ script dec' = []
    /\ buf dec' = buf dec ++ concat chunks /\ same_tok dec dec'.
Proof.
  induction chunks as [|ch chunks IH]; intros dec fuel s Hs Hb Hf.
  - simpl in Hb. rewrite app_nil_r in Hb.
    destruct fuel as [|fuel]; [lia|]. simpl.
    rewrite (blank_dropSpace _ Hb).
    destruct (refill_spec dec s) as (evs & s' & dec' & HR & Hbuf & Hsc & Ht & Hq).
    rewrite Hs in HR, Hbuf, Hsc. simpl in HR, Hbuf, Hsc.
    unfold bind. rewrite HR.
    assert (Hd : dropSpace (buf dec') = []).
    { rewrite Hbuf, app_nil_r. now apply blank_dropSpace. }
    destruct fuel; simpl; rewrite Hd;
      (eexists _, _, _; split; [reflexivity|];
       rewrite app_nil_r; repeat split; auto; apply Ht).
  - destruct fuel as [|fuel]; [simpl in Hf; lia|]. simpl.
    simpl in Hb. rewrite app_assoc in Hb.
    assert (Hb0 : blank (buf dec) = true).
    { rewrite !blank_app in Hb. apply andb_true_iff in Hb. destruct Hb as [Hb _].
      apply andb_true_iff in Hb. tauto. }
    rewrite (blank_dropSpace _ Hb0).
    destruct (refill_spec dec s) as (evs & s' & dec' & HR & Hbuf & Hsc & Ht & Hq).
    rewrite Hs in HR, Hbuf, Hsc. simpl in HR, Hbuf, Hsc.
    unfold bind. rewrite HR.
    destruct (IH dec' fuel s' Hsc) as (evs2 & s2 & dec2 & HP & Hq2 & Hs2 & Hb2 & Ht2).
    + rewrite Hbuf. exact Hb.
    + simpl in Hf. lia.
    + rewrite HP. eexists _, _, _. split; [reflexivity|].
      split; [now apply quiet_app|]. split; [exact Hs2|].
      split; [rewrite Hb2, Hbuf; simpl; now rewrite <- app_assoc|].
      destruct Ht as (? & ? & ?). destruct Ht2 as (? & ? & ?).
      repeat split; congruence.
Qed.

Lemma More_eof (dec : Decoder St) s B :
  Views dec B [] -> blank B = true ->
  exists evs s' dec' B',
    More dec s = Some (evs, s', (dec', false)) /\ quiet evs
    /\ Views dec' B' [] /\ blank B' = true /\ same_tok dec dec'.
Proof.
  intros (chunks & Hs & Hb) HB. rewrite app_nil_r in Hs.
  destruct (@peek_loop_eof chunks dec (S (List.length (Reader_body (r dec)))) s
              Hs) as (evs & s' & dec' & HP & Hq & Hs' & Hb' & Ht).
  - now rewrite Hb.
  - unfold script in Hs. rewrite Hs. unfold clean. rewrite length_map. lia.
  - unfold More, bind, peek. rewrite HP. simpl.
    exists (evs ++ []), s', dec', B. split; [reflexivity|].
    split; [now rewrite app_nil_r|].
    split; [exists []; split; [rewrite Hs'; reflexivity|]|auto].
    simpl. rewrite app_nil_r. congruence.
Qed.

(** The loop at a record the scanner accepts and [decode_Card] rejects. *)
Lemma cards_loop_undecodable (cb : CardCallback St) (dec : Decoder St) fuel s
    first it card e B rest :
  Views dec (items_text first [it] ++ B) rest ->
  item_ok it = true -> decode_Card (val it) = (card, Some e) ->
  dec_err dec = None -> tokenState dec = elem_state first ->
  exists evs s' dec',
    cards_loop fuel dec cb s
    = Some (evs, s', (dec', Some (wrapError "decode card object: " e)))
    /\ quiet evs.
Proof.
  intros HV Hit Hdec He Hts.
  unfold item_ok in Hit. apply andb_true_iff in Hit. destruct Hit as [Hit Hrec].
  apply andb_true_iff in Hit. destruct Hit as [Hlead Hpre].
  apply blank_dropSpace in Hlead. apply blank_dropSpace in Hpre.
  destruct (record_text_head _ Hrec) as (v' & Hv').
  assert (HV0 : Views dec (lead it ++ (if first then [] else [","%char])
                           ++ pre it ++ val it ++ B) rest).
  { simpl in HV. rewrite app_nil_r in HV. rewrite <- !app_assoc in HV.
    exact HV. }
  clear HV.
  assert (HM : exists evs s' dec',
             More dec s = Some (evs, s', (dec', true)) /\ quiet evs
             /\ Views dec' (elem_lead first [] ++ (if first then [] else pre it)
                            ++ val it ++ B) rest
             /\ same_tok dec dec').
  { destruct first.
    - assert (HV1 : Views dec ((lead it ++ pre it) ++ "{"%char :: (v' ++ B)) rest).
      { rewrite Hv' in HV0. simpl in HV0. rewrite <- app_assoc. exact HV0. }
      destruct (@More_views St dec s (lead it ++ pre it) "{"%char (v' ++ B) rest HV1)
        as (evs & s' & dec' & HR & Hq & HV' & Ht).
      + rewrite dropSpace_app, Hlead. exact Hpre.
      + reflexivity.
      + simpl in HR. exists evs, s', dec'. repeat split; auto; try apply Ht.
        simpl. rewrite Hv'. exact HV'.
    - destruct (@More_views St dec s (lead it) ","%char (pre it ++ val it ++ B) rest
                  HV0 Hlead eq_refl)
        as (evs & s' & dec' & HR & Hq & HV' & Ht).
      simpl in HR. exists evs, s', dec'. repeat split; auto; apply Ht. }
  destruct HM as (evs & s1 & dec1 & HM & Hq & HV1 & (Ht1 & Ht2 & Ht3)).
  destruct (@Decode_views St _ zeroCard decode_Card dec1 s1 first []
              (if first then [] else pre it) (val it) B rest HV1) as
    (evs2 & s2 & dec2 & HD & Hq2 & _);
    [reflexivity|destruct first; [reflexivity|exact Hpre]|exact Hrec
     |congruence|congruence|].
  rewrite Hdec in HD.
  rewrite cards_loop_unfold. unfold bind at 1. rewrite HM. simpl.
  unfold bind at 1. rewrite HD. simpl.
  eexists _, _, _. split; [reflexivity|].
  rewrite app_nil_r. now apply quiet_app.
Qed.

(** The loop at an element that no comma separates from the one before. *)
Lemma cards_loop_no_comma (cb : CardCallback St) (dec : Decoder St) fuel s
    ld c X rest :
  Views dec (ld ++ c :: X) rest ->
  blank ld = true -> more_byte c = true -> c <> ","%char ->
  dec_err dec = None -> tokenState dec = tokenArrayComma ->
  exists evs s' dec',
    cards_loop fuel dec cb s
    = Some (evs, s',
            (dec', Some (wrapError "decode card object: "
                           (json_SyntaxError
                              "expected comma after array element"))))
    /\ quiet evs.
Proof.
  intros HV Hld Hc Hcomma He Hts.
  apply blank_dropSpace in Hld.
  pose proof (more_byte_nonspace _ Hc) as Hsp.
  destruct (@More_views St dec s ld c X rest HV Hld Hsp)
    as (evs & s1 & dec1 & HM & Hq & HV1 & (Ht1 & Ht2 & Ht3)).
  assert (Hmore : negb (c =? "]")%char && negb (c =? "}")%char = true).
  { unfold more_byte in Hc. apply andb_true_iff in Hc. destruct Hc as [Hc Hc3].
    apply andb_true_iff in Hc. destruct Hc as [_ Hc2]. now rewrite Hc2, Hc3. }
  rewrite Hmore in HM.
  destruct (@peek_views St dec1 s1 [] c X rest HV1 eq_refl Hsp)
    as (evs2 & s2 & dec2 & HP & Hq2 & _).
  assert (Hne : (c =? ",")%char = false) by now apply Ascii.eqb_neq.
  rewrite cards_loop_unfold. unfold bind at 1. rewrite HM. simpl.
  unfold bind at 1. unfold Decode. rewrite Ht3, He.
  unfold bind at 1. unfold tokenPrepareForDecode. rewrite Ht1, Hts.
  unfold bind at 1. rewrite HP. simpl. rewrite Hne. simpl.
  eexists _, _, _. split; [reflexivity|].
  rewrite !app_nil_r. now apply quiet_app.
Qed.

(** The stream ends where the closing bracket should stand. *)
Lemma ProcessBulkDataStream_eof (reader : Reader St) cb s chunks
    lead0 its gap :
  Reader_body reader = clean chunks ->
  concat chunks = lead0 ++ "["%char :: items_text true its ++ gap ->
  blank lead0 = true -> well_formed its -> blank gap = true ->
  (forall card st, snd (cb card st) = None) ->
  exists evs s',
    ProcessBulkDataStream reader cb s
    = Some (evs, s', Some (wrapError "decode closing bracket: " io_EOF))
    /\ card_calls evs = accepted its
    /\ (silent reader -> s' = replay cb (card_calls evs) s).
Proof.
  intros Hrd Hcat Hlead Hwf Hgap Hcb.
  destruct (ProcessBulkDataStream_total reader cb s)
    as (evs0 & s0 & res0 & Hrun0 & _ & Hsil).
  assert (Hrd' : Reader_body reader = clean chunks ++ [])
    by now rewrite app_nil_r.
  destruct (@ProcessBulkDataStream_prefix St codec reader cb s chunks []
              lead0 its gap Hrd' Hcat Hlead Hwf Hcb)
    as (evs1 & s1 & dec1 & fuel1 & HV & He & Hts & _ & Hcc & Hrun).
  destruct (@More_eof dec1 s1 gap HV Hgap)
    as (evs2 & s2 & dec2 & B' & HM & Hq2 & HV2 & HB' & Ht).
  destruct (@Token_exhausted St codec dec2 s2 B' io_EOF [] HV2 HB')
    as (evs3 & s3 & dec3 & HT & Hq3); [left; auto|].
  assert (HL : cards_loop fuel1 dec1 cb s1 = Some (evs2 ++ [], s2, (dec2, None))).
  { rewrite cards_loop_unfold. unfold bind. rewrite HM. reflexivity. }
  rewrite (@bind_prepend _ _ _ _ _ _ _ _ _ HL) in Hrun. simpl in Hrun.
  rewrite (@bind_prepend _ _ _ _ _ _ _ _ _ HT) in Hrun. simpl in Hrun.
  rewrite Hrun in Hrun0. inversion Hrun0; subst.
  eexists _, _. split; [exact Hrun|].
  split; [|exact Hsil].
  rewrite !card_calls_app, Hcc, Hq2, Hq3. simpl. now rewrite !app_nil_r.
Qed.

End StreamTailCases.

Section StreamExtras.
Variable St : Type.
Context {codec : JSONCodec}.

(** X1: [ProcessBulkDataStream] returns on every stream and with every
    callback.  Either every call of the callback was accepted, and the
    result is nil or one of the payload errors of the function; or the
    last call returned an error, every call before it was accepted, and
    that error is the result.  With a reader that has no progress
    callback, the state is what the calls of the card callback made of
    it. *)
Theorem ProcessBulkDataStream_outcomes (reader : Reader St)
    (cb : CardCallback St) s :
  exists evs s' res,
    ProcessBulkDataStream reader cb s = Some (evs, s', res)
    /\ genuine cb (card_calls evs)
    /\ (all_accepted (card_calls evs)
        /\ (res = None \/ exists e, res = Some e /\ MalformedPayload e)
        \/ exists l c e,
             card_calls evs = l ++ [(c, Some e)] /\ all_accepted l
             /\ res = Some e)
    /\ (silent reader -> s' = replay cb (card_calls evs) s).
Proof.
  destruct (ProcessBulkDataStream_total reader cb s)
    as (evs & s' & res & Hrun & Htr & Hsil).
  exists evs, s', res. split; [exact Hrun|].
  split; [exact (ProcessBulkDataStream_genuine _ _ _ Hrun)|].
  split; [exact Htr|exact Hsil].
Qed.

(** X2: a record that is well-formed JSON and that [json] cannot decode
    into a [Card] ends the run with [decode card object:] wrapping the
    decoder's error; the records before it have been handed to the
    callback, the record itself has not. *)
Theorem ProcessBulkDataStream_undecodable_record (reader : Reader St)
    (cb : CardCallback St) s chunks rest lead0 its it card e junk :
  Reader_body reader = clean chunks ++ rest ->
  concat chunks
  = lead0 ++ "["%char :: items_text true its
    ++ items_text (match its with [] => true | _ => false end) [it] ++ junk ->
  blank lead0 = true -> well_formed its ->
  item_ok it = true -> decode_Card (val it) = (card, Some e) ->
  (forall card st, snd (cb card st) = None) ->
  exists evs s',
    ProcessBulkDataStream reader cb s
    = Some (evs, s', Some (wrapError "decode card object: " e))
    /\ card_calls evs = map (fun it => (card_of it, None)) its
    /\ (silent reader -> s' = replay cb (card_calls evs) s).
Proof.
  intros Hrd Hcat Hlead Hwf Hit Hdec Hcb.
  apply (@ProcessBulkDataStream_loop_error St codec reader cb s chunks rest
           lead0 its
           (items_text (match its with [] => true | _ => false end) [it]
            ++ junk)); auto.
  intros dec fuel s1 HV He Hts.
  eapply cards_loop_undecodable; eauto.
Qed.

(** X3: when the reads end, with [io.EOF] or with another error [e],
    before the element that follows k records is complete, the run ends
    with [decode card object:] wrapping [io.ErrUnexpectedEOF] for
    [io.EOF] and [e] itself otherwise; the k records have been handed to
    the callback. *)
Theorem ProcessBulkDataStream_cut_record (reader : Reader St)
    (cb : CardCallback St) s chunks rest lead0 its ld pr c X ch e s1 n1 :
  Reader_body reader = clean chunks ++ rest ->
  fst (Body_Read rest) = (ch, Some e) ->
  concat chunks
  = lead0 ++ "["%char :: items_text true its
    ++ bad_tail (match its with [] => true | _ => false end) ld pr (c :: X) ->
  blank lead0 = true -> well_formed its ->
  blank ld = true -> blank pr = true -> more_byte c = true ->
  scan_buf scanner_reset 0 ((c :: X) ++ ch) = ScanMore s1 n1 ->
  (is_EOF e = true -> is_scanEnd (snd (scanner_step s1 " ")) = false) ->
  (forall card st, snd (cb card st) = None) ->
  exists evs s',
    ProcessBulkDataStream reader cb s
    = Some (evs, s',
            Some (wrapError "decode card object: "
                    (if is_EOF e then io_ErrUnexpectedEOF else e)))
    /\ card_calls evs = map (fun it => (card_of it, None)) its
    /\ (silent reader -> s' = replay cb (card_calls evs) s).
Proof.
  intros. eapply ProcessBulkDataStream_cut; eauto.
Qed.

(** X4: when the stream ends after k records, with nothing but white
    space where the closing bracket should stand, the k records have been
    handed to the callback and the run ends with
    [decode closing bracket: EOF]. *)
Theorem ProcessBulkDataStream_unclosed_array (reader : Reader St)
    (cb : CardCallback St) s chunks lead0 its gap :
  Reader_body reader = clean chunks ->
  concat chunks = lead0 ++ "["%char :: items_text true its ++ gap ->
  blank lead0 = true -> well_formed its -> blank gap = true ->
  (forall card st, snd (cb card st) = None) ->
  exists evs s',
    ProcessBulkDataStream reader cb s
    = Some (evs, s', Some (wrapError "decode closing bracket: " io_EOF))
    /\ card_calls evs = map (fun it => (card_of it, None)) its
    /\ (silent reader -> s' = replay cb (card_calls evs) s).
Proof.
  intros. eapply ProcessBulkDataStream_eof; eauto.
Qed.

(** X5: when an element follows a record without a comma between them,
    the run ends with [decode card object: expected comma after array
    element]; the records before it have been handed to the callback. *)
Theorem ProcessBulkDataStream_missing_comma (reader : Reader St)
    (cb : CardCallback St) s chunks rest lead0 it its ld c X :
  Reader_body reader = clean chunks ++ rest ->
  concat chunks
  = lead0 ++ "["%char :: items_text true (it :: its) ++ ld ++ c :: X ->
  blank lead0 = true -> well_formed (it :: its) ->
  blank ld = true -> more_byte c = true -> c <> ","%char ->
  (forall card st, snd (cb card st) = None) ->
  exists evs s',
    ProcessBulkDataStream reader cb s
    = Some (evs, s',
            Some (wrapError "decode card object: "
                    (json_SyntaxError "expected comma after array element")))
    /\ card_calls evs = map (fun it => (card_of it, None)) (it :: its)
    /\ (silent reader -> s' = replay cb (card_calls evs) s).
Proof.
  intros Hrd Hcat Hlead Hwf Hld Hc Hne Hcb.
  apply (@ProcessBulkDataStream_loop_error St codec reader cb s chunks rest
           lead0 (it :: its) (ld ++ c :: X)); auto.
  intros dec fuel s1 HV He Hts.
  eapply cards_loop_no_comma; eauto.
Qed.

End StreamExtras.

Lemma ProcessBulkDataStream_undecodable_record_witness :
  exists evs s',
    ProcessBulkDataStream (codec := strict_codec)
      (bodyReader (clean number_id_chunks)) count_cb 0%nat
    = Some (evs, s',
            Some (wrapError "decode card object: "
                    (foreignError
                       "json: cannot unmarshal number into Go struct field Card.id of type string")))
    /\ card_calls evs
       = map (fun it => (card_of (codec := strict_codec) it, None))
           one_card_items
    /\ (silent (bodyReader (St := nat) (clean number_id_chunks)) ->
        s' = replay count_cb (card_calls evs) 0%nat).
Proof.
  apply (@ProcessBulkDataStream_undecodable_record nat strict_codec
           (bodyReader (clean number_id_chunks)) count_cb 0%nat
           number_id_chunks [] [] one_card_items number_id_item zeroCard
           (foreignError
              "json: cannot unmarshal number into Go struct field Card.id of type string")
           (bytes_of "]")).
  - vm_compute. reflexivity.
  - vm_compute. reflexivity.
  - reflexivity.
  - repeat constructor.
  - vm_compute. reflexivity.
  - vm_compute. reflexivity.
  - reflexivity.
Defined.

Lemma ProcessBulkDataStream_cut_record_witness :
  exists evs s',
    ProcessBulkDataStream (codec := sample_codec)
      (bodyReader (clean truncated_chunks)) count_cb 0%nat
    = Some (evs, s',
            Some (wrapError "decode card object: " io_ErrUnexpectedEOF))
    /\ card_calls evs
       = map (fun it => (card_of (codec := sample_codec) it, None))
           one_card_items
    /\ (silent (bodyReader (St := nat) (clean truncated_chunks)) ->
        s' = replay count_cb (card_calls evs) 0%nat).
Proof.
  refine (@ProcessBulkDataStream_cut_record nat sample_codec
           (bodyReader (clean truncated_chunks)) count_cb 0%nat
           truncated_chunks [] [] one_card_items [] (bytes_of " ")
           "{"%char (json_bytes "'id':'ca") [] io_EOF
           _ _ _ _ _ _ _ _ _ _ _ _ _).
  - vm_compute. reflexivity.
  - reflexivity.
  - vm_compute. reflexivity.
  - reflexivity.
  - repeat constructor.
  - reflexivity.
  - reflexivity.
  - reflexivity.
  - vm_compute. reflexivity.
  - intros _. vm_compute. reflexivity.
  - reflexivity.
Defined.

(** A transport failure in the middle of the second record. *)
Example ProcessBulkDataStream_read_failure :
  exists evs,
    ProcessBulkDataStream (codec := sample_codec)
      (bodyReader
         [(json_bytes "[{'id':'card-1'}, {'id':", None);
          ([], Some (foreignError "connection reset by peer"))])
      count_cb 0%nat
    = Some (evs, 1%nat,
            Some (wrapError "decode card object: "
                    (foreignError "connection reset by peer")))
    /\ call_ids evs = [("card-1"%string, None)].
Proof. eexists. split; vm_compute; reflexivity. Qed.

Lemma ProcessBulkDataStream_unclosed_array_witness :
  exists evs s',
    ProcessBulkDataStream (codec := sample_codec)
      (bodyReader (clean unclosed_chunks)) count_cb 0%nat
    = Some (evs, s', Some (wrapError "decode closing bracket: " io_EOF))
    /\ card_calls evs
       = map (fun it => (card_of (codec := sample_codec) it, None))
           one_card_items
    /\ (silent (bodyReader (St := nat) (clean unclosed_chunks)) ->
        s' = replay count_cb (card_calls evs) 0%nat).
Proof.
  apply (@ProcessBulkDataStream_unclosed_array nat sample_codec
           (bodyReader (clean unclosed_chunks)) count_cb 0%nat
           unclosed_chunks [] one_card_items (bytes_of " ")).
  - reflexivity.
  - vm_compute. reflexivity.
  - reflexivity.
  - repeat constructor.
  - reflexivity.
  - reflexivity.
Defined.

Lemma ProcessBulkDataStream_missing_comma_witness :
  exists evs s',
    ProcessBulkDataStream (codec := sample_codec)
      (bodyReader (clean no_comma_chunks)) count_cb 0%nat
    = Some (evs, s',
            Some (wrapError "decode card object: "
                    (json_SyntaxError "expected comma after array element")))
    /\ card_calls evs
       = map (fun it => (card_of (codec := sample_codec) it, None))
           one_card_items
    /\ (silent (bodyReader (St := nat) (clean no_comma_chunks)) ->
        s' = replay count_cb (card_calls evs) 0%nat).
Proof.
  apply (@ProcessBulkDataStream_missing_comma nat sample_codec
           (bodyReader (clean no_comma_chunks)) count_cb 0%nat
           no_comma_chunks [] []
           {| lead := []; pre := []; val := json_bytes "{'id':'card-1'}" |}
           [] (bytes_of " ") "{"%char (json_bytes "'id':'card-2'}]")).
  - vm_compute. reflexivity.
  - vm_compute. reflexivity.
  - reflexivity.
  - repeat constructor.
  - reflexivity.
  - reflexivity.
  - discriminate.
  - reflexivity.
Defined.

(** ** The trace of a run *)

Section Traces.
Variable St : Type.
Variable P : Event -> Prop.

Lemma emits_only_ret {A} (a : A) : emits_only P (ret (St := St) a).
Proof. intros s evs s' x H. inversion H. constructor. Qed.

Lemma emits_only_diverge {A} : emits_only P (diverge (St := St) (A := A)).
Proof. intros s evs s' x H. discriminate. Qed.

Lemma emits_only_bind {A B} (m : M St A) (k : A -> M St B) :
  emits_only P m -> (forall a, emits_only P (k a)) -> emits_only P (bind m k).
Proof.
  intros Hm Hk s evs s' b H.
  apply bind_inv in H. destruct H as (e1 & s1 & a & e2 & H1 & H2 & ->).
  apply Forall_app. split; [eapply Hm; eauto|eapply Hk; eauto].
Qed.

Lemma emits_only_emit ev : P ev -> emits_only P (emit (St := St) ev).
Proof. intros Hev s evs s' x H. inversion H. now constructor. Qed.

End Traces.

Section StreamTrace.
Variable St : Type.
Context {codec : JSONCodec}.

Lemma Reader_Read_trace (rd : Reader St) :
  emits_only stream_event (Reader_Read rd).
Proof.
  destruct rd as [b|pr]; simpl.
  - destruct (Body_Read b). apply emits_only_ret.
  - apply emits_only_bind; [|intros [r' res]; apply emits_only_ret].
    unfold progressReader_Read. destruct (Body_Read (ReadCloser pr)).
    destruct (OnRead pr); [|apply emits_only_ret].
    apply emits_only_bind; [|intros; apply emits_only_ret].
    intros s evs s' a H. unfold call_progress in H. inversion H.
    repeat constructor.
Qed.

Lemma refill_trace (dec : Decoder St) : emits_only stream_event (refill dec).
Proof.
  unfold refill. apply emits_only_bind; [apply Reader_Read_trace|].
  intros [rd [chunk e]]. apply emits_only_ret.
Qed.

Lemma peek_loop_trace fuel : forall (dec : Decoder St) err,
  emits_only stream_event (peek_loop fuel dec err).
Proof.
  induction fuel as [|fuel IH]; intros dec err; simpl;
    destruct (dropSpace (buf dec)); try apply emits_only_ret;
    destruct err; try apply emits_only_ret; try apply emits_only_diverge.
  apply emits_only_bind; [apply refill_trace|]. intros [d e]. apply IH.
Qed.

Lemma peek_trace (dec : Decoder St) : emits_only stream_event (peek dec).
Proof. apply peek_loop_trace. Qed.

Lemma More_trace (dec : Decoder St) : emits_only stream_event (More dec).
Proof.
  unfold More. apply emits_only_bind; [apply peek_trace|].
  intros [d [c e]]. apply emits_only_ret.
Qed.

Lemma tokenPrepareForDecode_trace (dec : Decoder St) :
  emits_only stream_event (tokenPrepareForDecode dec).
Proof.
  unfold tokenPrepareForDecode.
  destruct (tokenState dec); try apply emits_only_ret;
    (apply emits_only_bind; [apply peek_trace|]);
    intros [d [c [e|]]]; try apply emits_only_ret;
    match goal with |- emits_only _ (if ?b then _ else _) => destruct b end;
    apply emits_only_ret.
Qed.

Lemma readValue_loop_trace fuel : forall (dec : Decoder St) sc n err,
  emits_only stream_event (readValue_loop fuel dec sc n err).
Proof.
  induction fuel as [|fuel IH]; intros dec sc n err; simpl;
    destruct (scan_buf sc n (skipn n (buf dec))); try apply emits_only_ret;
    destruct err as [e|];
    try (destruct (is_EOF e);
         [destruct (is_scanEnd _)|]; apply emits_only_ret);
    try apply emits_only_diverge.
  apply emits_only_bind; [apply refill_trace|]. intros [d e]. apply IH.
Qed.

Lemma readValue_trace (dec : Decoder St) :
  emits_only stream_event (readValue dec).
Proof. apply readValue_loop_trace. Qed.

Lemma Decode_trace {A} (zero : A) um (dec : Decoder St) :
  emits_only stream_event (Decode zero um dec).
Proof.
  unfold Decode. destruct (dec_err dec); [apply emits_only_ret|].
  apply emits_only_bind; [apply tokenPrepareForDecode_trace|].
  intros [d [e|]]; [apply emits_only_ret|].
  destruct (negb (tokenValueAllowed d)); [apply emits_only_ret|].
  apply emits_only_bind; [apply readValue_trace|].
  intros [d' [n [e|]]]; [apply emits_only_ret|].
  destruct (um _). apply emits_only_ret.
Qed.

Lemma token_value_trace (dec : Decoder St) c :
  emits_only stream_event (token_value dec c).
Proof.
  unfold token_value.
  destruct (negb (tokenValueAllowed dec)); [apply emits_only_ret|].
  apply emits_only_bind; [apply Decode_trace|].
  intros [d [x [e|]]]; apply emits_only_ret.
Qed.

Lemma token_push_trace (dec : Decoder St) c t :
  emits_only stream_event (token_push dec c t).
Proof.
  unfold token_push.
  destruct (negb (tokenValueAllowed dec)); apply emits_only_ret.
Qed.

Lemma token_pop_trace (dec : Decoder St) c :
  emits_only stream_event (token_pop dec c).
Proof.
  unfold token_pop.
  destruct (tokenStack dec); [apply emits_only_diverge|apply emits_only_ret].
Qed.

Lemma Token_loop_trace fuel : forall (dec : Decoder St),
  emits_only stream_event (Token_loop fuel dec).
Proof.
  induction fuel as [|fuel IH]; intros dec; simpl;
    (apply emits_only_bind; [apply peek_trace|]);
    intros [d [c [e|]]]; try apply emits_only_ret;
    repeat match goal with
           | |- emits_only _ (if ?b then _ else _) => destruct b
           | |- emits_only _ (match tokenState ?d with _ => _ end) =>
               destruct (tokenState d)
           end;
    try apply emits_only_ret; try apply emits_only_diverge;
    try apply token_push_trace; try apply token_pop_trace;
    try apply token_value_trace; try apply IH;
    (apply emits_only_bind; [apply Decode_trace|]);
    intros [d' [x [e|]]]; apply emits_only_ret.
Qed.

Lemma Token_trace (dec : Decoder St) : emits_only stream_event (Token dec).
Proof. apply Token_loop_trace. Qed.

Lemma call_card_trace (cb : CardCallback St) card :
  emits_only stream_event (call_card cb card).
Proof.
  intros s evs s' a H. unfold call_card in H.
  destruct (cb card s). inversion H. repeat constructor.
Qed.

Lemma cards_loop_trace (cb : CardCallback St) fuel : forall (dec : Decoder St),
  emits_only stream_event (cards_loop fuel dec cb).
Proof.
  induction fuel as [|fuel IH]; intros dec; rewrite cards_loop_unfold;
    (apply emits_only_bind; [apply More_trace|]);
    intros [d [|]]; try apply emits_only_ret;
    (apply emits_only_bind; [apply Decode_trace|]);
    intros [d' [card [e|]]]; try apply emits_only_ret;
    (apply emits_only_bind; [apply call_card_trace|]);
    intros [e|]; try apply emits_only_ret;
    [apply emits_only_diverge|apply IH].
Qed.

(** [ProcessBulkDataStream] does nothing but call the two callbacks. *)
Lemma ProcessBulkDataStream_trace (reader : Reader St) cb :
  emits_only stream_event (ProcessBulkDataStream reader cb).
Proof.
  unfold ProcessBulkDataStream.
  apply emits_only_bind; [apply Token_trace|].
  intros [d [t [e|]]]; [apply emits_only_ret|].
  destruct (negb (is_delim t "[")); [apply emits_only_ret|].
  apply emits_only_bind; [apply cards_loop_trace|].
  intros [d' [e|]]; [apply emits_only_ret|].
  apply emits_only_bind; [apply Token_trace|].
  intros [d2 [t2 [e|]]]; [apply emits_only_ret|].
  destruct (negb (is_delim t2 "]")); apply emits_only_ret.
Qed.

End StreamTrace.

(** ** The endpoint operations *)

Section EndpointFacts.
Variable St : Type.
Context {codec : JSONCodec} {platform : Platform}.

(** [get] returns, and leaves the caller's state as it is. *)
Lemma get_returns {A} (c : Client) ctx path (zero : A) um (s : St) :
  exists evs v err, get c ctx path zero um s = Some (evs, s, (v, err)).
Proof.
  unfold get.
  unfold bind at 1. unfold emit at 1.
  destruct (limiter c (ctx_or_Background ctx)) as [e|].
  { eexists _, _, _. reflexivity. }
  destruct (url_Parse path) as [rel [e|]].
  { eexists _, _, _. reflexivity. }
  destruct (http_NewRequestWithContext (ctx_or_Background ctx) "GET"
              (URL_String (ResolveReference (baseURL c) rel))) as [e|].
  { eexists _, _, _. reflexivity. }
  unfold bind at 1. unfold emit at 1.
  unfold bind at 1. unfold emit at 1.
  destruct (httpClient c _) as [resp [e|]].
  { eexists _, _, _. reflexivity. }
  destruct (Response_StatusCode resp >=? 400)%Z.
  - destruct (decodeAPIError (Response_Body resp)) as [x [e|]] eqn:E.
    + eexists _, _, _. reflexivity.
    + destruct x as [a|]; [eexists _, _, _; reflexivity|].
      now apply decodeAPIError_some in E.
  - destruct (io_ReadAll (Response_Body resp)) as [body [e|]].
    + eexists _, _, _. reflexivity.
    + destruct (json_Unmarshal zero um body) as [v [e|]];
        eexists _, _, _; reflexivity.
Qed.

(** [get] when the limiter refuses. *)
Lemma get_limiter_refusal {A} (c : Client) ctx path (zero : A) um (s : St) e :
  limiter c (ctx_or_Background ctx) = Some e ->
  get c ctx path zero um s
  = Some ([EvLimiterWait], s,
          (zero, Some (wrapError "wait for rate limiter: " e))).
Proof.
  intros H. unfold get. unfold bind at 1. unfold emit at 1.
  rewrite H. reflexivity.
Qed.

(** [get] on a response with a status below 400 whose body can be read. *)
Lemma get_body {A} (c : Client) ctx path (zero : A) um (s : St) resp b :
  get_answers c ctx path resp ->
  (Response_StatusCode resp < 400)%Z ->
  io_ReadAll (Response_Body resp) = (b, None) ->
  get c ctx path zero um s
  = Some (get_events c path, s,
          (fst (json_Unmarshal zero um b),
           match snd (json_Unmarshal zero um b) with
           | Some e => Some (wrapError "decode response: " e)
           | None => None
           end)).
Proof.
  intros (Hlim & Hurl & Hreq & Hdo) Hst Hb.
  unfold get_url in Hreq, Hdo. unfold get_events, get_url.
  unfold get.
  destruct (url_Parse path) as [rel perr]. simpl in Hurl, Hreq, Hdo |- *.
  subst perr.
  unfold bind at 1. unfold emit at 1. rewrite Hlim, Hreq.
  unfold bind at 1. unfold emit at 1.
  unfold bind at 1. unfold emit at 1.
  rewrite Hdo.
  assert (Hge : (Response_StatusCode resp >=? 400)%Z = false)
    by (rewrite Z.geb_leb; apply Z.leb_gt; lia).
  rewrite Hge, Hb.
  destruct (json_Unmarshal zero um b) as [v [e|]]; reflexivity.
Qed.

End EndpointFacts.

Section EndpointExtras.
Context {codec : JSONCodec} {platform : Platform}.

(** X6: the four endpoint operations return whatever the limiter, the
    transport and the server do, and leave the caller's state as it is.
    [GetCardByID] and [GetBulkDataByType] return a value or an error,
    never both and never neither; [ListBulkData] and [ListSets] return
    the nil slice with every error. *)
Theorem endpoint_value_or_error (St : Type) (c : Client) ctx id bulkType
    (s : St) :
  (exists evs card err,
      GetCardByID c ctx id s = Some (evs, s, (card, err))
      /\ (card = None <-> err <> None))
  /\ (exists evs data err,
        GetBulkDataByType c ctx bulkType s = Some (evs, s, (data, err))
        /\ (data = None <-> err <> None))
  /\ (exists evs data err,
        ListBulkData c ctx s = Some (evs, s, (data, err))
        /\ (err <> None -> data = []))
  /\ (exists evs data err,
        ListSets c ctx s = Some (evs, s, (data, err))
        /\ (err <> None -> data = [])).
Proof.
  split; [|split; [|split]].
  - unfold GetCardByID. destruct (id =? "")%string.
    { eexists _, _, _. split; [reflexivity|]. split; [discriminate|reflexivity]. }
    destruct (@get_returns St codec platform _ c ctx ("/cards/" ++ id)
                zeroCard decode_Card s) as (evs & v & err & Hg).
    unfold bind. rewrite Hg.
    destruct err as [e|]; eexists _, _, _; (split; [reflexivity|]).
    + split; [discriminate|reflexivity].
    + split; [discriminate|congruence].
  - unfold GetBulkDataByType. destruct (bulkType =? "")%string.
    { eexists _, _, _. split; [reflexivity|]. split; [discriminate|reflexivity]. }
    destruct (@get_returns St codec platform _ c ctx
                ("/bulk-data/" ++ bulkType) zeroCardBulkData
                decode_CardBulkData s) as (evs & v & err & Hg).
    unfold bind. rewrite Hg.
    destruct err as [e|]; eexists _, _, _; (split; [reflexivity|]).
    + split; [discriminate|reflexivity].
    + split; [discriminate|congruence].
  - unfold ListBulkData.
    destruct (@get_returns St codec platform _ c ctx "/bulk-data" []
                decode_BulkDataList s) as (evs & v & err & Hg).
    unfold bind. rewrite Hg.
    destruct err as [e|]; eexists _, _, _; (split; [reflexivity|]).
    + reflexivity.
    + congruence.
  - unfold ListSets.
    destruct (@get_returns St codec platform _ c ctx "/sets" []
                decode_SetList s) as (evs & v & err & Hg).
    unfold bind. rewrite Hg.
    destruct err as [e|]; eexists _, _, _; (split; [reflexivity|]).
    + reflexivity.
    + congruence.
Qed.

(** X7: when the rate limiter refuses to let a request pass, the four
    endpoint operations return [wait for rate limiter:] wrapping its
    error, and nothing else has happened: no request was built or sent. *)
Theorem endpoint_limiter_refusal (St : Type) (c : Client) ctx id bulkType
    (s : St) e :
  limiter c (ctx_or_Background ctx) = Some e ->
  id <> ""%string -> bulkType <> ""%string ->
  let failure := Some (wrapError "wait for rate limiter: " e) in
  GetCardByID c ctx id s = Some ([EvLimiterWait], s, (None, failure))
  /\ GetBulkDataByType c ctx bulkType s
     = Some ([EvLimiterWait], s, (None, failure))
  /\ ListBulkData c ctx s = Some ([EvLimiterWait], s, ([], failure))
  /\ ListSets c ctx s = Some ([EvLimiterWait], s, ([], failure)).
Proof.
  intros Hlim Hid Hty failure.
  apply String.eqb_neq in Hid. apply String.eqb_neq in Hty.
  unfold GetCardByID, GetBulkDataByType, ListBulkData, ListSets, bind.
  rewrite Hid, Hty.
  rewrite !(@get_limiter_refusal St codec platform _ c ctx _ _ _ s e Hlim).
  repeat split; reflexivity.
Qed.

(** X8: when the server answers with a status below 400 and a body that
    is valid JSON, read in any number of reads, [GetCardByID] and
    [GetBulkDataByType] return what [json] decodes from the body: the
    value and nil, or nil and [decode response:] wrapping the decoder's
    error. *)
Theorem endpoint_decodes_body (St : Type) (c : Client) ctx (s : St) resp b :
  (Response_StatusCode resp < 400)%Z ->
  io_ReadAll (Response_Body resp) = (b, None) ->
  checkValid b = None ->
  (forall id, id <> ""%string ->
   get_answers c ctx ("/cards/" ++ id) resp ->
   GetCardByID c ctx id s
   = Some (get_events c ("/cards/" ++ id), s,
           match decode_Card (dropSpace b) with
           | (card, None) => (Some card, None)
           | (_, Some e) => (None, Some (wrapError "decode response: " e))
           end))
  /\ (forall bulkType, bulkType <> ""%string ->
      get_answers c ctx ("/bulk-data/" ++ bulkType) resp ->
      GetBulkDataByType c ctx bulkType s
      = Some (get_events c ("/bulk-data/" ++ bulkType), s,
              match decode_CardBulkData (dropSpace b) with
              | (data, None) => (Some data, None)
              | (_, Some e) => (None, Some (wrapError "decode response: " e))
              end))
  /\ (get_answers c ctx "/bulk-data" resp ->
      ListBulkData c ctx s
      = Some (get_events c "/bulk-data", s,
              match decode_BulkDataList (dropSpace b) with
              | (data, None) => (data, None)
              | (_, Some e) => ([], Some (wrapError "decode response: " e))
              end))
  /\ (get_answers c ctx "/sets" resp ->
      ListSets c ctx s
      = Some (get_events c "/sets", s,
              match decode_SetList (dropSpace b) with
              | (data, None) => (data, None)
              | (_, Some e) => ([], Some (wrapError "decode response: " e))
              end)).
Proof.
  intros Hst Hb Hvalid.
  split; [|split; [|split]].
  - intros id Hid Hans. unfold GetCardByID.
    apply String.eqb_neq in Hid. rewrite Hid. unfold bind.
    rewrite (@get_body St codec platform _ c ctx _ zeroCard decode_Card s
               resp b Hans Hst Hb).
    unfold json_Unmarshal. rewrite Hvalid.
    destruct (decode_Card (dropSpace b)) as [card [e|]]; reflexivity.
  - intros ty Hty Hans. unfold GetBulkDataByType.
    apply String.eqb_neq in Hty. rewrite Hty. unfold bind.
    rewrite (@get_body St codec platform _ c ctx _ zeroCardBulkData
               decode_CardBulkData s resp b Hans Hst Hb).
    unfold json_Unmarshal. rewrite Hvalid.
    destruct (decode_CardBulkData (dropSpace b)) as [data [e|]]; reflexivity.
  - intros Hans. unfold ListBulkData, bind.
    rewrite (@get_body St codec platform _ c ctx _ [] decode_BulkDataList s
               resp b Hans Hst Hb).
    unfold json_Unmarshal. rewrite Hvalid.
    destruct (decode_BulkDataList (dropSpace b)) as [data [e|]]; reflexivity.
  - intros Hans. unfold ListSets, bind.
    rewrite (@get_body St codec platform _ c ctx _ [] decode_SetList s
               resp b Hans Hst Hb).
    unfold json_Unmarshal. rewrite Hvalid.
    destruct (decode_SetList (dropSpace b)) as [data [e|]]; reflexivity.
Qed.

(** X9: when the server answers with a status below 400 and a body that
    is not one valid JSON value (an empty body is none), the four
    endpoint operations return no value and [decode response:] wrapping
    the syntax error; the decoder of the value is not asked. *)
Theorem endpoint_invalid_body (St : Type) (c : Client) ctx (s : St) resp b e :
  (Response_StatusCode resp < 400)%Z ->
  io_ReadAll (Response_Body resp) = (b, None) ->
  checkValid b = Some e ->
  let failure := Some (wrapError "decode response: " e) in
  (forall id, id <> ""%string ->
   get_answers c ctx ("/cards/" ++ id) resp ->
   GetCardByID c ctx id s
   = Some (get_events c ("/cards/" ++ id), s, (None, failure)))
  /\ (forall bulkType, bulkType <> ""%string ->
      get_answers c ctx ("/bulk-data/" ++ bulkType) resp ->
      GetBulkDataByType c ctx bulkType s
      = Some (get_events c ("/bulk-data/" ++ bulkType), s, (None, failure)))
  /\ (get_answers c ctx "/bulk-data" resp ->
      ListBulkData c ctx s = Some (get_events c "/bulk-data", s, ([], failure)))
  /\ (get_answers c ctx "/sets" resp ->
      ListSets c ctx s = Some (get_events c "/sets", s, ([], failure))).
Proof.
  intros Hst Hb Hvalid failure.
  split; [|split; [|split]].
  - intros id Hid Hans. unfold GetCardByID.
    apply String.eqb_neq in Hid. rewrite Hid. unfold bind.
    rewrite (@get_body St codec platform _ c ctx _ zeroCard decode_Card s
               resp b Hans Hst Hb).
    unfold json_Unmarshal. rewrite Hvalid. reflexivity.
  - intros ty Hty Hans. unfold GetBulkDataByType.
    apply String.eqb_neq in Hty. rewrite Hty. unfold bind.
    rewrite (@get_body St codec platform _ c ctx _ zeroCardBulkData
               decode_CardBulkData s resp b Hans Hst Hb).
    unfold json_Unmarshal. rewrite Hvalid. reflexivity.
  - intros Hans. unfold ListBulkData, bind.
    rewrite (@get_body St codec platform _ c ctx _ [] decode_BulkDataList s
               resp b Hans Hst Hb).
    unfold json_Unmarshal. rewrite Hvalid. reflexivity.
  - intros Hans. unfold ListSets, bind.
    rewrite (@get_body St codec platform _ c ctx _ [] decode_SetList s
               resp b Hans Hst Hb).
    unfold json_Unmarshal. rewrite Hvalid. reflexivity.
Qed.

(** X10: when the server answers with a status of 400 or more and a body
    of no bytes at all, the four endpoint operations return an
    [APIError] that holds the status code and nothing else, whose text
    is [scryfall api error (N)]: the empty body is not handed to the
    JSON decoder. *)
Theorem endpoint_empty_error_body (St : Type) (c : Client) ctx (s : St) resp :
  (400 <= Response_StatusCode resp)%Z ->
  io_ReadAll (Response_Body resp) = ([], None) ->
  let apiErr := {| StatusCode := Response_StatusCode resp; Details := "";
                   APIError_Type := ""; Warnings := [] |} in
  APIError_Error (Some apiErr)
  = ("scryfall api error (" ++ itoa (Response_StatusCode resp) ++ ")")%string
  /\ (forall id, id <> ""%string ->
      get_answers c ctx ("/cards/" ++ id) resp ->
      GetCardByID c ctx id s
      = Some (get_events c ("/cards/" ++ id), s,
              (None, Some (APIError_ptr apiErr))))
  /\ (forall bulkType, bulkType <> ""%string ->
      get_answers c ctx ("/bulk-data/" ++ bulkType) resp ->
      GetBulkDataByType c ctx bulkType s
      = Some (get_events c ("/bulk-data/" ++ bulkType), s,
              (None, Some (APIError_ptr apiErr))))
  /\ (get_answers c ctx "/bulk-data" resp ->
      ListBulkData c ctx s
      = Some (get_events c "/bulk-data", s, ([], Some (APIError_ptr apiErr))))
  /\ (get_answers c ctx "/sets" resp ->
      ListSets c ctx s
      = Some (get_events c "/sets", s, ([], Some (APIError_ptr apiErr)))).
Proof.
  intros Hst Hb apiErr.
  assert (Hf : status_failure resp = Some (APIError_ptr apiErr)).
  { unfold status_failure, decodeAPIError. rewrite Hb. reflexivity. }
  split; [reflexivity|].
  split; [|split; [|split]].
  - intros id Hid Hans. unfold GetCardByID.
    apply String.eqb_neq in Hid. rewrite Hid. unfold bind.
    rewrite (@get_status_failure St codec platform _ c ctx _ zeroCard
               decode_Card s resp Hans Hst).
    rewrite Hf. reflexivity.
  - intros ty Hty Hans. unfold GetBulkDataByType.
    apply String.eqb_neq in Hty. rewrite Hty. unfold bind.
    rewrite (@get_status_failure St codec platform _ c ctx _ zeroCardBulkData
               decode_CardBulkData s resp Hans Hst).
    rewrite Hf. reflexivity.
  - intros Hans. unfold ListBulkData, bind.
    rewrite (@get_status_failure St codec platform _ c ctx _ []
               decode_BulkDataList s resp Hans Hst).
    rewrite Hf. reflexivity.
  - intros Hans. unfold ListSets, bind.
    rewrite (@get_status_failure St codec platform _ c ctx _ []
               decode_SetList s resp Hans Hst).
    rewrite Hf. reflexivity.
Qed.

End EndpointExtras.

(** *** The endpoint operations on a sample server *)

Lemma endpoint_limiter_refusal_witness :
  let failure :=
    Some (wrapError "wait for rate limiter: "
            (foreignError "context deadline exceeded")) in
  GetCardByID (codec := sample_codec) refusing_client None "abc" 0%nat
  = Some ([EvLimiterWait], 0%nat, (None, failure))
  /\ GetBulkDataByType (codec := sample_codec) refusing_client None
       "all_cards" 0%nat
     = Some ([EvLimiterWait], 0%nat, (None, failure))
  /\ ListBulkData (codec := sample_codec) refusing_client None 0%nat
     = Some ([EvLimiterWait], 0%nat, ([], failure))
  /\ ListSets (codec := sample_codec) refusing_client None 0%nat
     = Some ([EvLimiterWait], 0%nat, ([], failure)).
Proof.
  apply (@endpoint_limiter_refusal sample_codec sample_platform nat
           refusing_client None "abc" "all_cards" 0%nat
           (foreignError "context deadline exceeded")).
  - reflexivity.
  - discriminate.
  - discriminate.
Defined.

Lemma endpoint_decodes_body_witness :
  (forall id, id <> ""%string ->
   get_answers (sample_client lotus_response) None ("/cards/" ++ id)
     lotus_response ->
   GetCardByID (codec := sample_codec) (sample_client lotus_response) None id
     0%nat
   = Some (get_events (sample_client lotus_response) ("/cards/" ++ id), 0%nat,
           match decode_Card (JSONCodec := sample_codec)
                   (dropSpace lotus_body) with
           | (card, None) => (Some card, None)
           | (_, Some e) => (None, Some (wrapError "decode response: " e))
           end))
  /\ (forall bulkType, bulkType <> ""%string ->
      get_answers (sample_client lotus_response) None
        ("/bulk-data/" ++ bulkType) lotus_response ->
      GetBulkDataByType (codec := sample_codec) (sample_client lotus_response)
        None bulkType 0%nat
      = Some (get_events (sample_client lotus_response)
                ("/bulk-data/" ++ bulkType), 0%nat,
              match decode_CardBulkData (JSONCodec := sample_codec)
                      (dropSpace lotus_body) with
              | (data, None) => (Some data, None)
              | (_, Some e) => (None, Some (wrapError "decode response: " e))
              end))
  /\ (get_answers (sample_client lotus_response) None "/bulk-data"
        lotus_response ->
      ListBulkData (codec := sample_codec) (sample_client lotus_response) None
        0%nat
      = Some (get_events (sample_client lotus_response) "/bulk-data", 0%nat,
              match decode_BulkDataList (JSONCodec := sample_codec)
                      (dropSpace lotus_body) with
              | (data, None) => (data, None)
              | (_, Some e) => ([], Some (wrapError "decode response: " e))
              end))
  /\ (get_answers (sample_client lotus_response) None "/sets"
        lotus_response ->
      ListSets (codec := sample_codec) (sample_client lotus_response) None
        0%nat
      = Some (get_events (sample_client lotus_response) "/sets", 0%nat,
              match decode_SetList (JSONCodec := sample_codec)
                      (dropSpace lotus_body) with
              | (data, None) => (data, None)
              | (_, Some e) => ([], Some (wrapError "decode response: " e))
              end)).
Proof.
  apply (@endpoint_decodes_body sample_codec sample_platform nat
           (sample_client lotus_response) None 0%nat lotus_response
           lotus_body).
  - reflexivity.
  - vm_compute. reflexivity.
  - vm_compute. reflexivity.
Defined.

Example GetCardByID_lotus :
  GetCardByID (codec := sample_codec) (sample_client lotus_response) None
    "abc" 0%nat
  = Some ([EvLimiterWait; EvLog "debug" "scryfall api request";
           EvHTTPDo "https://api.scryfall.com/cards/abc"; EvBodyClose],
          0%nat, (Some (sample_card "abc" "Black Lotus"), None)).
Proof. vm_compute. reflexivity. Qed.

Lemma endpoint_invalid_body_witness :
  let resp := sample_response 200 [] in
  let failure :=
    Some (wrapError "decode response: "
            (json_SyntaxError "unexpected end of JSON input")) in
  (forall id, id <> ""%string ->
   get_answers (sample_client resp) None ("/cards/" ++ id) resp ->
   GetCardByID (codec := sample_codec) (sample_client resp) None id 0%nat
   = Some (get_events (sample_client resp) ("/cards/" ++ id), 0%nat,
           (None, failure)))
  /\ (forall bulkType, bulkType <> ""%string ->
      get_answers (sample_client resp) None ("/bulk-data/" ++ bulkType) resp ->
      GetBulkDataByType (codec := sample_codec) (sample_client resp) None
        bulkType 0%nat
      = Some (get_events (sample_client resp) ("/bulk-data/" ++ bulkType),
              0%nat, (None, failure)))
  /\ (get_answers (sample_client resp) None "/bulk-data" resp ->
      ListBulkData (codec := sample_codec) (sample_client resp) None 0%nat
      = Some (get_events (sample_client resp) "/bulk-data", 0%nat,
              ([], failure)))
  /\ (get_answers (sample_client resp) None "/sets" resp ->
      ListSets (codec := sample_codec) (sample_client resp) None 0%nat
      = Some (get_events (sample_client resp) "/sets", 0%nat, ([], failure))).
Proof.
  apply (@endpoint_invalid_body sample_codec sample_platform nat
           (sample_client (sample_response 200 [])) None 0%nat
           (sample_response 200 []) []
           (json_SyntaxError "unexpected end of JSON input")).
  - reflexivity.
  - reflexivity.
  - reflexivity.
Defined.

Lemma endpoint_empty_error_body_witness :
  let resp := sample_response 503 [] in
  let apiErr := {| StatusCode := 503; Details := ""; APIError_Type := "";
                   Warnings := [] |} in
  APIError_Error (Some apiErr) = "scryfall api error (503)"%string
  /\ (forall id, id <> ""%string ->
      get_answers (sample_client resp) None ("/cards/" ++ id) resp ->
      GetCardByID (codec := sample_codec) (sample_client resp) None id 0%nat
      = Some (get_events (sample_client resp) ("/cards/" ++ id), 0%nat,
              (None, Some (APIError_ptr apiErr))))
  /\ (forall bulkType, bulkType <> ""%string ->
      get_answers (sample_client resp) None ("/bulk-data/" ++ bulkType) resp ->
      GetBulkDataByType (codec := sample_codec) (sample_client resp) None
        bulkType 0%nat
      = Some (get_events (sample_client resp) ("/bulk-data/" ++ bulkType),
              0%nat, (None, Some (APIError_ptr apiErr))))
  /\ (get_answers (sample_client resp) None "/bulk-data" resp ->
      ListBulkData (codec := sample_codec) (sample_client resp) None 0%nat
      = Some (get_events (sample_client resp) "/bulk-data", 0%nat,
              ([], Some (APIError_ptr apiErr))))
  /\ (get_answers (sample_client resp) None "/sets" resp ->
      ListSets (codec := sample_codec) (sample_client resp) None 0%nat
      = Some (get_events (sample_client resp) "/sets", 0%nat,
              ([], Some (APIError_ptr apiErr)))).
Proof.
  apply (@endpoint_empty_error_body sample_codec sample_platform nat
           (sample_client (sample_response 503 [])) None 0%nat
           (sample_response 503 [])).
  - vm_compute. discriminate.
  - reflexivity.
Defined.

(** ** Copying a body to a file *)

Lemma file_writes_app (a b : list Event) :
  file_writes (a ++ b) = file_writes a ++ file_writes b.
Proof. unfold file_writes. apply flat_map_app. Qed.

Lemma written_app (a b : list Event) : written (a ++ b) = written a ++ written b.
Proof. unfold written. now rewrite file_writes_app, concat_app. Qed.

Section CopyFacts.
Variable St : Type.
Context {platform : Platform}.

Lemma Reader_Read_copy (rd : Reader St) s :
  exists evs s' rd',
    Reader_Read rd s = Some (evs, s', (rd', fst (Body_Read (Reader_body rd))))
    /\ Reader_body rd' = snd (Body_Read (Reader_body rd))
    /\ Forall copy_event evs /\ written evs = []
    /\ (silent rd -> s' = s /\ silent rd').
Proof.
  destruct rd as [b|pr]; simpl.
  - destruct (Body_Read b) as [res b'] eqn:E.
    eexists _, _, _. split; [reflexivity|]. repeat split; constructor.
  - unfold bind, progressReader_Read.
    destruct (Body_Read (ReadCloser pr)) as [res b'] eqn:E.
    destruct (OnRead pr) as [f|] eqn:Ef; simpl.
    + eexists _, _, _. split; [reflexivity|].
      split; [reflexivity|]. split; [repeat constructor|].
      split; [reflexivity|]. intros H. discriminate.
    + eexists _, _, _. split; [reflexivity|].
      split; [reflexivity|]. split; [constructor|].
      split; [reflexivity|]. intros _. split; reflexivity.
Qed.

Lemma io_Copy_unfold fuel path (rd : Reader St) :
  io_Copy fuel path rd =
  ('(rd, (chunk, er)) <- Reader_Read rd ;;
   ew <- match chunk with
         | [] => ret None
         | _ => emit (EvFileWrite chunk) ;;; ret (File_Write path chunk)
         end ;;
   match ew with
   | Some e => ret (Some e)
   | None =>
       match er with
       | Some e => ret (if is_EOF e then None else Some e)
       | None =>
           match fuel with
           | O => diverge
           | S fuel' => io_Copy fuel' path rd
           end
       end
   end).
Proof. destruct fuel; reflexivity. Qed.

(** One round of [io.Copy]: what the write of a chunk leaves on the
    trace. *)
Lemma write_chunk (path : string) (chunk : bytes) (s : St) :
  exists evs,
    match chunk with
    | [] => ret None
    | _ => emit (EvFileWrite chunk) ;;; ret (File_Write path chunk)
    end s
    = Some (evs, s, match chunk with
                    | [] => None
                    | _ => File_Write path chunk
                    end)
    /\ Forall copy_event evs /\ written evs = chunk.
Proof.
  destruct chunk as [|c chunk].
  - exists []. repeat split; constructor.
  - exists [EvFileWrite (c :: chunk)]. split; [reflexivity|].
    split; [repeat constructor|]. unfold written. simpl.
    now rewrite app_nil_r.
Qed.

(** [io.Copy] returns, hands the file a prefix of what the body delivers
    and touches the caller's state through the progress callback only. *)
Lemma io_Copy_total path : forall (body : Body) (rd : Reader St) fuel s,
  Reader_body rd = body -> (List.length body <= fuel)%nat ->
  exists evs s' res,
    io_Copy fuel path rd s = Some (evs, s', res)
    /\ Forall copy_event evs
    /\ (exists tail, Body_bytes body = written evs ++ tail)
    /\ (silent rd -> s' = s).
Proof.
  induction body as [|[chunk er] body IH]; intros rd fuel s Hb Hf;
    rewrite io_Copy_unfold;
    destruct (Reader_Read_copy rd s)
      as (evs1 & s1 & rd1 & HR & Hb1 & Hc1 & Hw1 & Hs1);
    rewrite Hb in HR, Hb1; simpl in HR, Hb1;
    unfold bind at 1; rewrite HR; simpl.
  - eexists _, _, _. split; [reflexivity|].
    rewrite !app_nil_r. split; [exact Hc1|].
    split; [exists []; rewrite Hw1; reflexivity|].
    intros Hs. now destruct (Hs1 Hs).
  - destruct (write_chunk path chunk s1) as (evs2 & HW & Hc2 & Hw2).
    unfold bind at 1. rewrite HW. simpl.
    assert (Hpre : forall tail,
               Body_bytes ((chunk, er) :: body)
               = written (evs1 ++ evs2) ++ tail ->
               exists tail0,
                 Body_bytes ((chunk, er) :: body)
                 = written (evs1 ++ evs2 ++ []) ++ tail0).
    { intros tail H. exists tail. now rewrite app_nil_r. }
    assert (Hw12 : written (evs1 ++ evs2) = chunk)
      by now rewrite written_app, Hw1, Hw2.
    assert (Hstop : forall res : option error,
      exists evs s' res',
        Some (evs1 ++ evs2 ++ [], s1, res) = Some (evs, s', res')
        /\ Forall copy_event evs
        /\ (exists tail, Body_bytes ((chunk, er) :: body) = written evs ++ tail)
        /\ (silent rd -> s' = s)).
    { intros res. eexists _, _, _. split; [reflexivity|].
      split; [rewrite app_nil_r; apply Forall_app; now split|].
      split; [apply (Hpre (Body_bytes body)); rewrite Hw12; reflexivity|].
      intros Hs. now destruct (Hs1 Hs). }
    destruct (match chunk with [] => None | _ => File_Write path chunk end)
      as [ew|]; [apply Hstop|].
    destruct er as [e|]; [apply Hstop|].
    destruct fuel as [|fuel]; [simpl in Hf; lia|].
    destruct (IH rd1 fuel s1 Hb1) as (evs3 & s3 & res3 & HC & Hc3 & [tail Ht] & Hs3);
      [simpl in Hf; lia|].
    rewrite HC. eexists _, _, _. split; [reflexivity|].
    split; [repeat (apply Forall_app; split); auto|].
    split.
    + exists tail. rewrite !written_app, Hw1, Hw2. simpl.
      unfold Body_bytes in *. simpl. rewrite Ht, <- app_assoc. reflexivity.
    + intros Hs. destruct (Hs1 Hs) as [-> Hs']. now apply Hs3.
Qed.

(** [io.Copy] of a body that delivers [chunks] and then ends with [e],
    into a file that takes every write. *)
Lemma io_Copy_clean path : forall chunks (rd : Reader St) fuel s rest ch e,
  Reader_body rd = clean chunks ++ rest ->
  fst (Body_Read rest) = (ch, Some e) ->
  (forall data, File_Write path data = None) ->
  (List.length chunks <= fuel)%nat ->
  exists evs s',
    io_Copy fuel path rd s
    = Some (evs, s', if is_EOF e then None else Some e)
    /\ written evs = concat chunks ++ ch.
Proof.
  induction chunks as [|chunk chunks IH]; intros rd fuel s rest ch e Hb Hlast Hw Hf;
    rewrite io_Copy_unfold;
    destruct (Reader_Read_copy rd s)
      as (evs1 & s1 & rd1 & HR & Hb1 & Hc1 & Hw1 & Hs1);
    rewrite Hb in HR, Hb1; simpl in HR, Hb1;
    unfold bind at 1; rewrite HR; simpl.
  - rewrite Hlast.
    destruct (write_chunk path ch s1) as (evs2 & HW & Hc2 & Hw2).
    unfold bind at 1. rewrite HW. simpl.
    assert (Hnone : match ch with [] => None | _ => File_Write path ch end = None)
      by (destruct ch; [reflexivity|apply Hw]).
    rewrite Hnone.
    eexists _, _. split; [reflexivity|].
    now rewrite !written_app, Hw1, Hw2, app_nil_r.
  - destruct (write_chunk path chunk s1) as (evs2 & HW & Hc2 & Hw2).
    unfold bind at 1. rewrite HW. simpl.
    assert (Hnone : match chunk with [] => None | _ => File_Write path chunk end
                    = None)
      by (destruct chunk; [reflexivity|apply Hw]).
    rewrite Hnone.
    destruct fuel as [|fuel]; [simpl in Hf; lia|].
    destruct (IH rd1 fuel s1 rest ch e Hb1 Hlast Hw) as (evs3 & s3 & HC & Hw3);
      [simpl in Hf; lia|].
    rewrite HC. eexists _, _. split; [reflexivity|].
    rewrite !written_app, Hw1, Hw2, Hw3. simpl. now rewrite <- app_assoc.
Qed.

End CopyFacts.

(** ** The download operations *)

Lemma stream_events_calls evs :
  Forall stream_event evs -> file_writes evs = [].
Proof.
  induction 1 as [|ev evs Hev _ IH]; [reflexivity|].
  destruct ev; simpl in *; try contradiction; exact IH.
Qed.

Section DownloadExtras.
Context {codec : JSONCodec} {platform : Platform}.

(** X11: once the transport has answered the request of
    [DownloadBulkDataStream], whatever the status, the stream and the
    callbacks do, the operation returns and its trace is the log line,
    the request, calls of the two callbacks and, last, the closing of the
    response body: the body is closed once, after the last callback, and
    the limiter is not asked.  With a status of 400 or more no callback
    is called. *)
Theorem DownloadBulkDataStream_releases (St : Type) (c : Client) ctx uri
    (cb : CardCallback St) pf (s : St) resp :
  uri <> ""%string ->
  download_answers c ctx uri resp ->
  exists evs s' res mid,
    DownloadBulkDataStream c ctx uri cb pf s = Some (evs, s', res)
    /\ evs = EvLog "info" "downloading bulk data (streaming)"
             :: EvHTTPDo uri :: mid ++ [EvBodyClose]
    /\ Forall stream_event mid
    /\ ((400 <= Response_StatusCode resp)%Z -> mid = [])
    /\ (pf = None -> s' = replay cb (card_calls mid) s).
Proof.
  intros Huri Hans.
  destruct (Z_lt_ge_dec (Response_StatusCode resp) 400) as [Hlt | Hge].
  - destruct (ProcessBulkDataStream_total (wrapBody resp pf) cb s)
      as (evs & s' & res & Hrun & _ & Hsil).
    exists (EvLog "info" "downloading bulk data (streaming)"
            :: EvHTTPDo uri :: evs ++ [EvBodyClose]), s', res, evs.
    split; [exact (@DownloadBulkDataStream_run St codec platform c ctx uri cb
                     pf s resp evs s' res Huri Hans Hlt Hrun)|].
    split; [reflexivity|].
    split; [exact (@ProcessBulkDataStream_trace St codec _ _ _ _ _ _ Hrun)|].
    split; [lia|].
    intros ->. apply Hsil. exact I.
  - destruct Hans as (Hreq & Hdo).
    assert (Hb : (Response_StatusCode resp >=? 400)%Z = true)
      by (apply Z.geb_le; lia).
    apply String.eqb_neq in Huri.
    exists [EvLog "info" "downloading bulk data (streaming)"; EvHTTPDo uri;
            EvBodyClose], s,
      (Some (errorString ("download failed with status "
                          ++ itoa (Response_StatusCode resp)))), [].
    split.
    { unfold DownloadBulkDataStream. rewrite Huri.
      unfold bind at 1. unfold emit at 1. rewrite Hreq.
      unfold bind at 1. unfold emit at 1. rewrite Hdo, Hb. reflexivity. }
    repeat split; auto.
Qed.

(** X12: once the transport has answered the request of
    [DownloadToFile], the operation returns and closes the response body,
    last.  With a status below 400 it creates the file; if that fails it
    reads nothing; if it succeeds, the file is closed before the body,
    whatever the reads and the writes do, and the bytes handed to the
    file are, in order, a prefix of the bytes of the body.  The state
    changes through the progress callback only. *)
Theorem DownloadToFile_releases (St : Type) (c : Client) ctx uri filePath
    pf (s : St) resp :
  uri <> ""%string ->
  download_answers c ctx uri resp ->
  exists evs s' res,
    DownloadToFile c ctx uri filePath pf s = Some (evs, s', res)
    /\ (pf = None -> s' = s)
    /\ (((400 <= Response_StatusCode resp)%Z
         /\ evs = [EvHTTPDo uri; EvBodyClose])
        \/ ((Response_StatusCode resp < 400)%Z
            /\ exists e,
                 os_Create (filepath_Clean filePath) = Some e
                 /\ evs = [EvHTTPDo uri; EvFileCreate (filepath_Clean filePath);
                           EvBodyClose]
                 /\ res = Some (wrapError "create file: " e))
        \/ ((Response_StatusCode resp < 400)%Z
            /\ os_Create (filepath_Clean filePath) = None
            /\ exists mid tail,
                 evs = EvHTTPDo uri :: EvFileCreate (filepath_Clean filePath)
                       :: mid ++ [EvFileClose; EvBodyClose]
                 /\ Forall copy_event mid
                 /\ Body_bytes (Response_Body resp) = written mid ++ tail)).
Proof.
  intros Huri (Hreq & Hdo).
  apply String.eqb_neq in Huri.
  unfold DownloadToFile. rewrite Huri, Hreq.
  unfold bind at 1. unfold emit at 1. rewrite Hdo.
  destruct (Z_lt_ge_dec (Response_StatusCode resp) 400) as [Hlt | Hge].
  - assert (Hb : (Response_StatusCode resp >=? 400)%Z = false)
      by (rewrite Z.geb_leb; apply Z.leb_gt; lia).
    rewrite Hb.
    destruct (os_Create (filepath_Clean filePath)) as [e|] eqn:Ec.
    + eexists _, _, _. split; [reflexivity|]. split; [reflexivity|].
      right. left. split; [exact Hlt|]. exists e. auto.
    + destruct (@io_Copy_total St platform (filepath_Clean filePath)
                  (Response_Body resp) (wrapBody resp pf)
                  (List.length (Response_Body resp)) s
                  (Reader_body_wrapBody resp pf) (le_n _))
        as (evs1 & s1 & res1 & HC & Hc1 & [tail Ht] & Hs1).
      unfold bind, emit, ret. rewrite HC.
      exists (EvHTTPDo uri :: EvFileCreate (filepath_Clean filePath)
              :: evs1 ++ [EvFileClose; EvBodyClose]), s1,
        (match res1 with
         | Some e => Some (wrapError "copy to file: " e)
         | None => None
         end).
      split; [destruct res1; simpl; rewrite <- !app_assoc; reflexivity|].
      split; [intros ->; apply Hs1; exact I|].
      right. right. split; [exact Hlt|]. split; [reflexivity|].
      exists evs1, tail. split; [reflexivity|]. split; [exact Hc1|exact Ht].
  - assert (Hb : (Response_StatusCode resp >=? 400)%Z = true)
      by (apply Z.geb_le; lia).
    rewrite Hb.
    eexists _, _, _. split; [reflexivity|]. split; [reflexivity|].
    left. split; [lia|reflexivity].
Qed.

(** X13: when the server answers the request of [DownloadToFile] with a
    status below 400, the file can be created and takes every write, and
    the body delivers its bytes and then ends with an error [e], the
    bytes handed to the file are the bytes the body delivered, in order;
    the result is nil when [e] is [io.EOF], and [copy to file:] wrapping
    [e] otherwise, the bytes read before the failure staying in the
    file. *)
Theorem DownloadToFile_copies (St : Type) (c : Client) ctx uri filePath
    pf (s : St) resp chunks rest ch e :
  uri <> ""%string ->
  download_answers c ctx uri resp ->
  (Response_StatusCode resp < 400)%Z ->
  os_Create (filepath_Clean filePath) = None ->
  (forall data, File_Write (filepath_Clean filePath) data = None) ->
  Response_Body resp = clean chunks ++ rest ->
  fst (Body_Read rest) = (ch, Some e) ->
  exists evs s',
    DownloadToFile c ctx uri filePath pf s
    = Some (evs, s',
            if is_EOF e then None else Some (wrapError "copy to file: " e))
    /\ written evs = concat chunks ++ ch.
Proof.
  intros Huri (Hreq & Hdo) Hlt Hc Hw Hbody Hlast.
  apply String.eqb_neq in Huri.
  unfold DownloadToFile. rewrite Huri, Hreq.
  unfold bind at 1. unfold emit at 1. rewrite Hdo.
  assert (Hb : (Response_StatusCode resp >=? 400)%Z = false)
    by (rewrite Z.geb_leb; apply Z.leb_gt; lia).
  rewrite Hb, Hc.
  destruct (@io_Copy_clean St platform (filepath_Clean filePath) chunks
              (wrapBody resp pf) (List.length (Response_Body resp)) s rest
              ch e) as (evs1 & s1 & HC & Hw1); auto.
  { now rewrite Reader_body_wrapBody. }
  { rewrite Hbody, length_app. unfold clean. rewrite length_map. lia. }
  unfold bind, emit, ret. rewrite HC.
  exists (EvHTTPDo uri :: EvFileCreate (filepath_Clean filePath)
          :: evs1 ++ [EvFileClose; EvBodyClose]), s1.
  split; [destruct (is_EOF e); simpl; rewrite <- !app_assoc; reflexivity|].
  change (EvHTTPDo uri :: EvFileCreate (filepath_Clean filePath)
          :: evs1 ++ [EvFileClose; EvBodyClose])
    with ([EvHTTPDo uri; EvFileCreate (filepath_Clean filePath)]
          ++ evs1 ++ [EvFileClose; EvBodyClose]).
  rewrite !written_app, Hw1. unfold written. simpl. now rewrite app_nil_r.
Qed.

(** X14: the three download operations ask neither the limiter nor the
    base URL of the client: with another limiter and another base URL
    they do the same. *)
Theorem downloads_ignore_limiter (St : Type) (c : Client) l u ctx uri
    filePath (cb : CardCallback St) pf (s : St) :
  let c' := {| httpClient := httpClient c; baseURL := u; limiter := l;
               userAgent := userAgent c |} in
  DownloadBulkDataStream c' ctx uri cb pf s
  = DownloadBulkDataStream c ctx uri cb pf s
  /\ DownloadToFile c' ctx uri filePath pf s
     = DownloadToFile c ctx uri filePath pf s
  /\ DownloadBulkData c' ctx uri s = DownloadBulkData c ctx uri s.
Proof. repeat split. Qed.

End DownloadExtras.

(** ** The progress of a copy *)

Lemma list_sum_lengths (chunks : list bytes) :
  list_sum (map (fun c : bytes => List.length c) chunks)
  = List.length (concat chunks).
Proof.
  induction chunks as [|c chunks IH]; [reflexivity|].
  simpl. rewrite length_app. now rewrite <- IH.
Qed.

Section CopyProgress.
Variable St : Type.
Context {platform : Platform}.

Lemma io_Copy_progress path (f : ProgressFunc St) total :
  forall chunks body cur fuel s rest ch e,
  body = clean chunks ++ rest ->
  fst (Body_Read rest) = (ch, Some e) ->
  (forall data, File_Write path data = None) ->
  (0 <= cur)%Z ->
  (cur + Z.of_nat (List.length (concat chunks ++ ch)) < 2 ^ 63)%Z ->
  (List.length chunks <= fuel)%nat ->
  exists evs s' res,
    io_Copy fuel path
      (progressReader_ptr
         {| ReadCloser := body; Total := total; Current := cur;
            OnRead := Some f |}) s
    = Some (evs, s', res)
    /\ progress_calls evs
       = map (fun t => (t, total))
           (running cur (map (fun c : bytes => List.length c) (chunks ++ [ch]))).
Proof.
  induction chunks as [|chunk chunks IH];
    intros body cur fuel s rest ch e Hb Hlast Hw H0 Hsum Hf;
    rewrite io_Copy_unfold; subst body.
  - destruct (Body_Read rest) as [[ch0 e0] b'] eqn:E.
    simpl in Hlast. inversion Hlast; subst ch0 e0.
    simpl in Hsum |- *. unfold bind at 1. unfold bind at 1.
    unfold progressReader_Read. simpl. rewrite E. simpl.
    unfold call_progress, ret, bind. simpl.
    unfold bytes in *. rewrite int64_small by lia.
    destruct ch as [|c ch]; simpl.
    + eexists _, _, _. split; [reflexivity|]. reflexivity.
    + unfold emit. simpl. rewrite Hw. simpl.
      eexists _, _, _. split; [reflexivity|]. reflexivity.
  - destruct fuel as [|fuel]; [simpl in Hf; lia|].
    simpl in Hsum. rewrite <- app_assoc, length_app, Nat2Z.inj_add in Hsum.
    destruct (IH (clean chunks ++ rest)
                (cur + Z.of_nat (List.length chunk))%Z fuel
                (f (cur + Z.of_nat (List.length chunk))%Z total s)
                rest ch e eq_refl Hlast Hw)
      as (evs2 & s2 & res2 & HC & Hp2); [lia|lia|simpl in Hf; lia|].
    simpl. unfold bind at 1. unfold bind at 1.
    unfold progressReader_Read. simpl.
    unfold call_progress, ret, bind. simpl.
    unfold bytes in *. rewrite int64_small by lia.
    destruct chunk as [|c chunk]; simpl in *.
    + rewrite HC. eexists _, _, _. split; [reflexivity|].
      simpl. rewrite Hp2. reflexivity.
    + unfold emit. simpl. rewrite Hw. simpl. rewrite HC.
      eexists _, _, _. split; [reflexivity|].
      simpl. rewrite Hp2. reflexivity.
Qed.

End CopyProgress.

Section DownloadProgressExtras.
Context {codec : JSONCodec} {platform : Platform}.

(** X18: under the conditions of the copy above, [DownloadToFile] with a
    progress callback calls it once after every read, the last read that
    reports the end of the stream included, each time with the number of
    bytes read so far and the length the response declares; the total of
    the last call is the number of bytes handed to the file. *)
Theorem DownloadToFile_reports_progress (St : Type) (c : Client) ctx uri
    filePath (f : ProgressFunc St) (s : St) resp chunks rest ch e :
  uri <> ""%string ->
  download_answers c ctx uri resp ->
  (Response_StatusCode resp < 400)%Z ->
  os_Create (filepath_Clean filePath) = None ->
  (forall data, File_Write (filepath_Clean filePath) data = None) ->
  Response_Body resp = clean chunks ++ rest ->
  fst (Body_Read rest) = (ch, Some e) ->
  (Z.of_nat (List.length (concat chunks ++ ch)) < 2 ^ 63)%Z ->
  exists evs s' res,
    DownloadToFile c ctx uri filePath (Some f) s = Some (evs, s', res)
    /\ progress_calls evs
       = map (fun t => (t, ContentLength resp))
           (running 0 (map (fun c : bytes => List.length c) (chunks ++ [ch])))
    /\ List.length (progress_calls evs) = S (List.length chunks)
    /\ last (map fst (progress_calls evs)) 0%Z
       = Z.of_nat (List.length (written evs)).
Proof.
  intros Huri (Hreq & Hdo) Hlt Hc Hw Hbody Hlast Hsize.
  apply String.eqb_neq in Huri.
  unfold DownloadToFile. rewrite Huri, Hreq.
  unfold bind at 1. unfold emit at 1. rewrite Hdo.
  assert (Hb : (Response_StatusCode resp >=? 400)%Z = false)
    by (rewrite Z.geb_leb; apply Z.leb_gt; lia).
  rewrite Hb, Hc.
  assert (Hfuel : (List.length chunks <= List.length (Response_Body resp))%nat).
  { rewrite Hbody, length_app. unfold clean. rewrite length_map. lia. }
  destruct (@io_Copy_clean St platform (filepath_Clean filePath) chunks
              (wrapBody resp (Some f)) (List.length (Response_Body resp)) s
              rest ch e) as (evs1 & s1 & HC & Hw1); auto.
  destruct (@io_Copy_progress St platform (filepath_Clean filePath) f
              (ContentLength resp) chunks (Response_Body resp) 0%Z
              (List.length (Response_Body resp)) s rest ch e Hbody Hlast Hw)
    as (evs2 & s2 & res2 & HC2 & Hp); [lia|lia|exact Hfuel|].
  change (progressReader_ptr
            {| ReadCloser := Response_Body resp; Total := ContentLength resp;
               Current := 0; OnRead := Some f |})
    with (wrapBody resp (Some f)) in HC2.
  rewrite HC in HC2. inversion HC2; subst evs2 s2 res2. clear HC2.
  unfold bind, emit, ret. rewrite HC.
  exists (EvHTTPDo uri :: EvFileCreate (filepath_Clean filePath)
          :: evs1 ++ [EvFileClose; EvBodyClose]), s1,
    (if is_EOF e then None else Some (wrapError "copy to file: " e)).
  split; [destruct (is_EOF e); simpl; rewrite <- !app_assoc; reflexivity|].
  change (EvHTTPDo uri :: EvFileCreate (filepath_Clean filePath)
          :: evs1 ++ [EvFileClose; EvBodyClose])
    with ([EvHTTPDo uri; EvFileCreate (filepath_Clean filePath)]
          ++ evs1 ++ [EvFileClose; EvBodyClose]).
  rewrite !progress_calls_app, !written_app, Hp, Hw1. simpl.
  rewrite ?app_nil_r.
  split; [reflexivity|].
  split.
  - rewrite length_map, running_length, length_map, length_app. simpl. lia.
  - rewrite map_map. simpl. rewrite map_id.
    replace (written [EvFileClose; EvBodyClose]) with (@nil byte) by reflexivity.
    rewrite ?app_nil_r.
    rewrite running_last. simpl.
    rewrite list_sum_lengths, concat_app. simpl. now rewrite app_nil_r.
Qed.

End DownloadProgressExtras.

(** ** The text of an API error *)

Lemma prefixb_app (p q : string) : prefixb p (p ++ q) = true.
Proof.
  induction p as [|c p IH]; simpl; [reflexivity|].
  now rewrite Ascii.eqb_refl, IH.
Qed.

Lemma prefixb_refl (p : string) : prefixb p p = true.
Proof.
  induction p as [|c p IH]; simpl; [reflexivity|].
  now rewrite Ascii.eqb_refl, IH.
Qed.

Lemma Contains_prefix (s sub : string) :
  prefixb sub s = true -> Contains s sub = true.
Proof. intros H. destruct s; simpl in *; rewrite H; reflexivity. Qed.

Lemma Contains_skip (a s sub : string) :
  Contains s sub = true -> Contains (a ++ s) sub = true.
Proof.
  intros H. induction a as [|c a IH]; simpl; [exact H|].
  rewrite IH. apply orb_true_r.
Qed.

Lemma Contains_middle (a sub q : string) :
  Contains (a ++ sub ++ q) sub = true.
Proof. apply Contains_skip, Contains_prefix, prefixb_app. Qed.

(** X15: the text of an [APIError] starts with [scryfall api error]
    whatever the receiver, the nil pointer included; for a receiver that
    is not nil it holds the status code in decimal and the details. *)
Theorem APIError_Error_text (e : option APIError) :
  prefixb "scryfall api error" (APIError_Error e) = true
  /\ forall a, e = Some a ->
       Contains (APIError_Error e) (itoa (StatusCode a)) = true
       /\ Contains (APIError_Error e) (Details a) = true.
Proof.
  split.
  - destruct e as [a|]; [|reflexivity]. simpl.
    destruct (Details a =? "")%string; reflexivity.
  - intros a ->. unfold APIError_Error.
    destruct (Details a =? "")%string eqn:E; cbn [negb].
    + apply String.eqb_eq in E. rewrite E. split.
      * apply (Contains_middle "scryfall api error (" (itoa (StatusCode a)) ")").
      * apply Contains_prefix. reflexivity.
    + split.
      * apply (Contains_middle "scryfall api error (" (itoa (StatusCode a))
                 ("): " ++ Details a)).
      * do 3 apply Contains_skip. apply Contains_prefix, prefixb_refl.
Qed.

(** ** [NewClient] and its options *)

Section ConstructionExtras.
Variable St : Type.
Context {platform : Platform}.
Variable Logger : Type.

Lemma option_of_run (a : OptionArg Logger) (c : Client_struct Logger) (s : St) :
  exists evs c',
    option_of (St := St) a c s = Some (evs, s, c')
    /\ userAgent (fields c')
       = match a with
         | ArgUserAgent ua =>
             if (ua =? "")%string then userAgent (fields c) else ua
         | _ => userAgent (fields c)
         end
    /\ baseURL (fields c')
       = match a with
         | ArgBaseURL rawURL =>
             if (rawURL =? "")%string then baseURL (fields c)
             else match url_Parse rawURL with
                  | (u, None) => u
                  | (_, Some _) => baseURL (fields c)
                  end
         | _ => baseURL (fields c)
         end
    /\ List.length evs = List.length (invalid_baseURLs [a])
    /\ Forall (fun ev => ev = EvLog "warn" "invalid scryfall base url supplied")
         evs.
Proof.
  destruct a as [[h|]|raw|[l|]|ua|[lg|]]; simpl;
    try (eexists _, _; split; [reflexivity|]; repeat split; constructor).
  - unfold WithBaseURL. destruct (raw =? "")%string.
    + eexists _, _. split; [reflexivity|]. repeat split; constructor.
    + destruct (url_Parse raw) as [u [e|]]; simpl.
      * eexists _, _. split; [reflexivity|]. repeat split.
        repeat constructor.
      * eexists _, _. split; [reflexivity|]. repeat split; constructor.
  - unfold WithUserAgent. destruct (ua =? "")%string; simpl;
      eexists _, _; (split; [reflexivity|]); repeat split; constructor.
Qed.

Lemma apply_options_run (args : list (OptionArg Logger)) :
  forall (c : Client_struct Logger) (s : St),
  exists evs c',
    apply_options (map (@option_of St platform Logger) args) c s = Some (evs, s, c')
    /\ userAgent (fields c')
       = fold_left (fun acc a =>
                      match a with
                      | ArgUserAgent ua => if (ua =? "")%string then acc else ua
                      | _ => acc
                      end) args (userAgent (fields c))
    /\ baseURL (fields c')
       = fold_left (fun acc a =>
                      match a with
                      | ArgBaseURL rawURL =>
                          if (rawURL =? "")%string then acc
                          else match url_Parse rawURL with
                               | (u, None) => u
                               | (_, Some _) => acc
                               end
                      | _ => acc
                      end) args (baseURL (fields c))
    /\ List.length evs = List.length (invalid_baseURLs args)
    /\ Forall (fun ev => ev = EvLog "warn" "invalid scryfall base url supplied")
         evs.
Proof.
  induction args as [|a args IH]; intros c s.
  - exists [], c. repeat split; constructor.
  - destruct (option_of_run a c s) as (evs1 & c1 & H1 & Hua1 & Hb1 & Hl1 & Hw1).
    destruct (IH c1 s) as (evs2 & c2 & H2 & Hua2 & Hb2 & Hl2 & Hw2).
    exists (evs1 ++ evs2), c2.
    split; [simpl; unfold bind; now rewrite H1, H2|].
    split; [simpl; rewrite Hua2, Hua1; reflexivity|].
    split; [simpl; rewrite Hb2, Hb1; reflexivity|].
    split; [|apply Forall_app; now split].
    change (a :: args) with ([a] ++ args).
    unfold invalid_baseURLs in *. rewrite flat_map_app, !length_app.
    now rewrite Hl1, Hl2.
Qed.

Lemma chosen_userAgent_nonempty (args : list (OptionArg Logger)) :
  forall acc, acc <> ""%string ->
  fold_left (fun acc a =>
               match a with
               | ArgUserAgent ua => if (ua =? "")%string then acc else ua
               | _ => acc
               end) args acc <> ""%string.
Proof.
  induction args as [|a args IH]; intros acc Hacc; simpl; [exact Hacc|].
  apply IH. destruct a; try exact Hacc.
  destruct (ua =? "")%string eqn:E; [exact Hacc|].
  now apply String.eqb_neq.
Qed.

(** X17: [NewClient] with any options built by the five [With...]
    functions returns a client whose user agent is the last one given
    that is not empty, [repricah-scryfall/0.1] if there is none, so the
    user agent of a client is never empty; its base URL is the last one
    given that is not empty and parses, the default one if there is
    none; and all it has done besides is to log one warning for every
    base URL that does not parse. *)
Theorem NewClient_options (http_Client : Z -> Request -> Response * option error)
    (rate_NewLimiter : Z -> Z -> Context -> option error)
    (log_WithPrefix : string -> Logger)
    (args : list (OptionArg Logger)) (s : St) :
  exists evs c,
    NewClient http_Client rate_NewLimiter log_WithPrefix
      (map (@option_of St platform Logger) args) s
    = Some (evs, s, c)
    /\ userAgent (fields c) = chosen_userAgent args
    /\ userAgent (fields c) <> ""%string
    /\ baseURL (fields c) = chosen_baseURL args
    /\ evs = map (fun _ => EvLog "warn" "invalid scryfall base url supplied")
               (invalid_baseURLs args).
Proof.
  unfold NewClient.
  destruct (url_Parse defaultBaseURL) as [base perr] eqn:Eb.
  destruct (apply_options_run args
              {| fields := {| httpClient := http_Client defaultTimeout;
                              baseURL := base;
                              limiter := rate_NewLimiter
                                           defaultRequestsPerSecond
                                           defaultRequestsPerSecond;
                              userAgent := defaultUserAgent |};
                 logger := log_WithPrefix "scryfall"%string |} s)
    as (evs & c & Hrun & Hua & Hb & Hl & Hw).
  exists evs, c. split; [exact Hrun|].
  split; [exact Hua|].
  split; [rewrite Hua; apply chosen_userAgent_nonempty; discriminate|].
  split; [rewrite Hb; unfold chosen_baseURL; rewrite Eb; reflexivity|].
  clear - Hl Hw. revert Hl. generalize (invalid_baseURLs args).
  induction Hw as [|ev evs Hev _ IH]; intros [|x l] Hl; simpl in *;
    try discriminate; [reflexivity|].
  rewrite Hev. f_equal. apply IH. congruence.
Qed.

End ConstructionExtras.

(** ** The card name service *)

Section ServiceExtras.
Context {codec : JSONCodec} {platform : Platform}.

(** X16: [CardName] over the client of this package returns on every
    input, the nil dereference is never reached: when [GetCardByID]
    fails it returns the empty name and that error, and otherwise the
    name of the card that [GetCardByID] returned and nil. *)
Theorem CardName_of_client (St : Type) (c : Client) ctx id (s : St) :
  exists evs,
    (exists e,
        GetCardByID c ctx id s = Some (evs, s, (None, Some e))
        /\ CardName (NewCardLookupService (Client_API St c)) ctx id s
           = Some (evs, s, (EmptyString, Some e)))
    \/ (exists card,
          GetCardByID c ctx id s = Some (evs, s, (Some card, None))
          /\ CardName (NewCardLookupService (Client_API St c)) ctx id s
             = Some (evs, s, (Card_Name card, None))).
Proof.
  assert (H : exists evs card err,
             GetCardByID c ctx id s = Some (evs, s, (card, err))
             /\ (card = None <-> err <> None)).
  { unfold GetCardByID. destruct (id =? "")%string.
    { eexists _, _, _. split; [reflexivity|]. split; [discriminate|reflexivity]. }
    destruct (@get_returns St codec platform _ c ctx ("/cards/" ++ id)
                zeroCard decode_Card s) as (evs & v & err & Hg).
    unfold bind. rewrite Hg.
    destruct err as [e|]; eexists _, _, _; (split; [reflexivity|]).
    + split; [discriminate|reflexivity].
    + split; [discriminate|congruence]. }
  destruct H as (evs & card & err & Hg & Hiff).
  exists evs. unfold CardName, NewCardLookupService, Client_API. simpl.
  unfold bind. rewrite Hg.
  destruct err as [e|].
  - left. exists e. assert (card = None) by (apply Hiff; discriminate).
    subst. simpl. rewrite app_nil_r. auto.
  - right. destruct card as [card|].
    + exists card. simpl. rewrite app_nil_r. auto.
    + exfalso. now apply (proj1 Hiff).
Qed.

End ServiceExtras.

(** The service over a fake client that holds no card. *)
Example CardName_of_empty_fake :
  CardName (NewCardLookupService (fakeClient nat None)) None "abc-123" 0%nat
  = None.
Proof. reflexivity. Qed.

(** The example of the package. *)
Example CardName_of_fake :
  CardName
    (NewCardLookupService
       (fakeClient nat (Some (sample_card "" "Black Lotus"))))
    None "abc-123" 0%nat
  = Some ([], 0%nat, ("Black Lotus"%string, None)).
Proof. reflexivity. Qed.

(** *** The download operations on a sample server *)

Lemma DownloadBulkDataStream_releases_witness :
  let resp := sample_response 200 two_cards_chunks in
  exists evs s' res mid,
    DownloadBulkDataStream (codec := sample_codec) (sample_client resp) None
      bulk_uri count_cb (Some count_progress) 0%nat
    = Some (evs, s', res)
    /\ evs = EvLog "info" "downloading bulk data (streaming)"
             :: EvHTTPDo bulk_uri :: mid ++ [EvBodyClose]
    /\ Forall stream_event mid
    /\ ((400 <= Response_StatusCode resp)%Z -> mid = [])
    /\ (Some count_progress = None ->
        s' = replay count_cb (card_calls mid) 0%nat).
Proof.
  apply (@DownloadBulkDataStream_releases sample_codec sample_platform nat
           (sample_client (sample_response 200 two_cards_chunks)) None
           bulk_uri count_cb (Some count_progress) 0%nat
           (sample_response 200 two_cards_chunks)).
  - discriminate.
  - split; reflexivity.
Defined.

Example DownloadBulkDataStream_trace :
  exists c1 c2,
    DownloadBulkDataStream (codec := sample_codec)
      (sample_client (sample_response 200 two_cards_chunks)) None bulk_uri
      count_cb (Some count_progress) 0%nat
    = Some ([EvLog "info" "downloading bulk data (streaming)";
             EvHTTPDo bulk_uri; EvProgress 50 79; EvCard c1 None;
             EvProgress 79 79; EvCard c2 None; EvBodyClose], 4%nat, None).
Proof. eexists _, _. vm_compute. reflexivity. Qed.

Lemma DownloadToFile_releases_witness :
  let resp := abcde_response in
  let path := filepath_Clean (Platform := sample_platform) "cards.json" in
  exists evs s' res,
    DownloadToFile (sample_client resp) None bulk_uri "cards.json"
      (Some count_progress) 0%nat
    = Some (evs, s', res)
    /\ (Some count_progress = None -> s' = 0%nat)
    /\ (((400 <= Response_StatusCode resp)%Z
         /\ evs = [EvHTTPDo bulk_uri; EvBodyClose])
        \/ ((Response_StatusCode resp < 400)%Z
            /\ exists e,
                 os_Create (Platform := sample_platform) path = Some e
                 /\ evs = [EvHTTPDo bulk_uri; EvFileCreate path; EvBodyClose]
                 /\ res = Some (wrapError "create file: " e))
        \/ ((Response_StatusCode resp < 400)%Z
            /\ os_Create (Platform := sample_platform) path = None
            /\ exists mid tail,
                 evs = EvHTTPDo bulk_uri :: EvFileCreate path
                       :: mid ++ [EvFileClose; EvBodyClose]
                 /\ Forall copy_event mid
                 /\ Body_bytes (Response_Body resp) = written mid ++ tail)).
Proof.
  apply (@DownloadToFile_releases sample_platform nat
           (sample_client abcde_response) None bulk_uri "cards.json"
           (Some count_progress) 0%nat abcde_response).
  - discriminate.
  - split; reflexivity.
Defined.

Lemma DownloadToFile_copies_witness :
  exists evs s',
    DownloadToFile (sample_client abcde_response) None bulk_uri "cards.json"
      (Some count_progress) 0%nat
    = Some (evs, s', None)
    /\ written evs = bytes_of "abcde".
Proof.
  apply (@DownloadToFile_copies sample_platform nat
           (sample_client abcde_response) None bulk_uri "cards.json"
           (Some count_progress) 0%nat abcde_response
           [bytes_of "ab"; bytes_of "cde"] [] [] io_EOF).
  - discriminate.
  - split; reflexivity.
  - reflexivity.
  - reflexivity.
  - reflexivity.
  - reflexivity.
  - reflexivity.
Defined.

(** The second read fails: the two bytes of the first stay in the
    file. *)
Example DownloadToFile_partial :
  exists evs,
    DownloadToFile (sample_client reset_response) None bulk_uri "cards.json"
      None 0%nat
    = Some (evs, 0%nat,
            Some (wrapError "copy to file: "
                    (foreignError "connection reset by peer")))
    /\ written evs = bytes_of "ab"
    /\ evs = [EvHTTPDo bulk_uri; EvFileCreate "cards.json";
              EvFileWrite (bytes_of "ab"); EvFileClose; EvBodyClose].
Proof. eexists. repeat split; vm_compute; reflexivity. Qed.

Lemma DownloadToFile_reports_progress_witness :
  exists evs s' res,
    DownloadToFile (sample_client abcde_response) None bulk_uri "cards.json"
      (Some count_progress) 0%nat
    = Some (evs, s', res)
    /\ progress_calls evs = map (fun t => (t, 5%Z)) [2; 5; 5]%Z
    /\ List.length (progress_calls evs) = 3%nat
    /\ last (map fst (progress_calls evs)) 0%Z
       = Z.of_nat (List.length (written evs)).
Proof.
  apply (@DownloadToFile_reports_progress sample_platform nat
           (sample_client abcde_response) None bulk_uri "cards.json"
           count_progress 0%nat abcde_response
           [bytes_of "ab"; bytes_of "cde"] [] [] io_EOF).
  - discriminate.
  - split; reflexivity.
  - reflexivity.
  - reflexivity.
  - reflexivity.
  - reflexivity.
  - reflexivity.
  - vm_compute. reflexivity.
Defined.

Lemma DownloadBulkDataStream_reports_progress_witness :
  let resp := sample_response 200 two_cards_chunks in
  exists evs s' res calls,
    DownloadBulkDataStream (codec := sample_codec) (sample_client resp) None
      bulk_uri count_cb (Some count_progress) 0%nat
    = Some (evs, s', res)
    /\ progress_calls evs
       = (int64 (Z.of_nat (List.length
                             (fst (fst (Body_Read (Response_Body resp)))))),
          ContentLength resp) :: calls.
Proof.
  apply (@DownloadBulkDataStream_reports_progress nat sample_codec
           sample_platform
           (sample_client (sample_response 200 two_cards_chunks)) None
           bulk_uri count_cb count_progress 0%nat
           (sample_response 200 two_cards_chunks)).
  - discriminate.
  - split; reflexivity.
  - reflexivity.
Defined.

(** An error body of white space only is not an empty body: the JSON
    decoder is asked and fails. *)
Example GetCardByID_blank_error_body :
  exists evs,
    GetCardByID (codec := sample_codec)
      (sample_client (sample_response 404 [bytes_of " "])) None "abc" 0%nat
    = Some (evs, 0%nat,
            (None,
             Some (wrapError "scryfall error status 404: "
                     (json_SyntaxError "unexpected end of JSON input")))).
Proof. eexists. vm_compute. reflexivity. Qed.
